(** * go-licenses: license scanning and compliance resolution

    A shallow embedding of the scanning, strictness-resolution, manifest and
    save code of go-licenses (v2), with the properties its specification
    states about them.

    Go strings are modelled as [string] (sequences of bytes), slices as
    [list], Go maps as stdpp's [gmap], Go [error] values as the inductive
    [error] below, and functions with side effects as state transformers over
    an explicit [World]. *)

From Stdlib Require Import ZArith Ascii String List Bool Lia.
From stdpp Require Import base option list strings gmap.

Local Open Scope Z_scope.
Local Open Scope nat_scope.

(** ** Package strings and path/filepath (the parts the program uses) *)

Module GoStrings.

(** strings.HasSuffix:
    [len(s) >= len(suffix) && s[len(s)-len(suffix):] == suffix]. *)
Definition HasSuffix (s suffix : string) : bool :=
  (String.length suffix <=? String.length s) &&
  String.eqb
    (substring (String.length s - String.length suffix)
               (String.length suffix) s)
    suffix.

(** strings.Split(s, sep) for a separator of one byte, the only way the
    program calls it.  The result is never empty: a string without the
    separator is returned whole. *)
Fixpoint Split (s : string) (sep : ascii) : list string :=
  match s with
  | EmptyString => [EmptyString]
  | String c s' =>
      if Ascii.eqb c sep then EmptyString :: Split s' sep
      else match Split s' sep with
           | [] => [String c EmptyString]
           | w :: ws => String c w :: ws
           end
  end.

(** A byte of a Go string, as a number. *)
Definition byteOf (c : ascii) : Z := Z.of_N (N_of_ascii c).

(** s[i], for an index within the string. *)
Definition byteAt (s : string) (i : nat) : Z :=
  match String.get i s with
  | Some c => byteOf c
  | None => 0%Z
  end.

(** s[i:] and s[:i] *)
Definition sliceFrom (s : string) (i : nat) : string :=
  substring i (String.length s - i) s.

Definition sliceTo (s : string) (i : nat) : string := substring 0 i s.

(** Package unicode/utf8: the decoding of one rune at the start and at
    the end of a string. *)
Module utf8.

Definition RuneError : Z := 0xFFFD.   (* the "error" rune *)
Definition RuneSelf : Z := 0x80.      (* bytes below RuneSelf are runes of one byte *)
Definition UTFMax : nat := 4.         (* maximum number of bytes of an encoded rune *)

Definition maskx : Z := 0x3F.
Definition mask2 : Z := 0x1F.
Definition mask3 : Z := 0x0F.
Definition mask4 : Z := 0x07.
Definition locb : Z := 0x80.
Definition hicb : Z := 0xBF.

(** The table [first] with [acceptRanges], for a byte that is not ASCII:
    the length of the sequence this byte starts and the range accepted for
    its second byte; [None] for a byte that starts no sequence. *)
Definition first (s0 : Z) : option (nat * Z * Z) :=
  if (s0 <? 0xC2)%Z then None
  else if (s0 <=? 0xDF)%Z then Some (2, locb, hicb)
  else if (s0 =? 0xE0)%Z then Some (3, 0xA0%Z, hicb)
  else if (s0 <=? 0xEC)%Z then Some (3, locb, hicb)
  else if (s0 =? 0xED)%Z then Some (3, locb, 0x9F%Z)
  else if (s0 <=? 0xEF)%Z then Some (3, locb, hicb)
  else if (s0 =? 0xF0)%Z then Some (4, 0x90%Z, hicb)
  else if (s0 <=? 0xF3)%Z then Some (4, locb, hicb)
  else if (s0 =? 0xF4)%Z then Some (4, locb, 0x8F%Z)
  else None.

(** DecodeRuneInString: the first rune of s and its width in bytes;
    (RuneError, 0) for the empty string and (RuneError, 1) for an encoding
    that is invalid. *)
Definition DecodeRuneInString (s : string) : Z * nat :=
  let n := String.length s in
  if n <? 1 then (RuneError, 0)
  else
    let s0 := byteAt s 0 in
    if (s0 <? RuneSelf)%Z then (s0, 1)
    else
      match first s0 with
      | None => (RuneError, 1)
      | Some (sz, lo, hi) =>
          if n <? sz then (RuneError, 1)
          else
            let s1 := byteAt s 1 in
            if (s1 <? lo)%Z || (hi <? s1)%Z then (RuneError, 1)
            else if sz <=? 2 then
              (Z.lor (Z.shiftl (Z.land s0 mask2) 6) (Z.land s1 maskx), 2)
            else
              let s2 := byteAt s 2 in
              if (s2 <? locb)%Z || (hicb <? s2)%Z then (RuneError, 1)
              else if sz <=? 3 then
                (Z.lor (Z.lor (Z.shiftl (Z.land s0 mask3) 12) (Z.shiftl (Z.land s1 maskx) 6))
                       (Z.land s2 maskx), 3)
              else
                let s3 := byteAt s 3 in
                if (s3 <? locb)%Z || (hicb <? s3)%Z then (RuneError, 1)
                else
                  (Z.lor (Z.lor (Z.lor (Z.shiftl (Z.land s0 mask4) 18)
                                       (Z.shiftl (Z.land s1 maskx) 12))
                                (Z.shiftl (Z.land s2 maskx) 6))
                         (Z.land s3 maskx), 4)
      end.

(** RuneStart: the byte is not a continuation byte. *)
Definition RuneStart (b : Z) : bool := negb (Z.land b 0xC0 =? 0x80)%Z.

(** The loop of DecodeLastRuneInString that steps back to the start of
    the last rune, [for start--; start >= lim; start--]; it is entered with
    [start = end - 2] and makes at most UTFMax tests. *)
Fixpoint backToStart (s : string) (lim : Z) (tests : nat) (start : Z) : Z :=
  match tests with
  | 0 => start
  | S tests' =>
      if (start <? lim)%Z then start
      else if RuneStart (byteAt s (Z.to_nat start)) then start
      else backToStart s lim tests' (start - 1)
  end.

(** DecodeLastRuneInString: the last rune of s and its width. *)
Definition DecodeLastRuneInString (s : string) : Z * nat :=
  let end_ := String.length s in
  if end_ =? 0 then (RuneError, 0)
  else
    let r := byteAt s (end_ - 1) in
    if (r <? RuneSelf)%Z then (r, 1)
    else
      let lim := Z.max 0 (Z.of_nat end_ - Z.of_nat UTFMax) in
      let start := Z.to_nat (Z.max 0 (backToStart s lim UTFMax (Z.of_nat end_ - 2))) in
      let '(r, size) := DecodeRuneInString (substring start (end_ - start) s) in
      if start + size =? end_ then (r, size) else (RuneError, 1).

End utf8.

(** unicode.IsSpace: the white space of Latin-1, and beyond it the
    code points with the property White_Space. *)
Definition IsSpace (r : Z) : bool :=
  if (r <=? 0xFF)%Z then
    (r =? 0x09)%Z || (r =? 0x0A)%Z || (r =? 0x0B)%Z || (r =? 0x0C)%Z || (r =? 0x0D)%Z
    || (r =? 0x20)%Z || (r =? 0x85)%Z || (r =? 0xA0)%Z
  else
    (r =? 0x1680)%Z || ((0x2000 <=? r)%Z && (r <=? 0x200A)%Z)
    || ((0x2028 <=? r)%Z && (r <=? 0x2029)%Z) || (r =? 0x202F)%Z || (r =? 0x205F)%Z
    || (r =? 0x3000)%Z.

(** indexFunc(s, f, false): the index of the first rune of s, from index i
    on, that does not satisfy f; [None] stands for -1.  Every step moves
    on by the width of a rune, so len(s) steps are enough. *)
Fixpoint indexFunc (f : Z → bool) (steps : nat) (s : string) (i : nat) : option nat :=
  match steps with
  | 0 => None
  | S steps' =>
      if String.length s <=? i then None
      else
        let '(r, size) := utf8.DecodeRuneInString (sliceFrom s i) in
        if f r then indexFunc f steps' s (i + size) else Some i
  end.

(** lastIndexFunc(s, f, false): the index of the last rune of s[:i] that
    does not satisfy f. *)
Fixpoint lastIndexFunc (f : Z → bool) (steps : nat) (s : string) (i : nat) : option nat :=
  match steps with
  | 0 => None
  | S steps' =>
      if i =? 0 then None
      else
        let '(r, size) := utf8.DecodeLastRuneInString (sliceTo s i) in
        let i := i - size in
        if f r then lastIndexFunc f steps' s i else Some i
  end.

(** strings.TrimLeftFunc *)
Definition TrimLeftFunc (s : string) (f : Z → bool) : string :=
  match indexFunc f (String.length s) s 0 with
  | None => ""
  | Some i => sliceFrom s i
  end.

(** strings.TrimRightFunc *)
Definition TrimRightFunc (s : string) (f : Z → bool) : string :=
  match lastIndexFunc f (String.length s) s (String.length s) with
  | None => sliceTo s 0
  | Some i =>
      if (utf8.RuneSelf <=? byteAt s i)%Z then
        let '(_, wid) := utf8.DecodeRuneInString (sliceFrom s i) in
        sliceTo s (i + wid)
      else sliceTo s (i + 1)
  end.

(** strings.TrimFunc *)
Definition TrimFunc (s : string) (f : Z → bool) : string :=
  TrimRightFunc (TrimLeftFunc s f) f.

(** strings.TrimSpace: s without its leading and trailing white space, as
    defined by Unicode.  (The source has a fast path for strings that
    start and end with ASCII bytes; for the others it calls TrimFunc with
    unicode.IsSpace, which gives the same result on every string.) *)
Definition TrimSpace (s : string) : string := TrimFunc s IsSpace.

(** filepath.Join of elements that are themselves clean and have no
    parent references: empty elements are ignored, and so are "." elements,
    which filepath.Clean removes from the joined path. *)
Definition keepElem (e : string) : bool :=
  negb (String.eqb e "") && negb (String.eqb e ".").

Fixpoint joinSlash (elems : list string) : string :=
  match elems with
  | [] => ""
  | [e] => e
  | e :: rest => e +:+ "/" +:+ joinSlash rest
  end.

Definition JoinAll (elems : list string) : string :=
  match List.filter keepElem elems with
  | [] => if existsb (String.eqb ".") elems then "." else ""
  | kept => joinSlash kept
  end.

Definition Join (dir name : string) : string := JoinAll [dir; name].

(** filepath.Base: the last element of path.  Trailing slashes are
    removed before the last element is taken; the empty path gives "." and
    a path of slashes only gives "/".  [lastElem] reads the path from left
    to right: [cur] is the element being read and [last] the last
    non-empty element that a slash has ended. *)
Fixpoint lastElem (path cur last : string) : string :=
  match path with
  | EmptyString => if String.eqb cur "" then last else cur
  | String c rest =>
      if Ascii.eqb c "/" then lastElem rest "" (if String.eqb cur "" then last else cur)
      else lastElem rest (cur +:+ String c EmptyString) last
  end.

Definition Base (path : string) : string :=
  if String.eqb path "" then "."
  else
    let e := lastElem path "" "" in
    if String.eqb e "" then "/" else e.

(** filepath.Dir of a clean path: all but the last element. *)
Fixpoint afterSlash (r : string) : option string :=
  match r with
  | EmptyString => None
  | String c r' => if Ascii.eqb c "/" then Some r' else afterSlash r'
  end.

Definition Dir (path : string) : string :=
  match afterSlash (String.rev path) with
  | None => "."
  | Some r => if String.eqb r "" then "/" else String.rev r
  end.

End GoStrings.

Import GoStrings.

(** ** Data model *)

Module gocli.

(** gocli.Module, as far as the program reads it: the module path (the
    component's canonical name), its directory on disk and its version. *)
Record Module := { Path : string; Dir : string; Version : string }.

End gocli.

Module licenses.

(** Modelled from the spec: the declaration of [licenses.Type] is not part
    of the sources verified here.  The data model lists five ordered families and
    the two outcomes Unknown and Forbidden. *)
Inductive LType :=
| Unencumbered | Permissive | Notice | Reciprocal | Restricted
| Unknown | Forbidden.

Global Instance LType_eq_dec : EqDecision LType.
Proof. solve_decision. Defined.

Definition LType_index (t : LType) : nat :=
  match t with
  | Unencumbered => 0 | Permissive => 1 | Notice => 2 | Reciprocal => 3
  | Restricted => 4 | Unknown => 5 | Forbidden => 6
  end.

Definition LType_of_index (n : nat) : option LType :=
  match n with
  | 0 => Some Unencumbered | 1 => Some Permissive | 2 => Some Notice
  | 3 => Some Reciprocal | 4 => Some Restricted | 5 => Some Unknown
  | 6 => Some Forbidden | _ => None
  end.

Global Instance LType_countable : Countable LType.
Proof.
  apply (inj_countable LType_index LType_of_index).
  intros []; reflexivity.
Defined.

(** type License struct (second revision of module.go; the first revision
    has no Type field and never sets URL). *)
Record License := {
  ID : string;      (* SPDX ID *)
  Path : string;    (* path of the license file *)
  URL : string;     (* optional, license file URL on internet *)
  Type_ : LType     (* Type: type of the software license *)
}.

(** type Module struct { gocli.Module; Licenses []License } *)
Record Module := { Mod : gocli.Module; Licenses : list License }.

End licenses.

Import licenses.

(** ** Errors *)

(** An argument of a format verb. *)
Inductive fmtArg :=
| ArgS (s : string)
| ArgN (n : nat)
| ArgBad (bad : gmap LType (list licenses.Module)).

(** Go [error] values.  [Errorf] and [Wrapf] keep the format string of the
    call that built them together with its arguments; [Wrapf] also keeps the
    wrapped cause (the %w verb, errors.Wrap and errors.Wrapf). *)
Inductive error :=
| SkipDir                                   (* filepath.SkipDir *)
| ErrSys (op : string) (path : string)      (* failure of the OS or of a package outside the repository *)
| Errorf (format : string) (args : list fmtArg)
| Wrapf (format : string) (args : list fmtArg) (cause : error).

Definition isSkipDir (e : error) : bool :=
  match e with SkipDir => true | _ => false end.

(** var ErrorEmptyDir = fmt.Errorf("dir is empty") *)
Definition ErrorEmptyDir : error := Errorf "dir is empty" [].

Definition argNames (component : string) (a : fmtArg) : bool :=
  match a with
  | ArgS s => String.eqb s component
  | ArgN _ => false
  | ArgBad bad =>
      existsb
        (fun kv : LType * list licenses.Module =>
           existsb (fun m => String.eqb (gocli.Path (Mod m)) component) kv.2)
        (map_to_list bad)
  end.

(** [names e c]: the component name [c] is one of the values the error
    message of [e] is built from. *)
Fixpoint names (e : error) (component : string) : bool :=
  match e with
  | SkipDir | ErrSys _ _ => false
  | Errorf _ args => existsb (argNames component) args
  | Wrapf _ args cause => existsb (argNames component) args || names cause component
  end.

(** A Go result pair [(value, err)] of which only one side is used. *)
Inductive result (A : Type) :=
| Ok (a : A)
| Err (e : error).
Arguments Ok {A} a.
Arguments Err {A} e.

(** ** The file system *)

(** What os.Lstat and a directory read show of a file tree.  [perm] holds the
    permission bits of the entry. *)
Inductive node :=
| File (name : string) (perm : Z)
| Symlink (name : string)
| Dir (name : string) (perm : Z) (entries : list node)
| DirUnreadable (name : string) (perm : Z)   (* a directory whose entries cannot be read *)
| Broken (name : string).                    (* an entry on which os.Lstat fails *)

Definition Name (n : node) : string :=
  match n with
  | File s _ | Symlink s | Dir s _ _ | DirUnreadable s _ | Broken s => s
  end.

Definition IsDir (n : node) : bool :=
  match n with Dir _ _ _ | DirUnreadable _ _ => true | _ => false end.

Definition IsSymlink (n : node) : bool :=
  match n with Symlink _ => true | _ => false end.

(** What os.Open finds at the save path. *)
Inductive PathState :=
| Absent          (* the error satisfies os.IsNotExist *)
| Present         (* the path can be opened *)
| Inaccessible.   (* any other error *)

Inductive Severity := Info | Warning | Error.

(** The effects of a run, oldest first. *)
Inductive Event :=
| EvRemoveAll (path : string)
| EvMkdirAll (path : string) (perm : Z)
| EvCreate (path : string)
| EvCopy (src dest : string) (created : node)   (* copy.Copy created this tree at dest *)
| EvWrite (file : string) (text : string)       (* text written to a file or to stdout *)
| EvLog (severity : Severity) (format : string) (args : list string).

Record World := {
  saveDir : PathState;      (* state of the save path *)
  trace : list Event
}.

Definition emit (e : Event) (w : World) : World :=
  {| saveDir := saveDir w; trace := trace w ++ [e] |}.

Definition isCopy (e : Event) : bool :=
  match e with EvCopy _ _ _ => true | _ => false end.


(** ** Collaborators *)

Module source.

(** Modelled from the spec: package source (the Source Locator) is not part
    of the sources verified here.  A handle produces a URL, possibly empty, for a
    relative file path; a missing handle (a nil *Info) produces the empty
    URL. *)
Record Info := { fileURL : string → string }.

Definition FileURL (remote : option Info) (pathname : string) : string :=
  match remote with
  | None => ""
  | Some i => fileURL i pathname
  end.

End source.

Module dict.

(** dict.LicenseRecord: one row of the license csv, as far as the save
    command reads it.  [Type_] is the declared license: an SPDX ID or a
    list of them joined by "/". *)
Record LicenseRecord := {
  Module : string;
  Type_ : string;
  DownaloadUrl : string
}.

End dict.

Module config.

(** One entry of cfg.Types.Overrides. *)
Record TypeOverride := { SpdxId : string; Type_ : string }.

(** config.LicensesConfig, reduced to Types.Overrides. *)
Record LicensesConfig := { Overrides : list TypeOverride }.

(** config.GoModLicensesConfig, reduced to the field Licenses. *)
Record GoModLicensesConfig := { Licenses : LicensesConfig }.

End config.

Module licensesLib.

(** licenses.Library, as far as the csv command reads it. *)
Record Library := {
  Name : string;              (* lib.Name() *)
  LicensePath : string;
  Module : gocli.Module
}.

End licensesLib.

(** The environment of a run: the file system as the program reads it, and
    the functions the program calls whose code is outside the repository or
    not among the sources verified here. *)
Record Env := {
  (* os, path/filepath, io/ioutil *)
  Lstat : string → option node;                 (* None: os.Lstat fails *)
  Rel : string → string → result string;        (* filepath.Rel *)
  RemoveAllErr : string → option error;         (* failure of os.RemoveAll *)
  MkdirAllErr : string → option error;
  CreateErr : string → option error;
  WriteErr : string → option error;             (* failure of a write to the named file *)
  FlushErr : option error;
  CopyErr : string → string → option error;     (* failure of copy.Copy on the destination side *)
  (* package licenses: classifier and file-name pattern *)
  NewClassifierErr : option error;
  Identify : string → result (string * LType);  (* classifier.Identify *)
  licenseRegexp : string → bool;                (* licenseRegexp.MatchString *)
  Scan : gocli.Module → result licenses.Module; (* licenses.Scan *)
  Libraries : list string → result (list licensesLib.Library);  (* licenses.Libraries *)
  (* package gocli *)
  ListDeps : list string → result (list gocli.Module);
  ListModules : result (list gocli.Module);
  BuildModuleDict : list gocli.Module → gmap string gocli.Module;
  (* packages config and dict *)
  LoadConfig : result config.GoModLicensesConfig;               (* config.Load("") *)
  ReadFile : string → result string;                            (* ioutil.ReadFile *)
  LoadLicenseRecords : string → result (list dict.LicenseRecord);
  (* package source *)
  ModuleInfo : string → string → result source.Info;
  (* package ghutils *)
  SmartDownload : string → result string;
  (* github.com/google/licenseclassifier *)
  LicenseType : string → string
}.

(** ** filepath.Walk *)

Module filepath.

(** type WalkFunc func(path string, info fs.FileInfo, err error) error, with
    the state its closure updates passed explicitly. *)
Definition WalkFunc (S : Type) : Type :=
  string → option node → option error → S → S * option error.

(** The loop of walk over the names of a directory; [walk] is the
    recursive call. *)
Definition walkNames {S : Type} (walkFn : WalkFunc S)
    (walk : string → node → S → S * option error) (path : string)
    : list node → S → S * option error :=
  fix loop (names : list node) (st : S) {struct names} : S * option error :=
    match names with
    | [] => (st, None)
    | child :: rest =>
        let filename := Join path (Name child) in
        match child with
        | Broken _ =>
            let '(st', r) := walkFn filename None (Some (ErrSys "lstat" filename)) st in
            match r with
            | Some err => if isSkipDir err then loop rest st' else (st', Some err)
            | None => loop rest st'
            end
        | _ =>
            let '(st', r) := walk filename child st in
            match r with
            | Some err =>
                if negb (IsDir child) || negb (isSkipDir err)
                then (st', Some err)
                else loop rest st'
            | None => loop rest st'
            end
        end
    end.

(** walk recursively descends path, calling walkFn. *)
Fixpoint walk {S : Type} (walkFn : WalkFunc S) (path : string) (info : node)
    (st : S) {struct info} : S * option error :=
  match info with
  | Dir _ _ entries =>
      let '(st1, err1) := walkFn path (Some info) None st in
      match err1 with
      | Some e => (st1, Some e)
      | None => walkNames walkFn (walk walkFn) path entries st1
      end
  | DirUnreadable _ _ =>
      (* whatever walkFn returns for the read error is returned *)
      walkFn path (Some info) (Some (ErrSys "readdirnames" path)) st
  | File _ _ | Symlink _ => walkFn path (Some info) None st
  | Broken _ => walkFn path None (Some (ErrSys "lstat" path)) st
  end.

(** Walk walks the file tree rooted at root. *)
Definition Walk {S : Type} (env : Env) (root : string) (walkFn : WalkFunc S)
    (st : S) : S * option error :=
  let '(st', err) :=
    match Lstat env root with
    | None => walkFn root None (Some (ErrSys "lstat" root)) st
    | Some info => walk walkFn root info st
    end in
  match err with
  | Some e => if isSkipDir e then (st', None) else (st', Some e)
  | None => (st', None)
  end.

End filepath.

(** ** module.go: scanning a module for licenses *)

(** var ignoredDir map[string]bool, as filled by init(). *)
Definition ignoredDir : gmap string bool :=
  <["testdata" := true]> (<["node_modules" := true]> (<[".git" := true]> ∅)).

(** Indexing a map[string]bool: a missing key reads as false. *)
Definition index_bool (m : gmap string bool) (k : string) : bool :=
  default false (m !! k).

(** The deferred function of module: a non-nil error is wrapped with the
    module path. *)
Definition wrapScanErr (m : gocli.Module) (err : option error) : option error :=
  match err with
  | Some e => Some (Wrapf "scanning licenses for module %q: %w" [ArgS (gocli.Path m)] e)
  | None => None
  end.

Definition licenseNotFound : error := Errorf "license not found" [].

(** First revision of module.go. *)
Module licenses1.

Record License := { ID : string; Path : string; URL : string }.

Record Module := { Mod : gocli.Module; Licenses : list License }.

(** The function literal passed to filepath.Walk; the state is
    res.Licenses. *)
Definition walkFn (env : Env) : filepath.WalkFunc (list License) :=
  fun path info err lics =>
    match err with
    | Some e => (lics, Some e)
    | None =>
        match info with
        | None => (lics, None)
        | Some info =>
            if IsSymlink info then (lics, None)          (* skip symbolic links *)
            else if IsDir info then
              if index_bool ignoredDir (Name info) then (lics, Some SkipDir)
              else (lics, None)
            else if negb (licenseRegexp env (Name info)) then (lics, None)
            else
              match Identify env path with
              | Err _ => (lics, None)   (* expected for files without license text *)
              | Ok (licenseID, _) =>
                  (lics ++ [{| ID := licenseID; Path := path; URL := "" |}], None)
              end
        end
    end.

(** module scans a module for licenses. *)
Definition module (env : Env) (m : gocli.Module) : Module * option error :=
  if String.eqb (gocli.Dir m) "" then
    ({| Mod := m; Licenses := [] |}, wrapScanErr m (Some ErrorEmptyDir))
  else
    let '(lics, err) := filepath.Walk env (gocli.Dir m) (walkFn env) [] in
    let res := {| Mod := m; Licenses := lics |} in
    if Nat.eqb (length lics) 0 then (res, wrapScanErr m (Some licenseNotFound))
    else (res, wrapScanErr m err).

(** Modules: the scan of the dependencies stops at the first module that
    fails. *)
Fixpoint scanAll (env : Env) (mods : list gocli.Module) (res : list Module)
    : list Module * option error :=
  match mods with
  | [] => (res, None)
  | m :: rest =>
      match module env m with
      | (_, Some err) => (res, Some err)
      | (modLicense, None) => scanAll env rest (res ++ [modLicense])
      end
  end.

Definition Modules (env : Env) (importPaths : list string)
    : list Module * option error :=
  match ListDeps env importPaths with
  | Err err => ([], Some err)
  | Ok mods => scanAll env mods []
  end.

End licenses1.

(** Second revision of module.go: the scan also resolves the remote
    repository of the module and records URL and Type of each license. *)
Module licenses2.

Definition walkFn (env : Env) (m : gocli.Module) (remote : source.Info)
    : filepath.WalkFunc (list License) :=
  fun path info err lics =>
    match err with
    | Some e => (lics, Some e)
    | None =>
        match info with
        | None => (lics, None)
        | Some info =>
            if IsSymlink info then (lics, None)
            else if IsDir info then
              if index_bool ignoredDir (Name info) then (lics, Some SkipDir)
              else (lics, None)
            else if negb (licenseRegexp env (Name info)) then (lics, None)
            else
              match Identify env path with
              | Err _ => (lics, None)
              | Ok (licenseID, licenseType) =>
                  match Rel env (gocli.Dir m) path with
                  | Err e => (lics, Some e)
                  | Ok relativePath =>
                      (lics ++ [{| ID := licenseID;
                                   Path := relativePath;
                                   URL := source.FileURL (Some remote) relativePath;
                                   Type_ := licenseType |}], None)
                  end
              end
        end
    end.

Definition emptyVersionWarning : string :=
  "module %s has empty version, defaults to master. The license URL may be incorrect. Please verify!".

(** module scans a module for licenses. *)
Definition module (env : Env) (m : gocli.Module) (w : World)
    : licenses.Module * option error * World :=
  if String.eqb (gocli.Dir m) "" then
    ({| Mod := m; Licenses := [] |}, wrapScanErr m (Some ErrorEmptyDir), w)
  else
    let '(ver, w) :=
      if String.eqb (gocli.Version m) ""
      then ("master", emit (EvLog Warning emptyVersionWarning [gocli.Path m]) w)
      else (gocli.Version m, w) in
    match ModuleInfo env (gocli.Path m) ver with
    | Err err => ({| Mod := m; Licenses := [] |}, wrapScanErr m (Some err), w)
    | Ok remote =>
        let '(lics, err) := filepath.Walk env (gocli.Dir m) (walkFn env m remote) [] in
        let res := {| Mod := m; Licenses := lics |} in
        if Nat.eqb (length lics) 0 then (res, wrapScanErr m (Some licenseNotFound), w)
        else (res, wrapScanErr m err, w)
    end.

Fixpoint scanAll (env : Env) (mods : list gocli.Module) (res : list licenses.Module)
    (w : World) : list licenses.Module * option error * World :=
  match mods with
  | [] => (res, None, w)
  | m :: rest =>
      match module env m w with
      | (_, Some err, w') => (res, Some err, w')
      | (modLicense, None, w') => scanAll env rest (res ++ [modLicense]) w'
      end
  end.

(** Modules finds licenses of direct and transitive module dependencies. *)
Definition Modules (env : Env) (importPaths : list string) (w : World)
    : list licenses.Module * option error * World :=
  match ListDeps env importPaths with
  | Err err => ([], Some err, w)
  | Ok mods => scanAll env mods [] w
  end.

End licenses2.

(** ** github.com/otiai10/copy, as the program configures it *)

Module copy.

(** type Options struct: the two fields the program sets. *)
Record Options := {
  AddPermission : Z;                  (* permission bits added to every copied entry *)
  Skip : string → result bool         (* func(src string) (bool, error) *)
}.

Definition isBroken (n : node) : bool :=
  match n with Broken _ => true | _ => false end.

(** dcopy: the loop over the contents of a directory; [copyEntry] is the
    recursive call.  Skip is asked about every entry before it is copied,
    and a skipped entry is left out with everything below it; every other
    entry is copied to the path of the same name below [destdir]. *)
Definition dcopy (opt : Options) (copyEntry : string → string → node → result node)
    (srcdir destdir : string) : list node → result (list node) :=
  fix loop (contents : list node) {struct contents} : result (list node) :=
    match contents with
    | [] => Ok []
    | content :: rest =>
        let cs := Join srcdir (Name content) in
        let cd := Join destdir (Name content) in
        match Skip opt cs with
        | Err e => Err e
        | Ok true => loop rest
        | Ok false =>
            match copyEntry cs cd content with
            | Err e => Err e
            | Ok created =>
                match loop rest with
                | Err e => Err e
                | Ok others => Ok (created :: others)
                end
            end
        end
    end.

(** switchboard: the tree created at [dest] for the entry [info] found at
    [src].  A symbolic link is recreated, a file is copied and a directory
    is copied entry by entry; what is created is the entry at the path
    [dest], so that it is named by the last element of [dest], and a file
    or directory gets the permission bits of its source with AddPermission
    added. *)
Fixpoint switchboard (opt : Options) (src dest : string) (info : node)
    {struct info} : result node :=
  match info with
  | Symlink _ => Ok (Symlink (Base dest))
  | File _ perm => Ok (File (Base dest) (Z.lor perm (AddPermission opt)))
  | Dir _ perm contents =>
      if existsb isBroken contents then Err (ErrSys "readdir" src)
      else
        match dcopy opt (switchboard opt) src dest contents with
        | Err e => Err e
        | Ok created => Ok (Dir (Base dest) (Z.lor perm (AddPermission opt)) created)
        end
  | DirUnreadable _ _ => Err (ErrSys "readdir" src)
  | Broken _ => Err (ErrSys "lstat" src)
  end.

(** Copy copies src to dest, doesn't matter if src is a directory or a
    file.  The created tree is recorded when the whole copy succeeded. *)
Definition Copy (env : Env) (src dest : string) (opt : Options) (w : World)
    : World * option error :=
  match Lstat env src with
  | None => (w, Some (ErrSys "lstat" src))
  | Some info =>
      match switchboard opt src dest info with
      | Err e => (w, Some e)
      | Ok created =>
          match CopyErr env src dest with
          | Some e => (w, Some e)
          | None => (emit (EvCopy src dest created) w, None)
          end
      end
  end.

End copy.

(** os.RemoveAll *)
Definition RemoveAll (env : Env) (path : string) (w : World) : World * option error :=
  match RemoveAllErr env path with
  | Some e => (w, Some e)
  | None => (emit (EvRemoveAll path) w, None)
  end.

(** The save path after it has been removed. *)
Definition removed (w : World) : World := {| saveDir := Absent; trace := trace w |}.

(** ioutil.ReadDir *)
Definition ReadDir (env : Env) (dir : string) : result (list node) :=
  match Lstat env dir with
  | Some (Dir _ _ entries) =>
      if existsb copy.isBroken entries then Err (ErrSys "readdir" dir) else Ok entries
  | _ => Err (ErrSys "readdir" dir)
  end.

(** ** The save command that scans the dependencies itself (package main) *)

Module main.

(** Modelled from the spec: licenses.Stricter is not part of the sources
    verified here.  [FamilyOrder rank] says that [rank] numbers the families
    in the order of the data model: Unencumbered < Permissive < Notice <
    Reciprocal < Restricted, with Unknown and Forbidden stricter than
    Restricted, and no two families of equal rank. *)
Definition FamilyOrder (rank : LType → nat) : Prop :=
  rank Unencumbered < rank Permissive ∧ rank Permissive < rank Notice ∧
  rank Notice < rank Reciprocal ∧ rank Reciprocal < rank Restricted ∧
  rank Restricted < rank Unknown ∧ rank Restricted < rank Forbidden ∧
  rank Unknown ≠ rank Forbidden.

(** Modelled from the spec: Stricter(a, b) holds when a is strictly
    stricter than b in the order numbered by [rank]. *)
Definition Stricter (rank : LType → nat) (a b : LType) : bool :=
  rank b <? rank a.

(** One numbering that satisfies [FamilyOrder]. *)
Definition strictness (t : LType) : nat := LType_index t.

(** noticeRegexp = regexp.MustCompile(`^NOTICE(\.(txt|md))?$`) *)
Definition noticeRegexp (name : string) : bool :=
  String.eqb name "NOTICE" || String.eqb name "NOTICE.txt" || String.eqb name "NOTICE.md".

(** var copyOpt = copy.Options{AddPermission: 0600, Skip: ...} *)
Definition copyOpt : copy.Options :=
  {| copy.AddPermission := 384%Z;  (* 0600 *)
     copy.Skip := fun src => Ok (HasSuffix src ".git") |}.

Definition copySrc (env : Env) (src dest : string) (w : World) : World * option error :=
  copy.Copy env src dest copyOpt w.

(** The inner loop of copyNotices, over the files of one directory. *)
Fixpoint copyNoticeFiles (env : Env) (dir destDir : string) (files : list node)
    (w : World) : World * option error :=
  match files with
  | [] => (w, None)
  | f :: rest =>
      let fName := Name f in
      if negb (IsDir f) && noticeRegexp fName then
        match copy.Copy env (Join dir fName) (Join destDir fName) copyOpt w with
        | (w', Some err) => (w', Some err)
        | (w', None) => copyNoticeFiles env dir destDir rest w'
        end
      else copyNoticeFiles env dir destDir rest w
  end.

(** The outer loop of copyNotices, over the licenses of the module. *)
Fixpoint copyNoticesLoop (env : Env) (mod_ : licenses.Module) (dest : string)
    (lics : list License) (saved : gmap string bool) (w : World)
    : World * option error :=
  match lics with
  | [] => (w, None)
  | license :: rest =>
      let licensePath := Join (gocli.Dir (Mod mod_)) (Path license) in
      match copy.Copy env licensePath (Join dest (Path license)) copyOpt w with
      | (w', Some err) => (w', Some err)
      | (w', None) =>
          let dir := GoStrings.Dir licensePath in
          if index_bool saved dir then copyNoticesLoop env mod_ dest rest saved w'
          else
            let saved := <[dir := true]> saved in
            match ReadDir env dir with
            | Err err => (w', Some err)
            | Ok files =>
                match Rel env (gocli.Dir (Mod mod_)) dir with
                | Err err => (w', Some err)
                | Ok dirRelativePath =>
                    match copyNoticeFiles env dir (Join dest dirRelativePath) files w' with
                    | (w'', Some err) => (w'', Some err)
                    | (w'', None) => copyNoticesLoop env mod_ dest rest saved w''
                    end
                end
            end
      end
  end.

Definition copyNotices (env : Env) (mod_ : licenses.Module) (dest : string)
    (w : World) : World * option error :=
  copyNoticesLoop env mod_ dest (Licenses mod_) ∅ w.

(** The most strict license type of a module: the accumulator starts at
    Unencumbered and is replaced by a license type that is stricter. *)
Fixpoint strictest (rank : LType → nat) (lics : list License) (licenseType : LType)
    : LType :=
  match lics with
  | [] => licenseType
  | license :: rest =>
      strictest rank rest
        (if Stricter rank (Type_ license) licenseType then Type_ license
         else licenseType)
  end.

Definition governingType (rank : LType → nat) (lics : list License) : LType :=
  strictest rank lics Unencumbered.

(** The switch on the license type: what is done for one scanned module. *)
Definition comply (env : Env) (savePath : string) (rank : LType → nat)
    (mod_ : licenses.Module) (bad : gmap LType (list licenses.Module)) (w : World)
    : World * result (gmap LType (list licenses.Module)) :=
  let modSaveDir := Join savePath (gocli.Path (Mod mod_)) in
  let licenseType := governingType rank (Licenses mod_) in
  match licenseType with
  | Restricted | Reciprocal =>
      (* Copy the entire source directory for the module. *)
      match copySrc env (gocli.Dir (Mod mod_)) modSaveDir w with
      | (w', Some err) => (w', Err err)
      | (w', None) => (w', Ok bad)
      end
  | Notice | Permissive | Unencumbered =>
      (* Just copy the license and copyright notice. *)
      match copyNotices env mod_ modSaveDir w with
      | (w', Some err) => (w', Err err)
      | (w', None) => (w', Ok bad)
      end
  | _ =>
      (w, Ok (<[licenseType := default [] (bad !! licenseType) ++ [mod_]]> bad))
  end.

(** The loop of saveMain over the dependencies. *)
Fixpoint saveLoop (env : Env) (savePath : string) (rank : LType → nat)
    (mods : list gocli.Module) (bad : gmap LType (list licenses.Module)) (w : World)
    : World * result (gmap LType (list licenses.Module)) :=
  match mods with
  | [] => (w, Ok bad)
  | m :: rest =>
      match Scan env m with
      | Err err => (w, Err err)
      | Ok mod_ =>
          match comply env savePath rank mod_ bad w with
          | (w', Err err) => (w', Err err)
          | (w', Ok bad') => saveLoop env savePath rank rest bad' w'
          end
      end
  end.

Definition badLicensesError (bad : gmap LType (list licenses.Module)) : error :=
  Errorf "one or more modules have an incompatible/unknown license: %q" [ArgBad bad].

(** What saveMain does once the save path has been found absent. *)
Definition saveAll (env : Env) (savePath : string) (rank : LType → nat)
    (mods : list gocli.Module) (w : World) : World * option error :=
  match saveLoop env savePath rank mods ∅ w with
  | (w', Err err) => (w', Some err)
  | (w', Ok bad) =>
      if 0 <? size bad then (w', Some (badLicensesError bad)) else (w', None)
  end.

(** saveMain, with the flags save_path and force as arguments. *)
Definition saveMain (env : Env) (savePath : string) (overwriteSavePath : bool)
    (rank : LType → nat) (args : list string) (w : World) : World * option error :=
  match NewClassifierErr env with
  | Some err => (w, Some err)
  | None =>
      match ListDeps env args with
      | Err err => (w, Some err)
      | Ok mods =>
          match
            (if overwriteSavePath then
               match RemoveAll env savePath w with
               | (w', Some err) => (w', Some err)
               | (w', None) => (removed w', None)
               end
             else (w, None))
          with
          | (w1, Some err) => (w1, Some err)
          | (w1, None) =>
              (* Check that the save path doesn't exist. *)
              match saveDir w1 with
              | Present => (w1, Some (Errorf "%s already exists" [ArgS savePath]))
              | Inaccessible => (w1, Some (ErrSys "open" savePath))
              | Absent => saveAll env savePath rank mods w1
              end
          end
      end
  end.

End main.

(** ** The save command that reads the license csv (package cmd) *)

(** The line feed written as \n in the format strings of the source. *)
Definition nl : string := String "010"%char EmptyString.

(** How a call leaves: it returns its error result, or it ends the process
    (os.Exit, klog.Exit, klog.Fatal) after reporting [err]. *)
Inductive outcome :=
| Return (err : option error)
| Exit (status : Z) (err : error).

Module cmd.

Definition defaultLicenseSubPath : string := "licenses.txt".
Definition defaultSrcPath : string := "src".
Definition permDirCurrentUser : Z := 448.   (* 0700 *)
Definition permFileCurrentUser : Z := 384.  (* 0600 *)

(** license compliance requirement type *)
Inductive ComplianceReq :=
| Unknown              (* We do not allow unknown licenses. *)
| RedistributeSource   (* the entire source directory is redistributed *)
| RedistributeNotice.  (* full text license and copyright notice *)

(** The license type of one SPDX ID: licenseclassifier.LicenseType, then
    every override with this SPDX ID in turn, so that the last one wins. *)
Fixpoint applyOverrides (overrides : list config.TypeOverride) (spdxId : string)
    (licenseType : string) : string :=
  match overrides with
  | [] => licenseType
  | override :: rest =>
      applyOverrides rest spdxId
        (if String.eqb (config.SpdxId override) spdxId
         then config.Type_ override else licenseType)
  end.

Definition licenseTypeOf (env : Env) (cfg : config.LicensesConfig) (spdxId : string)
    : string :=
  applyOverrides (config.Overrides cfg) spdxId (LicenseType env spdxId).

Definition needsSource (licenseType : string) : bool :=
  String.eqb licenseType "restricted" || String.eqb licenseType "reciprocal".

Definition needsNotice (licenseType : string) : bool :=
  String.eqb licenseType "notice" || String.eqb licenseType "permissive"
  || String.eqb licenseType "unencumbered".

(** The loop of requirementType over the parts of the license. *)
Fixpoint requirementLoop (env : Env) (cfg : config.LicensesConfig) (license : string)
    (parts : list string) (requirement : ComplianceReq)
    : ComplianceReq * option error :=
  match parts with
  | [] => (requirement, None)
  | part :: rest =>
      let spdxId := TrimSpace part in
      if String.eqb spdxId "" then
        (Unknown, Some (Errorf "Empty SPDX ID in %q" [ArgS license]))
      else
        let licenseType := licenseTypeOf env cfg spdxId in
        if needsSource licenseType then
          requirementLoop env cfg license rest RedistributeSource
        else if needsNotice licenseType then
          requirementLoop env cfg license rest requirement
        else
          (* Any unknown license type is not allowed, so we return unknown. *)
          (Unknown, None)
  end.

(** Determines compliance requirement type of a license. *)
Definition requirementType (env : Env) (license : string) (cfg : config.LicensesConfig)
    : ComplianceReq * option error :=
  requirementLoop env cfg license (Split license "/") RedistributeNotice.

Definition copySrc (env : Env) (src dest : string) (w : World) : World * option error :=
  copy.Copy env src dest
    {| copy.AddPermission := permFileCurrentUser;
       copy.Skip := fun src => Ok (HasSuffix src ".git") |} w.

(** The four calls of mustWrite for one record; a failed write ends the
    process. *)
Definition writeLicense (env : Env) (licensePath : string) (record : dict.LicenseRecord)
    (licenseContent : string) (w : World) : World * option error :=
  match WriteErr env licensePath with
  | Some err => (w, Some (Wrapf "Failed to write license to %q: %w" [ArgS licensePath] err))
  | None =>
      let w := emit (EvWrite licensePath
                       ("============= " +:+ dict.Module record +:+ " =============" +:+ nl)) w in
      let w := emit (EvWrite licensePath (dict.DownaloadUrl record +:+ nl +:+ nl)) w in
      let w := emit (EvWrite licensePath licenseContent) w in
      let w := emit (EvWrite licensePath (nl +:+ nl)) w in
      (w, None)
  end.

(** How the body of the loop over the records ends. *)
Inductive step :=
| Next (bad : list dict.LicenseRecord)   (* on to the next record *)
| Stop (out : outcome).                  (* return or exit *)

(** The body of the loop of complyWithLicenses for one record. *)
Definition complyRecord (env : Env) (cfg : config.GoModLicensesConfig)
    (moduleDict : gmap string gocli.Module) (licensePath srcPath : string)
    (record : dict.LicenseRecord) (bad : list dict.LicenseRecord) (w : World)
    : World * step :=
  match requirementType env (dict.Type_ record) (config.Licenses cfg) with
  | (_, Some err) =>
      (w, Stop (Return (Some
         (Wrapf "%s: license=%q: %w" [ArgS (dict.Module record); ArgS (dict.Type_ record)] err))))
  | (reqType, None) =>
      let '(w1, r) :=
        match reqType with
        | RedistributeSource =>
            (* Copy the entire source directory for the library. *)
            match moduleDict !! dict.Module record with
            | None =>
                (w, Err (Errorf "%s: Cannot find module in `go list -m all`"
                           [ArgS (dict.Module record)]))
            | Some moduleRecord =>
                if String.eqb (gocli.Dir moduleRecord) "" then
                  (w, Err (Errorf
                     "%s: Module Dir is empty in `go list -m -json %s`. Please run `go mod download` before running `go-licenses save`."
                     [ArgS (dict.Module record); ArgS (dict.Module record)]))
                else
                  match copySrc env (gocli.Dir moduleRecord)
                          (Join srcPath (dict.Module record)) w with
                  | (w', Some err) =>
                      (w', Err (Wrapf "%s: Failed to copy source dir from %s to %s"
                                  [ArgS (dict.Module record);
                                   ArgS (gocli.Dir moduleRecord); ArgS srcPath] err))
                  | (w', None) => (w', Ok bad)
                  end
            end
        | RedistributeNotice => (w, Ok bad)     (* No special handling. *)
        | Unknown => (w, Ok (bad ++ [record]))
        end in
      match r with
      | Err err => (w1, Stop (Return (Some err)))
      | Ok bad' =>
          if 0 <? length bad' then
            (* if we find bad licenses, we only need to report them *)
            (w1, Next bad')
          else
            match SmartDownload env (dict.DownaloadUrl record) with
            | Err err =>
                (w1, Stop (Return (Some (Wrapf "%s" [ArgS (dict.Module record)] err))))
            | Ok licenseContent =>
                match writeLicense env licensePath record licenseContent w1 with
                | (w2, Some err) => (w2, Stop (Exit 1 err))
                | (w2, None) =>
                    (emit (EvLog Info "%s: Downloaded %s"
                             [dict.Module record; dict.DownaloadUrl record]) w2,
                     Next bad')
                end
            end
      end
  end.

(** The loop of complyWithLicenses over the records. *)
Fixpoint complyLoop (env : Env) (cfg : config.GoModLicensesConfig)
    (moduleDict : gmap string gocli.Module) (licensePath srcPath : string)
    (info : list dict.LicenseRecord) (bad : list dict.LicenseRecord) (w : World)
    : World * step :=
  match info with
  | [] => (w, Next bad)
  | record :: rest =>
      match complyRecord env cfg moduleDict licensePath srcPath record bad w with
      | (w', Stop out) => (w', Stop out)
      | (w', Next bad') => complyLoop env cfg moduleDict licensePath srcPath rest bad' w'
      end
  end.

(** The report of the modules with bad licenses, one log entry each. *)
Fixpoint logBadLicenses (bad : list dict.LicenseRecord) (w : World) : World :=
  match bad with
  | [] => w
  | module :: rest =>
      logBadLicenses rest
        (emit (EvLog Error "unknown license type" [dict.Module module; dict.Type_ module]) w)
  end.

(** What complyWithLicenses does after the loop. *)
Definition finish (env : Env) (bad : list dict.LicenseRecord) (w : World)
    : World * outcome :=
  if 0 <? length bad then
    (logBadLicenses bad w,
     Return (Some (Errorf "%v modules has rejected licenses" [ArgN (length bad)])))
  else
    match FlushErr env with
    | Some err => (w, Return (Some (Wrapf "Failed to flush" [] err)))
    | None => (w, Return None)
    end.

(** What is created at the save path before the loop. *)
Definition created (e : Event) (w : World) : World :=
  {| saveDir := Present; trace := trace w ++ [e] |}.

Definition complyWithLicenses (env : Env) (info : list dict.LicenseRecord)
    (cfg : config.GoModLicensesConfig) (savePath : string) (w : World)
    : World * outcome :=
  let noticesPath := savePath in
  let licensePath := Join noticesPath defaultLicenseSubPath in
  let srcPath := Join noticesPath defaultSrcPath in
  match ListModules env with
  | Err err => (w, Return (Some (Wrapf "Failed to list modules" [] err)))
  | Ok modules =>
      let moduleDict := BuildModuleDict env modules in
      match RemoveAll env srcPath w with
      | (w, Some err) =>
          (w, Return (Some (Wrapf "Failed to remove all in %s" [ArgS srcPath] err)))
      | (w, None) =>
          match MkdirAllErr env (GoStrings.Dir licensePath) with
          | Some err =>
              (w, Return (Some (Wrapf "Failed to mkdir %s"
                                  [ArgS (GoStrings.Dir licensePath)] err)))
          | None =>
              let w := created (EvMkdirAll (GoStrings.Dir licensePath) permDirCurrentUser) w in
              match CreateErr env licensePath with
              | Some err =>
                  (w, Return (Some (Wrapf "Failed to create %s" [ArgS licensePath] err)))
              | None =>
                  let w := created (EvCreate licensePath) w in
                  match complyLoop env cfg moduleDict licensePath srcPath info [] w with
                  | (w', Stop out) => (w', out)
                  | (w', Next bad) => finish env bad w'
                  end
              end
          end
      end
  end.

Definition loadInfo (env : Env) (path : string) : result (list dict.LicenseRecord) :=
  match ReadFile env path with
  | Err err => Err (Wrapf "Failed to read license info, path=%q: %w" [ArgS path] err)
  | Ok content => LoadLicenseRecords env content
  end.

(** The Run function of saveCmd, with the flags save_path and force as
    arguments. *)
Definition saveCmdRun (env : Env) (savePath : string) (overwriteSavePath : bool)
    (csvPath : string) (w : World) : World * outcome :=
  match LoadConfig env with
  | Err err => (emit (EvLog Error "Failed: load config" []) w, Exit 1 err)
  | Ok cfg =>
      match loadInfo env csvPath with
      | Err err => (emit (EvLog Error "Failed: load license info csv" []) w, Exit 1 err)
      | Ok info =>
          match
            (if overwriteSavePath then
               match RemoveAll env savePath w with
               | (w', Some err) => (w', Some err)
               | (w', None) => (removed w', None)
               end
             else (w, None))
          with
          | (w1, Some err) => (w1, Exit 255 err)      (* klog.Fatal *)
          | (w1, None) =>
              (* Check that the save path doesn't exist. *)
              match saveDir w1 with
              | Present => (w1, Exit 255 (Errorf "%s already exists" [ArgS savePath]))
              | Inaccessible => (w1, Exit 255 (ErrSys "open" savePath))
              | Absent =>
                  match complyWithLicenses env info cfg savePath w1 with
                  | (w2, Return (Some err)) =>
                      (emit (EvLog Error "Failed: comply with licenses" []) w2, Exit 1 err)
                  | (w2, out) => (w2, out)
                  end
              end
          end
      end
  end.

End cmd.

(** ** The csv command (package main) *)

Module csv.

(** One line of the output: fmt.Sprintf("%s, %s, %s\n", ...). *)
Definition row (name url license : string) : string :=
  name +:+ ", " +:+ url +:+ ", " +:+ license +:+ nl.

Definition stdout : string := "/dev/stdout".

(** os.Stdout.WriteString *)
Definition WriteString (env : Env) (text : string) (w : World) : World * option error :=
  match WriteErr env stdout with
  | Some err => (w, Some err)
  | None => (emit (EvWrite stdout text) w, None)
  end.

(** csvMain of csv.go: one line per library.  The three fields of the line
    of one library, with the log entries made on the way. *)
Definition libraryFields (env : Env) (lib : licensesLib.Library) (w : World)
    : World * (string * string * string) :=
  let m := licensesLib.Module lib in
  let '(ver, w) :=
    if String.eqb (gocli.Version m) ""
    then ("master", emit (EvLog Warning licenses2.emptyVersionWarning [gocli.Path m]) w)
    else (gocli.Version m, w) in
  let '(remote, w) :=
    match ModuleInfo env (gocli.Path m) ver with
    | Err err =>
        (* Do not exit early, because URL is optional *)
        (None, emit (EvLog Warning "finding module info for %s: %s" [gocli.Path m]) w)
    | Ok remote => (Some remote, w)
    end in
  if String.eqb (licensesLib.LicensePath lib) "" then
    (w, (licensesLib.Name lib, "Unknown", "Unknown"))
  else
    let '(licenseName, w) :=
      match Identify env (licensesLib.LicensePath lib) with
      | Err err =>
          ("Unknown",
           emit (EvLog Error "Error identifying license in %q: %v" [licensesLib.LicensePath lib]) w)
      | Ok (licenseName, _) => (licenseName, w)
      end in
    let '(licenseRelativePath, w) :=
      match Rel env (gocli.Dir m) (licensesLib.LicensePath lib) with
      | Err err =>
          ("",
           emit (EvLog Error "Error converting license path %q to module %s relative path: %v"
                   [licensesLib.LicensePath lib; gocli.Path m]) w)
      | Ok rel => (rel, w)
      end in
    let licenseURL := source.FileURL remote licenseRelativePath in
    let licenseURL := if String.eqb licenseURL "" then "Unknown" else licenseURL in
    (w, (licensesLib.Name lib, licenseURL, licenseName)).

Fixpoint printLibraries (env : Env) (libs : list licensesLib.Library) (w : World)
    : World * option error :=
  match libs with
  | [] => (w, None)
  | lib :: rest =>
      let '(w, (name, licenseURL, licenseName)) := libraryFields env lib w in
      match WriteString env (row name licenseURL licenseName) w with
      | (w', Some err) => (w', Some err)
      | (w', None) => printLibraries env rest w'
      end
  end.

(** csvMain, csv.go. *)
Definition csvMain (env : Env) (args : list string) (w : World) : World * option error :=
  match NewClassifierErr env with
  | Some err => (w, Some err)
  | None =>
      match Libraries env args with
      | Err err => (w, Some err)
      | Ok libs => printLibraries env libs w
      end
  end.

(** The other revision of csvMain: one line per license of each module. *)
Fixpoint printLicenses (env : Env) (modPath : string) (lics : list License) (w : World)
    : World * option error :=
  match lics with
  | [] => (w, None)
  | license :: rest =>
      match WriteString env (row modPath (URL license) (ID license)) w with
      | (w', Some err) => (w', Some err)
      | (w', None) => printLicenses env modPath rest w'
      end
  end.

Fixpoint printModules (env : Env) (mods : list licenses.Module) (w : World)
    : World * option error :=
  match mods with
  | [] => (w, None)
  | m :: rest =>
      match printLicenses env (gocli.Path (Mod m)) (Licenses m) w with
      | (w', Some err) => (w', Some err)
      | (w', None) => printModules env rest w'
      end
  end.

Definition csvMainModules (env : Env) (args : list string) (w : World)
    : World * option error :=
  match NewClassifierErr env with
  | Some err => (w, Some err)
  | None =>
      match licenses2.Modules env args w with
      | (_, Some err, w') => (w', Some err)
      | (mods, None, w') => printModules env mods w'
      end
  end.

End csv.

(** ** The statements of the specification, as definitions *)

Module Spec.

Import cmd.

(** The compliance requirement of one identifier of a license expression,
    mapped on its own. *)
Definition partReq (env : Env) (cfg : config.LicensesConfig) (part : string)
    : ComplianceReq :=
  let licenseType := licenseTypeOf env cfg (TrimSpace part) in
  if needsSource licenseType then RedistributeSource
  else if needsNotice licenseType then RedistributeNotice
  else Unknown.

(** Notice redistribution is the least strict requirement, rejection as
    unknown the strictest. *)
Definition reqRank (r : ComplianceReq) : nat :=
  match r with
  | RedistributeNotice => 0
  | RedistributeSource => 1
  | Unknown => 2
  end.

Definition isUnknown (r : ComplianceReq) : bool :=
  match r with Unknown => true | _ => false end.

Definition isSource (r : ComplianceReq) : bool :=
  match r with RedistributeSource => true | _ => false end.

(** The strictest of a list of requirements. *)
Definition strictestReq (reqs : list ComplianceReq) : ComplianceReq :=
  if existsb isUnknown reqs then Unknown
  else if existsb isSource reqs then RedistributeSource
  else RedistributeNotice.

(** The compliance action of the dispatcher. *)
Inductive Action := Reject | NoticeOnly | FullSource.

(** The table of the dispatcher: the action for a governing family. *)
Definition actionOf (t : LType) : Action :=
  match t with
  | Unencumbered | Permissive | Notice => NoticeOnly
  | Reciprocal | Restricted => FullSource
  | licenses.Unknown | Forbidden => Reject
  end.


(** An error that comes from the OS or from a package outside the
    repository. *)
Definition sysErr (e : error) : Prop := ∃ op p, e = ErrSys op p.

(** The errors that walk passes on. *)
Definition walkErr (e : error) : Prop := e = SkipDir ∨ sysErr e.

(** [relErrors env]: filepath.Rel fails with errors of its own only. *)
Definition relErrors (env : Env) : Prop :=
  ∀ base target e, Rel env base target = Err e → sysErr e.

(** The version used to resolve the remote repository of a module. *)
Definition remoteVersion (m : gocli.Module) : string :=
  if String.eqb (gocli.Version m) "" then "master" else gocli.Version m.

(** The error of a failed scan of the module [m] with cause [cause]. *)
Definition scanError (m : gocli.Module) (cause : error) : error :=
  Wrapf "scanning licenses for module %q: %w" [ArgS (gocli.Path m)] cause.

(** The texts written to stdout by the events [evs], in order. *)
Fixpoint outputOf (evs : list Event) : list string :=
  match evs with
  | [] => []
  | EvWrite file text :: rest =>
      if String.eqb file csv.stdout then text :: outputOf rest else outputOf rest
  | _ :: rest => outputOf rest
  end.

(** The three fields csvMain (csv.go) prints for a library. *)
Definition fieldsOf (env : Env) (lib : licensesLib.Library) : string * string * string :=
  (csv.libraryFields env lib {| saveDir := Absent; trace := [] |}).2.

(** Three fields joined by the separator ", " and ended by a line feed. *)
Definition joinFields (a b c : string) : string :=
  String.concat ", " [a; b; c] +:+ nl.

(** [recorded bad x]: the module [x] is in the map of bad licenses. *)
Definition recorded (bad : gmap LType (list licenses.Module)) (x : licenses.Module) : Prop :=
  ∃ t ms, bad !! t = Some ms ∧ In x ms.

(** [reported w err c]: the component [c] is named by the returned error
    or by an error entry of the log. *)
Definition logNames (component : string) (e : Event) : bool :=
  match e with
  | EvLog Error _ args => existsb (String.eqb component) args
  | _ => false
  end.

Definition reported (w : World) (err : error) (component : string) : bool :=
  names err component || existsb (logNames component) (trace w).

End Spec.

(** ** A small run, used to evaluate the definitions *)

Module Fixture.

(** Three dependencies: lib-a with an MIT license and a NOTICE file, lib-b
    under the GPL, whose directory is missing on disk, and lib-c. *)
Definition libA : gocli.Module :=
  {| gocli.Path := "lib-a"; gocli.Dir := "/mod/lib-a"; gocli.Version := "v1.0.0" |}.
Definition libB : gocli.Module :=
  {| gocli.Path := "lib-b"; gocli.Dir := "/mod/lib-b"; gocli.Version := "v2.1.0" |}.
Definition libC : gocli.Module :=
  {| gocli.Path := "lib-c"; gocli.Dir := "/mod/lib-c"; gocli.Version := "" |}.

Definition treeA : node :=
  Dir "lib-a" 365
    [ Dir ".git" 493 [File "config" 420];
      File "LICENSE" 292;
      File "NOTICE" 292;
      File "a.go" 292;
      File "repo.git" 292;
      Dir "sub" 365 [File "LICENSE.txt" 292; File "b.go" 292] ].

Definition treeC : node :=
  Dir "lib-c" 365 [File "LICENSE" 292; DirUnreadable "private" 0].

Definition lstat (path : string) : option node :=
  if String.eqb path "/mod/lib-a" then Some treeA
  else if String.eqb path "/mod/lib-a/LICENSE" then Some (File "LICENSE" 292)
  else if String.eqb path "/mod/lib-a/NOTICE" then Some (File "NOTICE" 292)
  else if String.eqb path "/mod/lib-c" then Some treeC
  else if String.eqb path "/mod/lib-c/LICENSE" then Some (File "LICENSE" 292)
  else None.

(** filepath.Rel for a target below the base. *)
Fixpoint stripPrefix (base target : string) : option string :=
  match base, target with
  | EmptyString, _ => Some target
  | String a base', String b target' =>
      if Ascii.eqb a b then stripPrefix base' target' else None
  | String _ _, EmptyString => None
  end.

Definition rel (base target : string) : result string :=
  match stripPrefix base target with
  | Some EmptyString => Ok "."
  | Some (String "/" rest) => Ok rest
  | _ => Err (ErrSys "Rel" target)
  end.

Definition mitLicense (path url : string) : License :=
  {| ID := "MIT"; Path := path; URL := url; Type_ := Notice |}.

Definition scanned (m : gocli.Module) : result licenses.Module :=
  if String.eqb (gocli.Path m) "lib-a" then
    Ok {| Mod := m; Licenses := [ {| ID := "Proprietary"; Path := "LICENSE";
                                      URL := ""; Type_ := Forbidden |} ] |}
  else if String.eqb (gocli.Path m) "lib-b" then
    Ok {| Mod := m; Licenses := [ {| ID := "GPL-3.0"; Path := "LICENSE";
                                      URL := ""; Type_ := Restricted |} ] |}
  else
    Ok {| Mod := m; Licenses := [ mitLicense "LICENSE" "" ] |}.

Definition identify (path : string) : result (string * LType) :=
  if HasSuffix path "/LICENSE" then Ok ("MIT", Notice)
  else Err (ErrSys "identify" path).

Definition licenseType (spdxId : string) : string :=
  if String.eqb spdxId "MIT" then "notice"
  else if String.eqb spdxId "Apache-2.0" then "notice"
  else if String.eqb spdxId "GPL-3.0" then "restricted"
  else if String.eqb spdxId "MPL-2.0" then "reciprocal"
  else "".

Definition moduleDictOf (modules : list gocli.Module) : gmap string gocli.Module :=
  list_to_map (map (fun m => (gocli.Path m, m)) modules).

Definition cfg : config.GoModLicensesConfig :=
  {| config.Licenses := {| config.Overrides := [] |} |}.

(** Nothing fails but what the file system above makes fail; every remote
    repository is found, and it has a URL for every file unless
    [noURL] is set. *)
Definition env (remoteFails noURL : bool) : Env :=
  {| Lstat := lstat;
     Rel := rel;
     RemoveAllErr := fun _ => None;
     MkdirAllErr := fun _ => None;
     CreateErr := fun _ => None;
     WriteErr := fun _ => None;
     FlushErr := None;
     CopyErr := fun _ _ => None;
     NewClassifierErr := None;
     Identify := identify;
     licenseRegexp := fun name => HasSuffix ("/" +:+ name) "/LICENSE";
     Scan := scanned;
     Libraries := fun _ =>
       Ok [ {| licensesLib.Name := "lib-a"; licensesLib.LicensePath := "/mod/lib-a/LICENSE";
               licensesLib.Module := libA |} ];
     ListDeps := fun args =>
       match args with
       | ["lib-a"] => Ok [libA]
       | _ => Ok [libA; libB; libC]
       end;
     ListModules := Ok [libA; libB; libC];
     BuildModuleDict := moduleDictOf;
     LoadConfig := Ok cfg;
     ReadFile := fun _ => Ok "";
     LoadLicenseRecords := fun _ => Ok [];
     ModuleInfo := fun path _ =>
       if remoteFails then Err (ErrSys "ModuleInfo" path)
       else Ok {| source.fileURL := fun p =>
                    if noURL then "" else "https://example.org/" +:+ path +:+ "/" +:+ p |};
     SmartDownload := fun url => Ok ("text of " +:+ url);
     LicenseType := licenseType |}.

Definition rowA : dict.LicenseRecord :=
  {| dict.Module := "lib-a"; dict.Type_ := "Proprietary";
     dict.DownaloadUrl := "https://example.org/lib-a/LICENSE" |}.
Definition rowB : dict.LicenseRecord :=
  {| dict.Module := "lib-b"; dict.Type_ := "GPL-3.0";
     dict.DownaloadUrl := "https://example.org/lib-b/LICENSE" |}.
Definition rowC : dict.LicenseRecord :=
  {| dict.Module := "lib-c"; dict.Type_ := "MIT";
     dict.DownaloadUrl := "https://example.org/lib-c/LICENSE" |}.


(** lib-a as the scan of this run returns it. *)
Definition rejectedA : licenses.Module :=
  {| Mod := libA;
     Licenses := [ {| ID := "Proprietary"; Path := "LICENSE"; URL := ""; Type_ := Forbidden |} ] |}.

(** Two findings of one module. *)
Definition permissiveAndRestricted : list License :=
  [ {| ID := "BSD-0"; Path := "LICENSE"; URL := ""; Type_ := Permissive |};
    {| ID := "GPL-3.0"; Path := "vendor/x/COPYING"; URL := ""; Type_ := Restricted |} ].

(** The world before the run: no save path yet. *)
Definition fresh : World := {| saveDir := Absent; trace := [] |}.

(** The world before the run when the save path is already there. *)
Definition stale : World := {| saveDir := Present; trace := [] |}.

End Fixture.


(** ** deps/go_binary.go: the modules of a Go binary *)

Module deps.

(** type goModuleRef struct *)
Record goModuleRef := { ImportPath : string; Version : string }.

(** type GoModule struct, with the three fields the file sets. *)
Record GoModule := { GoImportPath : string; GoVersion : string; SrcDir : string }.

(** One entry of lichenmodule.Extract, reduced to the field ModuleRefs; a
    reference has a path and a version. *)
Record BuildInfo := { ModuleRefs : list (string * string) }.

(** goutils.Module, as far as the file reads it. *)
Record LocalModule := { Dir : string; LocalVersion : string }.

(** The functions of other packages that the file calls. *)
Record Env := {
  Extract : string → result (list BuildInfo);          (* lichenmodule.Extract *)
  ListModules : result (list LocalModule);             (* goutils.ListModules *)
  BuildModuleDict : list LocalModule → gmap string LocalModule
}.

(** The inner loop of ListModulesInGoBinary. *)
Fixpoint appendRefs (moduleRefs : list (string * string)) (refs : list goModuleRef)
    : list goModuleRef :=
  match moduleRefs with
  | [] => refs
  | ref :: rest =>
      appendRefs rest (refs ++ [{| ImportPath := ref.1; Version := ref.2 |}])
  end.

(** The outer loop, over the build infos. *)
Fixpoint collectRefs (depsBuildInfo : list BuildInfo) (refs : list goModuleRef)
    : list goModuleRef :=
  match depsBuildInfo with
  | [] => refs
  | buildInfo :: rest => collectRefs rest (appendRefs (ModuleRefs buildInfo) refs)
  end.

(** Parse dependencies from metadata in a go binary.  The deferred function
    wraps a non-nil error with the path of the binary. *)
Definition ListModulesInGoBinary (env : Env) (Path : string) : result (list goModuleRef) :=
  let wrap err := Err (Wrapf "ListModulesInGoBinary(Path='%s')" [ArgS Path] err) in
  match Extract env Path with
  | Err err => wrap err
  | Ok depsBuildInfo =>
      if negb (Nat.eqb (length depsBuildInfo) 1) then
        wrap (Errorf "len(depsBuildInfo) should be 1, but found %v"
                [ArgN (length depsBuildInfo)])
      else Ok (collectRefs depsBuildInfo [])
  end.

Definition cannotFind : string :=
  "Cannot find %v in current dir's go modules. Are you running this tool from the working dir to build the binary you are analyzing?".

Definition emptyDir : string :=
  "Module %v's local directory is empty. Did you run go mod download?".

Definition versionMismatch : string :=
  "Found %v %v in go binary, but %v is downloaded in go modules. Are you running this tool from the working dir to build the binary you are analyzing?".

(** The loop of JoinModuleRefWithLocalModules. *)
Fixpoint joinRefs (localModulesDict : gmap string LocalModule) (refs : list goModuleRef)
    (modules : list GoModule) : result (list GoModule) :=
  match refs with
  | [] => Ok modules
  | ref :: rest =>
      match localModulesDict !! ImportPath ref with
      | None => Err (Errorf cannotFind [ArgS (ImportPath ref)])
      | Some localModule =>
          if String.eqb (Dir localModule) "" then
            Err (Errorf emptyDir [ArgS (ImportPath ref)])
          else if negb (String.eqb (LocalVersion localModule) (Version ref)) then
            Err (Errorf versionMismatch
                   [ArgS (ImportPath ref); ArgS (Version ref); ArgS (LocalVersion localModule)])
          else
            joinRefs localModulesDict rest
              (modules ++ [{| GoImportPath := ImportPath ref;
                              GoVersion := Version ref;
                              SrcDir := Dir localModule |}])
      end
  end.

Definition JoinModuleRefWithLocalModules (env : Env) (refs : list goModuleRef)
    : result (list GoModule) :=
  match ListModules env with
  | Err err => Err err
  | Ok localModules => joinRefs (BuildModuleDict env localModules) refs []
  end.

End deps.

(** ** check.go: the check command *)

Module check.

Definition stderr : string := "/dev/stderr".

(** The message printed for a forbidden license, as format and arguments
    and as text. *)
Definition forbidden (modPath : string) (license : License) : error :=
  Errorf "Forbidden license type %s for library %v: %s\n"
    [ArgS (ID license); ArgS modPath; ArgS (URL license)].

Definition forbiddenText (modPath : string) (license : License) : string :=
  "Forbidden license type " +:+ ID license +:+ " for library " +:+ modPath
  +:+ ": " +:+ URL license +:+ nl.

(** The inner loop of checkMain: the first forbidden license of a module. *)
Fixpoint checkLicenses (modPath : string) (lics : list License)
    : option (string * License) :=
  match lics with
  | [] => None
  | license :: rest =>
      if decide (Type_ license = Forbidden) then Some (modPath, license)
      else checkLicenses modPath rest
  end.

(** The outer loop, over the modules. *)
Fixpoint checkModules (mods : list licenses.Module) : option (string * License) :=
  match mods with
  | [] => None
  | m :: rest =>
      match checkLicenses (gocli.Path (Mod m)) (Licenses m) with
      | Some found => Some found
      | None => checkModules rest
      end
  end.

(** checkMain: the process exits with status 1 at the first forbidden
    license. *)
Definition checkMain (env : Env) (args : list string) (w : World) : World * outcome :=
  match NewClassifierErr env with
  | Some err => (w, Return (Some err))
  | None =>
      match licenses2.Modules env args w with
      | (_, Some err, w') => (w', Return (Some err))
      | (mods, None, w') =>
          match checkModules mods with
          | Some (modPath, license) =>
              (emit (EvWrite stderr (forbiddenText modPath license)) w',
               Exit 1 (forbidden modPath license))
          | None => (w', Return None)
          end
      end
  end.

End check.

(** ** Further statements about the code, as definitions *)

Module Props.

Import cmd.

(** The texts written to [file] by the events [evs], in order. *)
Fixpoint writesTo (file : string) (evs : list Event) : list string :=
  match evs with
  | [] => []
  | EvWrite f text :: rest =>
      if String.eqb f file then text :: writesTo file rest else writesTo file rest
  | _ :: rest => writesTo file rest
  end.

(** A part of a license expression whose license type the save command
    accepts. *)
Definition recognised (env : Env) (cfg : config.LicensesConfig) (part : string) : bool :=
  needsSource (licenseTypeOf env cfg (TrimSpace part))
  || needsNotice (licenseTypeOf env cfg (TrimSpace part)).

(** A row of the csv whose license the save command rejects. *)
Definition rejectedRow (env : Env) (cfg : config.GoModLicensesConfig)
    (record : dict.LicenseRecord) : bool :=
  match requirementType env (dict.Type_ record) (config.Licenses cfg) with
  | (Unknown, _) => true
  | _ => false
  end.

(** The section of licenses.txt for a row whose license text is
    [licenseContent]. *)
Definition section (record : dict.LicenseRecord) (licenseContent : string) : list string :=
  [ "============= " +:+ dict.Module record +:+ " =============" +:+ nl;
    dict.DownaloadUrl record +:+ nl +:+ nl;
    licenseContent;
    nl +:+ nl ].


(** An entry that the walk of the scan passes over without looking inside:
    a symbolic link, and a readable directory with an ignored name. *)
Definition pruned (n : node) : bool :=
  match n with
  | Symlink _ => true
  | Dir name _ _ => index_bool ignoredDir name
  | _ => false
  end.

(** A finding of the first revision of the scan that the classifier
    vouches for. *)
Definition classified1 (env : Env) (l : licenses1.License) : Prop :=
  (∃ t, Identify env (licenses1.Path l) = Ok (licenses1.ID l, t)) ∧ licenses1.URL l = "".

(** The same for the second revision: the finding comes from a path that
    the classifier identifies, made relative to the directory of the
    module, and its URL is the one the remote repository gives. *)
Definition classified2 (env : Env) (m : gocli.Module) (remote : source.Info) (l : License)
    : Prop :=
  ∃ path, Identify env path = Ok (ID l, Type_ l) ∧
          Rel env (gocli.Dir m) path = Ok (Path l) ∧
          URL l = source.fileURL remote (Path l).

(** The warning of the scan about a module without version. *)
Definition versionWarning (e : Event) : Prop :=
  ∃ modPath, e = EvLog Warning licenses2.emptyVersionWarning [modPath].

(** A file of a directory that copyNotices copies along with a license. *)
Definition isNoticeFile (f : node) : bool :=
  negb (IsDir f) && main.noticeRegexp (Name f).

(** A string that can name an entry of a directory: not empty, not ".",
    and without a slash. *)
Fixpoint noSlash (name : string) : bool :=
  match name with
  | EmptyString => true
  | String c rest => negb (Ascii.eqb c "/") && noSlash rest
  end.

Definition entryName (name : string) : bool :=
  negb (String.eqb name "") && negb (String.eqb name ".") && noSlash name.

(** [sourceCopy src dest info created]: [created] is what a copy of the
    save commands makes at [dest] of the entry [info] found at [src].  The
    entries of a directory whose path ends with ".git" are left out with
    everything below them; every other entry is copied, in the order of the
    directory, to the path of the same name below [dest].  A copy is named
    by the last element of its path, and a copied file or directory has
    the permission bits of its source with 0600 added. *)
Inductive sourceCopy : string → string → node → node → Prop :=
| copy_file src dest name perm :
    sourceCopy src dest (File name perm) (File (Base dest) (Z.lor perm 384))
| copy_symlink src dest name :
    sourceCopy src dest (Symlink name) (Symlink (Base dest))
| copy_dir src dest name perm contents kept :
    Forall2 (fun c c' => sourceCopy (Join src (Name c)) (Join dest (Name c)) c c')
      (List.filter (fun c => negb (HasSuffix (Join src (Name c)) ".git")) contents) kept →
    sourceCopy src dest (Dir name perm contents) (Dir (Base dest) (Z.lor perm 384) kept).

(** [copyOf env src dest e]: the event [e] records the copy to [dest] of
    the entry that is at [src]. *)
Definition copyOf (env : Env) (src dest : string) (e : Event) : Prop :=
  ∃ info created,
    Lstat env src = Some info ∧ sourceCopy src dest info created ∧
    e = EvCopy src dest created.

(** [copyable src info]: the entry [info] found at [src] can be copied.
    Every directory to copy can be listed (it is readable and none of its
    entries is broken), and so for the entries of a directory, those whose
    path ends with ".git" left aside. *)
Fixpoint copyable (src : string) (info : node) {struct info} : bool :=
  match info with
  | File _ _ | Symlink _ => true
  | Dir _ _ contents =>
      negb (existsb copy.isBroken contents) &&
      forallb (fun c => HasSuffix (Join src (Name c)) ".git"
                        || copyable (Join src (Name c)) c) contents
  | DirUnreadable _ _ | Broken _ => false
  end.

(** A copy, from the first path of [p] to the second, that can be made:
    the source is there and can be copied, and nothing fails on the side
    of the destination. *)
Definition canCopy (env : Env) (p : string * string) : bool :=
  match Lstat env p.1 with
  | Some info =>
      copyable p.1 info && match CopyErr env p.1 p.2 with Some _ => false | None => true end
  | None => false
  end.







(** Every node of a tree, the root first. *)
Fixpoint allNodes (n : node) : list node :=
  n :: match n with
       | Dir _ _ entries => flat_map allNodes entries
       | _ => []
       end.

(** An entry that exists and that its user can read and write. *)
Definition userReadWrite (n : node) : Prop :=
  match n with
  | File _ perm | Dir _ perm _ => Z.land perm 384 = 384%Z
  | Symlink _ => True
  | DirUnreadable _ _ | Broken _ => False
  end.

(** A reference of a binary that matches a downloaded module. *)
Definition matches (dict : gmap string deps.LocalModule) (ref : deps.goModuleRef)
    (m : deps.GoModule) : Prop :=
  ∃ localModule,
    dict !! deps.ImportPath ref = Some localModule ∧
    deps.Dir localModule ≠ "" ∧
    deps.LocalVersion localModule = deps.Version ref ∧
    m = {| deps.GoImportPath := deps.ImportPath ref;
           deps.GoVersion := deps.Version ref;
           deps.SrcDir := deps.Dir localModule |}.

(** A module with a forbidden license. *)
Definition hasForbidden (m : licenses.Module) : Prop :=
  Exists (fun l => Type_ l = Forbidden) (Licenses m).

End Props.

(** A second small run, for the statements above. *)

Module Fixture2.

Definition overrides : config.LicensesConfig :=
  {| config.Overrides :=
       [ {| config.SpdxId := "Proprietary"; config.Type_ := "restricted" |};
         {| config.SpdxId := "MIT"; config.Type_ := "permissive" |};
         {| config.SpdxId := "Proprietary"; config.Type_ := "notice" |} ] |}.

Definition localModules : list deps.LocalModule :=
  [ {| deps.Dir := "/mod/lib-a"; deps.LocalVersion := "v1.0.0" |} ].

Definition depsEnv : deps.Env :=
  {| deps.Extract := fun path =>
       if String.eqb path "bin/tool"
       then Ok [ {| deps.ModuleRefs := [("lib-a", "v1.0.0")] |} ]
       else Err (ErrSys "Extract" path);
     deps.ListModules := Ok localModules;
     deps.BuildModuleDict := fun mods => list_to_map (map (fun m => ("lib-a", m)) mods) |}.

Definition refA : deps.goModuleRef :=
  {| deps.ImportPath := "lib-a"; deps.Version := "v1.0.0" |}.

(** The first run with other dependencies, and with a stdout that cannot be
    written when [writeFails] is set. *)
Definition envWith (mods : list gocli.Module) (writeFails : bool) : Env :=
  let e := Fixture.env false false in
  {| Lstat := Lstat e;
     Rel := Rel e;
     RemoveAllErr := RemoveAllErr e;
     MkdirAllErr := MkdirAllErr e;
     CreateErr := CreateErr e;
     WriteErr := fun file => if writeFails then Some (ErrSys "write" file) else None;
     FlushErr := FlushErr e;
     CopyErr := CopyErr e;
     NewClassifierErr := NewClassifierErr e;
     Identify := Identify e;
     licenseRegexp := licenseRegexp e;
     Scan := Scan e;
     Libraries := Libraries e;
     ListDeps := fun _ => Ok mods;
     ListModules := ListModules e;
     BuildModuleDict := BuildModuleDict e;
     LoadConfig := LoadConfig e;
     ReadFile := ReadFile e;
     LoadLicenseRecords := LoadLicenseRecords e;
     ModuleInfo := ModuleInfo e;
     SmartDownload := SmartDownload e;
     LicenseType := LicenseType e |}.

(** The first run on a file system in which every path leads to [root]. *)
Definition envAt (root : node) : Env :=
  let e := Fixture.env false false in
  {| Lstat := fun _ => Some root;
     Rel := Rel e;
     RemoveAllErr := RemoveAllErr e;
     MkdirAllErr := MkdirAllErr e;
     CreateErr := CreateErr e;
     WriteErr := WriteErr e;
     FlushErr := FlushErr e;
     CopyErr := CopyErr e;
     NewClassifierErr := NewClassifierErr e;
     Identify := Identify e;
     licenseRegexp := licenseRegexp e;
     Scan := Scan e;
     Libraries := Libraries e;
     ListDeps := ListDeps e;
     ListModules := ListModules e;
     BuildModuleDict := BuildModuleDict e;
     LoadConfig := LoadConfig e;
     ReadFile := ReadFile e;
     LoadLicenseRecords := LoadLicenseRecords e;
     ModuleInfo := ModuleInfo e;
     SmartDownload := SmartDownload e;
     LicenseType := LicenseType e |}.

(** lib-a listed with its license file as its directory. *)
Definition licenseAsDir : gocli.Module :=
  {| gocli.Path := "lib-a"; gocli.Dir := "/mod/lib-a/LICENSE"; gocli.Version := "v1.0.0" |}.

(** A numbering of the families in which Unknown and Forbidden have the
    same rank, and two findings of these types. *)
Definition tiedRank (t : LType) : nat :=
  match t with
  | Forbidden => 5
  | _ => LType_index t
  end.

Definition unknownThenForbidden : list License :=
  [ {| ID := "Unknown"; Path := "COPYING"; URL := ""; Type_ := Unknown |};
    {| ID := "Proprietary"; Path := "LICENSE"; URL := ""; Type_ := Forbidden |} ].

(** The directory of a downloaded module, named with its version. *)
Definition versioned : node :=
  Dir "lib-a@v1.0.0" 365
    [ Dir ".git" 493 [File "config" 420]; File "LICENSE" 292; File "main.go" 292 ].

(** The entries of the directory of lib-a. *)
Definition filesA : list node :=
  match Fixture.treeA with
  | Dir _ _ entries => entries
  | _ => []
  end.

End Fixture2.


(** ** Strings *)

Section Strings.

Local Arguments String.append : simpl nomatch.

Lemma string_app_assoc (a b c : string) : (a +:+ b) +:+ c = a +:+ (b +:+ c).
Proof. induction a as [|x a IH]; [reflexivity|]. simpl. f_equal. exact IH. Qed.

Lemma string_length_app (a b : string) :
  String.length (a +:+ b) = String.length a + String.length b.
Proof. induction a as [|x a IH]; [reflexivity|]. simpl. f_equal. exact IH. Qed.

Lemma substring_app_skip (p s : string) n :
  substring (String.length p) n (p +:+ s) = substring 0 n s.
Proof. induction p as [|x p IH]; [reflexivity|]. simpl. exact IH. Qed.

Lemma substring_all (s : string) : substring 0 (String.length s) s = s.
Proof. induction s as [|x s IH]; [reflexivity|]. simpl. f_equal. exact IH. Qed.

Lemma substring_split (s : string) n :
  n ≤ String.length s →
  s = substring 0 n s +:+ substring n (String.length s - n) s.
Proof.
  revert n. induction s as [|x s IH]; intros n Hn.
  - cbn in Hn. assert (n = 0) as -> by lia. reflexivity.
  - destruct n as [|n].
    + simpl. f_equal. symmetry. apply substring_all.
    + simpl. f_equal. apply IH. cbn in Hn. lia.
Qed.

(** strings.HasSuffix holds exactly of the strings that end with the
    suffix. *)
Lemma HasSuffix_iff s suffix :
  HasSuffix s suffix = true ↔ ∃ p, s = p +:+ suffix.
Proof.
  unfold HasSuffix. rewrite andb_true_iff, Nat.leb_le, String.eqb_eq. split.
  - intros [Hle Hsub]. exists (substring 0 (String.length s - String.length suffix) s).
    pose proof (substring_split s (String.length s - String.length suffix)) as Hsplit.
    replace (String.length s - (String.length s - String.length suffix))
      with (String.length suffix) in Hsplit by lia.
    rewrite Hsub in Hsplit. apply Hsplit. lia.
  - intros [p ->]. rewrite string_length_app. split; [lia|].
    replace (String.length p + String.length suffix - String.length suffix)
      with (String.length p) by lia.
    rewrite substring_app_skip. apply substring_all.
Qed.

Lemma string_app_nil_r (a : string) : a +:+ "" = a.
Proof. induction a as [|x a IH]; [reflexivity|]. simpl. f_equal. exact IH. Qed.

Lemma lastElem_noSlash name cur last :
  Props.noSlash name = true →
  lastElem name cur last = if String.eqb (cur +:+ name) "" then last else cur +:+ name.
Proof.
  revert cur. induction name as [|c name IH]; intros cur Hn; cbn [lastElem].
  - rewrite string_app_nil_r. reflexivity.
  - cbn [Props.noSlash] in Hn. apply andb_true_iff in Hn as [Hc Hn].
    apply negb_true_iff in Hc. rewrite Hc, (IH _ Hn), string_app_assoc. reflexivity.
Qed.

Lemma lastElem_after_slash dir name cur last :
  Props.noSlash name = true → name ≠ "" →
  lastElem (dir +:+ String "/" name) cur last = name.
Proof.
  intros Hn Hne. revert cur last.
  induction dir as [|c dir IH]; intros cur last.
  - change ("" +:+ String "/" name) with (String "/" name). cbn [lastElem Ascii.eqb].
    change (Ascii.eqb "/" "/") with true. cbn iota.
    rewrite (lastElem_noSlash _ _ _ Hn). change ("" +:+ name) with name.
    apply String.eqb_neq in Hne. rewrite Hne. reflexivity.
  - change (String c dir +:+ String "/" name) with (String c (dir +:+ String "/" name)).
    cbn [lastElem]. destruct (Ascii.eqb c "/"); apply IH.
Qed.

(** The last element of a path joined from a directory and the name of
    an entry is that name. *)
Lemma Base_Join dir name : Props.entryName name = true → Base (Join dir name) = name.
Proof.
  unfold Props.entryName. rewrite !andb_true_iff, !negb_true_iff.
  intros [[Hne Hdot] Hn].
  assert (Hname : name ≠ "") by (apply String.eqb_neq; exact Hne).
  assert (Hbase : ∀ path, path ≠ "" → lastElem path "" "" = name → Base path = name).
  { intros path Hp He. unfold Base. apply String.eqb_neq in Hp. rewrite Hp, He, Hne.
    reflexivity. }
  assert (Hkeep : keepElem name = true) by (unfold keepElem; rewrite Hne, Hdot; reflexivity).
  unfold Join, JoinAll. cbn [List.filter]. rewrite Hkeep.
  destruct (keepElem dir); cbn [joinSlash].
  - apply Hbase.
    + destruct dir; discriminate.
    + apply lastElem_after_slash; assumption.
  - apply Hbase; [exact Hname|].
    rewrite (lastElem_noSlash _ _ _ Hn). change ("" +:+ name) with name.
    rewrite Hne. reflexivity.
Qed.

End Strings.

Lemma Split_nonempty s sep : Split s sep ≠ [].
Proof.
  induction s as [|c s IH]; simpl; [discriminate|].
  destruct (Ascii.eqb c sep); [discriminate|].
  destruct (Split s sep); discriminate.
Qed.

(** ** Alternative licenses: requirementType *)

Section RequirementType.

Import cmd Spec.

Variable env : Env.
Variable cfg : config.LicensesConfig.

Lemma requirementLoop_spec license parts requirement :
  Forall (fun part => TrimSpace part ≠ "") parts →
  requirement ≠ Unknown →
  requirementLoop env cfg license parts requirement =
    (strictestReq (requirement :: map (partReq env cfg) parts), None).
Proof.
  intros Hparts. revert requirement.
  induction Hparts as [|part rest Hne _ IH]; intros requirement Hreq.
  - destruct requirement; [congruence|reflexivity..].
  - cbn [requirementLoop map].
    destruct (String.eqb_spec (TrimSpace part) "") as [E|_]; [contradiction|].
    unfold partReq at 1.
    destruct (needsSource (licenseTypeOf env cfg (TrimSpace part))) eqn:Hs.
    + rewrite IH by discriminate.
      destruct requirement; [congruence|..]; unfold strictestReq; cbn;
        destruct (existsb isUnknown (map (partReq env cfg) rest)); reflexivity.
    + destruct (needsNotice (licenseTypeOf env cfg (TrimSpace part))) eqn:Hn.
      * rewrite IH by assumption.
        destruct requirement; [congruence|reflexivity..].
      * destruct requirement; [congruence|reflexivity..].
Qed.

Lemma strictestReq_In reqs : reqs ≠ [] → In (strictestReq reqs) reqs.
Proof.
  intros Hne. unfold strictestReq.
  destruct (existsb isUnknown reqs) eqn:Hu.
  - apply existsb_exists in Hu as ([] & Hin & Hx); try discriminate. exact Hin.
  - destruct (existsb isSource reqs) eqn:Hs.
    + apply existsb_exists in Hs as ([] & Hin & Hx); try discriminate. exact Hin.
    + destruct reqs as [|r reqs]; [congruence|].
      cbn in Hu, Hs. apply orb_false_iff in Hu as [Hu _], Hs as [Hs _].
      destruct r; try discriminate. left; reflexivity.
Qed.

Lemma strictestReq_upper reqs :
  Forall (fun q => reqRank q ≤ reqRank (strictestReq reqs)) reqs.
Proof.
  apply List.Forall_forall. intros q Hq. unfold strictestReq.
  destruct (existsb isUnknown reqs) eqn:Hu.
  - destruct q; cbn; lia.
  - destruct (existsb isSource reqs) eqn:Hs.
    + destruct q; cbn; try lia.
      assert (existsb isUnknown reqs = true) by (apply existsb_exists; eauto).
      congruence.
    + destruct q; cbn; try lia.
      * assert (existsb isUnknown reqs = true) by (apply existsb_exists; eauto).
        congruence.
      * assert (existsb isSource reqs = true) by (apply existsb_exists; eauto).
        congruence.
Qed.

(** C8: for a license expression whose "/"-separated identifiers are all
    non-empty after trimming, requirementType maps every identifier on its
    own and returns, without error, the strictest of the resulting
    requirements: Unknown when some identifier has an unrecognized license
    type, otherwise source redistribution when some identifier is
    restricted or reciprocal, otherwise notice redistribution. *)
Theorem requirementType_strictest license :
  let reqs := map (partReq env cfg) (Split license "/") in
  Forall (fun part => TrimSpace part ≠ "") (Split license "/") →
  requirementType env license cfg = (strictestReq reqs, None) ∧
  In (strictestReq reqs) reqs ∧
  Forall (fun q => reqRank q ≤ reqRank (strictestReq reqs)) reqs ∧
  (strictestReq reqs = Unknown ↔
     Exists (fun part =>
               needsSource (licenseTypeOf env cfg (TrimSpace part)) = false ∧
               needsNotice (licenseTypeOf env cfg (TrimSpace part)) = false)
            (Split license "/")) ∧
  (strictestReq reqs = RedistributeNotice ↔
     Forall (fun part =>
               needsSource (licenseTypeOf env cfg (TrimSpace part)) = false ∧
               needsNotice (licenseTypeOf env cfg (TrimSpace part)) = true)
            (Split license "/")).
Proof.
  intros reqs Hparts. split; [|split; [|split; [|split]]].
  - unfold requirementType. rewrite requirementLoop_spec by (assumption || discriminate).
    reflexivity.
  - apply strictestReq_In. subst reqs.
    pose proof (Split_nonempty license "/"). destruct (Split license "/"); [congruence|discriminate].
  - apply strictestReq_upper.
  - subst reqs. unfold strictestReq. rewrite List.Exists_exists.
    destruct (existsb isUnknown (map (partReq env cfg) (Split license "/"))) eqn:Hu.
    + split; [intros _|reflexivity].
      apply existsb_exists in Hu as (r & Hin & Hr).
      apply in_map_iff in Hin as (part & <- & Hin).
      exists part. split; [exact Hin|]. unfold partReq in Hr.
      destruct (needsSource _); [discriminate|].
      destruct (needsNotice _); [discriminate|]. split; reflexivity.
    + split.
      * destruct (existsb isSource _); discriminate.
      * intros (part & Hin & Hs & Hn).
        assert (existsb isUnknown (map (partReq env cfg) (Split license "/")) = true).
        { apply existsb_exists. exists (partReq env cfg part). split.
          - apply in_map. exact Hin.
          - unfold partReq. rewrite Hs, Hn. reflexivity. }
        congruence.
  - subst reqs. unfold strictestReq. rewrite List.Forall_forall.
    destruct (existsb isUnknown (map (partReq env cfg) (Split license "/"))) eqn:Hu.
    + split; [discriminate|]. intros Hall.
      apply existsb_exists in Hu as (r & Hin & Hr).
      apply in_map_iff in Hin as (part & <- & Hin).
      destruct (Hall part Hin) as [Hs Hn]. unfold partReq in Hr. rewrite Hs, Hn in Hr.
      discriminate.
    + destruct (existsb isSource (map (partReq env cfg) (Split license "/"))) eqn:Hs.
      * split; [discriminate|]. intros Hall.
        apply existsb_exists in Hs as (r & Hin & Hr).
        apply in_map_iff in Hin as (part & <- & Hin).
        destruct (Hall part Hin) as [Hs' Hn]. unfold partReq in Hr. rewrite Hs', Hn in Hr.
        discriminate.
      * split; [intros _|reflexivity]. intros part Hin.
        assert (Hnu : isUnknown (partReq env cfg part) = false).
        { destruct (isUnknown (partReq env cfg part)) eqn:E; [|reflexivity].
          assert (existsb isUnknown (map (partReq env cfg) (Split license "/")) = true)
            by (apply existsb_exists; eauto using in_map). congruence. }
        assert (Hns : isSource (partReq env cfg part) = false).
        { destruct (isSource (partReq env cfg part)) eqn:E; [|reflexivity].
          assert (existsb isSource (map (partReq env cfg) (Split license "/")) = true)
            by (apply existsb_exists; eauto using in_map). congruence. }
        unfold partReq in Hnu, Hns.
        destruct (needsSource _); [discriminate|].
        destruct (needsNotice _); [split; reflexivity|discriminate].
Qed.

End RequirementType.

(** ** Strictness resolution *)

Section Strictness.

Import main.

Variable rank : LType → nat.
Hypothesis rank_order : FamilyOrder rank.

Lemma rank_least t : rank Unencumbered ≤ rank t.
Proof. unfold FamilyOrder in rank_order. destruct t; lia. Qed.

Lemma rank_inj a b : rank a = rank b → a = b.
Proof. unfold FamilyOrder in rank_order. destruct a, b; intros; try reflexivity; lia. Qed.

(** The accumulator never decreases, the result bounds every license type
    met, and it is the initial accumulator or one of the types met. *)
Lemma strictest_inv lics acc :
  rank acc ≤ rank (strictest rank lics acc) ∧
  Forall (fun l => rank (Type_ l) ≤ rank (strictest rank lics acc)) lics ∧
  (strictest rank lics acc = acc ∨ In (strictest rank lics acc) (map Type_ lics)).
Proof.
  revert acc. induction lics as [|l rest IH]; intros acc; cbn [strictest map].
  - repeat split; [lia|constructor|left; reflexivity].
  - unfold Stricter. destruct (Nat.ltb_spec (rank acc) (rank (Type_ l))) as [Hlt|Hge].
    + destruct (IH (Type_ l)) as (Hacc & Hall & Hin).
      split; [lia|]. split; [constructor; assumption|].
      right. destruct Hin as [->|Hin]; [left; reflexivity|right; exact Hin].
    + destruct (IH acc) as (Hacc & Hall & Hin).
      split; [exact Hacc|]. split; [constructor; [lia|assumption]|].
      destruct Hin as [Hin|Hin]; [left; exact Hin|right; right; exact Hin].
Qed.

(** C1: for a non-empty list of findings, the governing license type
    computed by the loop of saveMain is the maximum of the findings' types
    in the order of the license families: it is the type of one of the
    findings, no finding has a type of higher rank, and a finding of the
    same rank has that very type.  The loop starts from Unencumbered and
    replaces the accumulator by the type of a finding exactly when that
    type has a strictly higher rank. *)
Theorem governingType_is_maximum (lics : list License) :
  lics ≠ [] →
  In (governingType rank lics) (map Type_ lics) ∧
  Forall (fun l => rank (Type_ l) ≤ rank (governingType rank lics)) lics ∧
  (∀ l, In l lics → rank (Type_ l) = rank (governingType rank lics) →
        Type_ l = governingType rank lics) ∧
  governingType rank lics = strictest rank lics Unencumbered ∧
  (∀ l rest acc,
     strictest rank (l :: rest) acc =
       strictest rank rest (if rank acc <? rank (Type_ l) then Type_ l else acc)).
Proof.
  intros Hne. unfold governingType.
  destruct (strictest_inv lics Unencumbered) as (_ & Hall & Hin).
  split; [|split; [exact Hall|split; [intros l _; apply rank_inj|split; reflexivity]]].
  destruct Hin as [Heq|Hin]; [|exact Hin].
  destruct lics as [|l rest]; [congruence|].
  rewrite Heq in *. left.
  apply rank_inj. inversion Hall; subst. pose proof (rank_least (Type_ l)). lia.
Qed.

End Strictness.

(** ** The copy of a source tree *)

Section Trees.

(** Induction on file trees, with the hypothesis for every entry of a
    directory. *)
Lemma node_induction (P : node → Prop) :
  (∀ name perm, P (File name perm)) →
  (∀ name, P (Symlink name)) →
  (∀ name perm entries, Forall P entries → P (Dir name perm entries)) →
  (∀ name perm, P (DirUnreadable name perm)) →
  (∀ name, P (Broken name)) →
  ∀ n, P n.
Proof.
  intros HF HS HD HU HB. fix IH 1. intros [name perm|name|name perm entries|name perm|name].
  - apply HF.
  - apply HS.
  - apply HD. induction entries as [|e entries IHe]; constructor; [apply IH|exact IHe].
  - apply HU.
  - apply HB.
Qed.

End Trees.

Section CopySource.

Import Props.

Lemma perm_added (perm : Z) :
  Z.land (Z.lor perm 384) 384 = 384%Z ∧ Z.land (Z.lor perm 384) perm = perm.
Proof.
  split; apply Z.bits_inj'; intros n _; rewrite Z.land_spec, Z.lor_spec;
    destruct (Z.testbit perm n), (Z.testbit 384 n); reflexivity.
Qed.

(** The loop of the directory copy keeps, in order, the entries whose path
    does not end with ".git". *)
Lemma dcopy_kept (R : string → string → node → node → Prop) src dest contents created :
  Forall (fun c => ∀ src' dest' c',
            copy.switchboard main.copyOpt src' dest' c = Ok c' → R src' dest' c c') contents →
  copy.dcopy main.copyOpt (copy.switchboard main.copyOpt) src dest contents = Ok created →
  Forall2 (fun c c' => R (Join src (Name c)) (Join dest (Name c)) c c')
    (List.filter (fun c => negb (HasSuffix (Join src (Name c)) ".git")) contents)
    created.
Proof.
  intros Hall. revert created.
  induction Hall as [|c rest Hc _ IH]; intros created H; cbn in H.
  - injection H as <-. constructor.
  - cbn [List.filter]. destruct (HasSuffix (Join src (Name c)) ".git") eqn:Hs; cbn [negb].
    + apply IH. exact H.
    + destruct (copy.switchboard main.copyOpt (Join src (Name c)) (Join dest (Name c)) c)
        as [c'|e] eqn:Hcopy; [|discriminate].
      destruct (copy.dcopy main.copyOpt (copy.switchboard main.copyOpt) src dest rest)
        as [others|e] eqn:Hr; [|discriminate].
      injection H as <-. constructor; [apply Hc; exact Hcopy|apply IH; reflexivity].
Qed.

(** What switchboard creates is the source copy of the entry. *)
Lemma switchboard_sourceCopy src dest info created :
  copy.switchboard main.copyOpt src dest info = Ok created →
  sourceCopy src dest info created.
Proof.
  revert src dest created.
  induction info as [name perm|name|name perm entries IH|name perm|name]
    using node_induction; intros src dest created H; cbn [copy.switchboard] in H;
    try discriminate.
  - injection H as <-. constructor.
  - injection H as <-. constructor.
  - destruct (existsb copy.isBroken entries); [discriminate|].
    destruct (copy.dcopy main.copyOpt (copy.switchboard main.copyOpt) src dest entries)
      as [kept|e] eqn:Hk; [|discriminate].
    injection H as <-. constructor. eapply dcopy_kept; eassumption.
Qed.

(** Every entry of what switchboard creates can be read and written by
    its user, and the root is named by the last element of the
    destination. *)
Lemma switchboard_nodes src dest info created :
  copy.switchboard main.copyOpt src dest info = Ok created →
  Forall userReadWrite (allNodes created) ∧ Name created = Base dest.
Proof.
  revert src dest created.
  induction info as [name perm|name|name perm entries IH|name perm|name]
    using node_induction; intros src dest created H; cbn [copy.switchboard] in H;
    try discriminate.
  - injection H as <-. split; [|reflexivity]. repeat constructor. apply perm_added.
  - injection H as <-. split; [|reflexivity]. repeat constructor.
  - destruct (existsb copy.isBroken entries); [discriminate|].
    destruct (copy.dcopy main.copyOpt (copy.switchboard main.copyOpt) src dest entries)
      as [kept|e] eqn:Hk; [|discriminate].
    injection H as <-. split; [|reflexivity]. cbn [allNodes]. constructor.
    + apply perm_added.
    + assert (Hkept : Forall2 (fun _ c' => Forall userReadWrite (allNodes c'))
                        (List.filter (fun c => negb (HasSuffix (Join src (Name c)) ".git"))
                                     entries) kept).
      { apply (dcopy_kept (fun _ _ _ c' => Forall userReadWrite (allNodes c'))
                 src dest entries kept); [|exact Hk].
        eapply List.Forall_impl; [|exact IH]. cbn beta. intros c Hc src' dest' c' Hs.
        apply (Hc _ _ _ Hs). }
      clear -Hkept. induction Hkept as [|c c' l l' Hc _ IHr]; cbn [flat_map]; [constructor|].
      apply Forall_app. split; assumption.
Qed.

(** switchboard succeeds exactly on the entries that can be copied. *)
Lemma dcopy_copyable src dest contents :
  Forall (fun c => ∀ src' dest',
            match copy.switchboard main.copyOpt src' dest' c with
            | Ok _ => copyable src' c = true
            | Err _ => copyable src' c = false
            end) contents →
  match copy.dcopy main.copyOpt (copy.switchboard main.copyOpt) src dest contents with
  | Ok _ =>
      forallb (fun c => HasSuffix (Join src (Name c)) ".git"
                        || copyable (Join src (Name c)) c) contents = true
  | Err _ =>
      forallb (fun c => HasSuffix (Join src (Name c)) ".git"
                        || copyable (Join src (Name c)) c) contents = false
  end.
Proof.
  induction 1 as [|c rest Hc _ IH]; cbn; [reflexivity|].
  destruct (HasSuffix (Join src (Name c)) ".git"); cbn [orb andb]; [exact IH|].
  specialize (Hc (Join src (Name c)) (Join dest (Name c))).
  destruct (copy.switchboard main.copyOpt (Join src (Name c)) (Join dest (Name c)) c);
    rewrite Hc; cbn [andb]; [|reflexivity].
  destruct (copy.dcopy main.copyOpt (copy.switchboard main.copyOpt) src dest rest);
    exact IH.
Qed.

Lemma switchboard_copyable src dest info :
  match copy.switchboard main.copyOpt src dest info with
  | Ok _ => copyable src info = true
  | Err _ => copyable src info = false
  end.
Proof.
  revert src dest.
  induction info as [name perm|name|name perm entries IH|name perm|name]
    using node_induction; intros src dest; cbn [copy.switchboard copyable]; try reflexivity.
  destruct (existsb copy.isBroken entries); cbn [negb andb]; [reflexivity|].
  pose proof (dcopy_copyable src dest entries IH) as Hd.
  destruct (copy.dcopy main.copyOpt (copy.switchboard main.copyOpt) src dest entries);
    exact Hd.
Qed.

(** copy.Copy with the options of the save commands: a copy that succeeds
    records the source copy of the entry found at [src]; a copy that fails
    records nothing. *)
Lemma Copy_records env src dest w w' r :
  copy.Copy env src dest main.copyOpt w = (w', r) →
  match r with
  | None =>
      ∃ info created,
        Lstat env src = Some info ∧
        copy.switchboard main.copyOpt src dest info = Ok created ∧
        w' = emit (EvCopy src dest created) w
  | Some _ => w' = w
  end.
Proof.
  unfold copy.Copy. intros H.
  destruct (Lstat env src) as [info|]; [|injection H as <- <-; reflexivity].
  destruct (copy.switchboard main.copyOpt src dest info) as [created|e] eqn:Hs;
    [|injection H as <- <-; reflexivity].
  destruct (CopyErr env src dest) as [e|]; injection H as <- <-; [reflexivity|eauto].
Qed.

Lemma Copy_copyOf env src dest w w' :
  copy.Copy env src dest main.copyOpt w = (w', None) →
  ∃ e, copyOf env src dest e ∧ w' = emit e w.
Proof.
  intros H. apply Copy_records in H as (info & created & Hl & Hs & ->).
  eexists. split; [|reflexivity]. exists info, created.
  split; [exact Hl|]. split; [apply switchboard_sourceCopy; exact Hs|reflexivity].
Qed.

(** copy.Copy makes the copy exactly when it can be made. *)
Lemma Copy_spec env src dest w :
  if canCopy env (src, dest)
  then ∃ e, copyOf env src dest e ∧
            copy.Copy env src dest main.copyOpt w = (emit e w, None)
  else ∃ err, copy.Copy env src dest main.copyOpt w = (w, Some err).
Proof.
  unfold canCopy, copy.Copy. cbn [fst snd].
  destruct (Lstat env src) as [info|] eqn:Hl; [|eauto].
  pose proof (switchboard_copyable src dest info) as Hc.
  destruct (copy.switchboard main.copyOpt src dest info) as [created|e] eqn:Hs;
    rewrite Hc; cbn [andb]; [|eauto].
  destruct (CopyErr env src dest); [eauto|].
  eexists. split; [|reflexivity]. exists info, created.
  split; [exact Hl|]. split; [apply switchboard_sourceCopy; exact Hs|reflexivity].
Qed.

(** C10: a source copy of the save commands (both use the same options)
    that succeeds records at the destination the source copy of the entry
    found at the source: Skip holds of a path exactly when the path ends
    with ".git", whatever the entry is; a directory is copied without those
    of its entries whose path ends with ".git" and with a copy of every
    other entry, in order and under the name of the entry; a copied file
    or directory has the permission bits of its source with the user's
    read and write bits added.  The copy succeeds exactly when the source
    is there, every directory to copy can be listed and nothing fails on
    the side of the destination; a copy that fails records nothing. *)
Theorem copy_skips_git_suffix env src dest w w' r :
  main.copySrc env src dest w = (w', r) →
  cmd.copySrc env src dest w = (w', r) ∧
  match r with
  | None =>
      ∃ info created,
        Lstat env src = Some info ∧ sourceCopy src dest info created ∧
        w' = emit (EvCopy src dest created) w
  | Some _ => w' = w
  end ∧
  (r = None ↔ canCopy env (src, dest) = true) ∧
  (∀ path, copy.Skip main.copyOpt path = Ok (HasSuffix path ".git")) ∧
  (∀ path, HasSuffix path ".git" = true ↔ ∃ p, path = p +:+ ".git") ∧
  (∀ path dst name perm contents created,
     sourceCopy path dst (Dir name perm contents) created →
     ∃ kept,
       created = Dir (Base dst) (Z.lor perm 384) kept ∧
       Forall2 (fun c c' => sourceCopy (Join path (Name c)) (Join dst (Name c)) c c')
         (List.filter (fun c => negb (HasSuffix (Join path (Name c)) ".git")) contents)
         kept) ∧
  (∀ path dst name perm created,
     sourceCopy path dst (File name perm) created →
     created = File (Base dst) (Z.lor perm 384)) ∧
  (∀ path dst c c',
     entryName (Name c) = true →
     sourceCopy (Join path (Name c)) (Join dst (Name c)) c c' → Name c' = Name c) ∧
  (∀ perm : Z, Z.land (Z.lor perm 384) 384 = 384%Z ∧ Z.land (Z.lor perm 384) perm = perm).
Proof.
  intros H. split; [exact H|]. split.
  { unfold main.copySrc in H. apply Copy_records in H. destruct r as [e|]; [exact H|].
    destruct H as (info & created & Hl & Hs & ->). exists info, created.
    split; [exact Hl|]. split; [apply switchboard_sourceCopy; exact Hs|reflexivity]. }
  split.
  { unfold main.copySrc in H. pose proof (Copy_spec env src dest w) as Hc.
    destruct (canCopy env (src, dest)).
    - destruct Hc as (e & _ & Hc). rewrite Hc in H. injection H as _ <-. split; reflexivity.
    - destruct Hc as (err & Hc). rewrite Hc in H. injection H as _ <-.
      split; discriminate. }
  split; [reflexivity|]. split; [intros; apply HasSuffix_iff|].
  split; [|split; [|split; [|apply perm_added]]].
  - intros path dst name perm contents created Hc. inversion Hc; subst. eauto.
  - intros path dst name perm created Hc. inversion Hc; subst. reflexivity.
  - intros path dst c c' Hname Hc.
    assert (Hbase : Name c' = Base (Join dst (Name c))) by (inversion Hc; reflexivity).
    rewrite Hbase. apply Base_Join. exact Hname.
Qed.

End CopySource.

(** ** The dispatch on the governing family *)

Section Dispatch.

Import main Spec Props.

Variable env : Env.

(** copy.Copy either records the tree it created or fails and leaves the
    world as it was. *)
Lemma Copy_cases src dest opt w :
  (∃ created, copy.Copy env src dest opt w = (emit (EvCopy src dest created) w, None)) ∨
  (∃ e, copy.Copy env src dest opt w = (w, Some e)).
Proof.
  unfold copy.Copy. destruct (Lstat env src) as [info|]; [|right; eauto].
  destruct (copy.switchboard opt src dest info) as [created|e]; [|right; eauto].
  destruct (CopyErr env src dest) as [e|]; [right; eauto|left; eauto].
Qed.








End Dispatch.

(** ** Rejections are collected, copy failures end the pass *)

Section Aggregation.

Import main Spec.

Variable env : Env.

Lemma saveLoop_app savePath rank pre post bad w :
  saveLoop env savePath rank (pre ++ post) bad w =
    match saveLoop env savePath rank pre bad w with
    | (w1, Ok bad1) => saveLoop env savePath rank post bad1 w1
    | (w1, Err e) => (w1, Err e)
    end.
Proof.
  revert bad w. induction pre as [|m pre IH]; intros bad w; cbn [saveLoop app].
  - reflexivity.
  - destruct (Scan env m) as [mod_|e]; [|reflexivity].
    destruct (comply env savePath rank mod_ bad w) as [w' [bad'|e]]; [apply IH|reflexivity].
Qed.

Lemma comply_recorded savePath rank mod_ bad w w' bad' :
  comply env savePath rank mod_ bad w = (w', Ok bad') →
  (∀ x, recorded bad x → recorded bad' x) ∧
  (actionOf (governingType rank (licenses.Licenses mod_)) = Reject → recorded bad' mod_).
Proof.
  unfold comply.
  assert (Hnotice :
    match copyNotices env mod_ (Join savePath (gocli.Path (Mod mod_))) w with
    | (w1, Some err) => (w1, Err err)
    | (w1, None) => (w1, Ok bad)
    end = (w', Ok bad') → bad' = bad).
  { destruct (copyNotices env mod_ _ w) as [w1 [e|]]; intros [=]; congruence. }
  assert (Hsource :
    match copySrc env (gocli.Dir (Mod mod_)) (Join savePath (gocli.Path (Mod mod_))) w with
    | (w1, Some err) => (w1, Err err)
    | (w1, None) => (w1, Ok bad)
    end = (w', Ok bad') → bad' = bad).
  { destruct (copySrc env _ _ w) as [w1 [e|]]; intros [=]; congruence. }
  assert (Hreject : ∀ t,
    (w, Ok (<[t := default [] (bad !! t) ++ [mod_]]> bad)) = (w', Ok bad') →
    (∀ x, recorded bad x → recorded bad' x) ∧ recorded bad' mod_).
  { intros t [= <- <-]. split.
    - intros x (t0 & ms & Ht & Hin). destruct (decide (t0 = t)) as [->|Hne].
      + eexists _, _. split; [apply lookup_insert_eq|]. rewrite Ht. cbn.
        apply in_or_app. left. exact Hin.
      + exists t0, ms. rewrite lookup_insert_ne by congruence. auto.
    - eexists _, _. split; [apply lookup_insert_eq|]. apply in_or_app. right. left.
      reflexivity. }
  destruct (governingType rank (licenses.Licenses mod_)); cbn [actionOf]; intros H;
    try (apply Hnotice in H as ->; split; [auto|discriminate]);
    try (apply Hsource in H as ->; split; [auto|discriminate]);
    destruct (Hreject _ H) as [Hkeep Hnew]; split; auto.
Qed.

Lemma saveLoop_recorded savePath rank mods bad w w' bad' :
  saveLoop env savePath rank mods bad w = (w', Ok bad') →
  (∀ x, recorded bad x → recorded bad' x) ∧
  (∀ m mod_, In m mods → Scan env m = Ok mod_ →
     actionOf (governingType rank (licenses.Licenses mod_)) = Reject → recorded bad' mod_).
Proof.
  revert bad w. induction mods as [|m rest IH]; intros bad w H; cbn [saveLoop] in H.
  - inversion H; subst. split; [auto|]. intros ? ? [].
  - destruct (Scan env m) as [mod_|e] eqn:Hs; [|discriminate].
    destruct (comply env savePath rank mod_ bad w) as [w1 [bad1|e]] eqn:Hc; [|discriminate].
    apply comply_recorded in Hc as [Hkeep Hnew].
    apply IH in H as [Hkeep' Hrest]. split; [auto|].
    intros m' mod' [<-|Hin] Hs' Ha.
    + rewrite Hs in Hs'. inversion Hs'; subst. auto.
    + eapply Hrest; eassumption.
Qed.

Lemma names_recorded bad x :
  recorded bad x → names (badLicensesError bad) (gocli.Path (Mod x)) = true.
Proof.
  intros (t & ms & Ht & Hin). cbn. apply orb_true_iff. left.
  apply existsb_exists. exists (t, ms). split.
  - apply list_elem_of_In, elem_of_map_to_list. exact Ht.
  - cbn. apply existsb_exists. exists x. split; [exact Hin|apply String.eqb_refl].
Qed.

Lemma recorded_size bad x : recorded bad x → (0 <? size bad) = true.
Proof.
  intros (t & ms & Ht & _). apply Nat.ltb_lt.
  destruct (size bad) eqn:Hsz; [|lia].
  apply map_size_empty_inv in Hsz. subst. rewrite lookup_empty in Ht. discriminate.
Qed.

Lemma complyLoop_app cfg moduleDict licensePath srcPath pre post bad w :
  cmd.complyLoop env cfg moduleDict licensePath srcPath (pre ++ post) bad w =
    match cmd.complyLoop env cfg moduleDict licensePath srcPath pre bad w with
    | (w1, cmd.Next bad1) => cmd.complyLoop env cfg moduleDict licensePath srcPath post bad1 w1
    | (w1, cmd.Stop out) => (w1, cmd.Stop out)
    end.
Proof.
  revert bad w. induction pre as [|r pre IH]; intros bad w; cbn [cmd.complyLoop app].
  - reflexivity.
  - destruct (cmd.complyRecord env cfg moduleDict licensePath srcPath r bad w)
      as [w' [bad'|out]]; [apply IH|reflexivity].
Qed.

Lemma complyRecord_bad cfg moduleDict licensePath srcPath record bad w w' bad' :
  cmd.complyRecord env cfg moduleDict licensePath srcPath record bad w = (w', cmd.Next bad') →
  (∀ r, In r bad → In r bad') ∧
  (cmd.requirementType env (dict.Type_ record) (config.Licenses cfg) = (cmd.Unknown, None) →
   In record bad').
Proof.
  unfold cmd.complyRecord.
  destruct (cmd.requirementType env (dict.Type_ record) (config.Licenses cfg))
    as [req [e|]]; [discriminate|].
  assert (Htail : ∀ w1 bad1,
    (if 0 <? length bad1 then (w1, cmd.Next bad1)
     else
       match SmartDownload env (dict.DownaloadUrl record) with
       | Err err => (w1, cmd.Stop (Return (Some (Wrapf "%s" [ArgS (dict.Module record)] err))))
       | Ok licenseContent =>
           match cmd.writeLicense env licensePath record licenseContent w1 with
           | (w2, Some err) => (w2, cmd.Stop (Exit 1 err))
           | (w2, None) =>
               (emit (EvLog Info "%s: Downloaded %s"
                        [dict.Module record; dict.DownaloadUrl record]) w2, cmd.Next bad1)
           end
       end) = (w', cmd.Next bad') → bad' = bad1).
  { intros w1 bad1 H1. destruct (0 <? length bad1); [congruence|].
    destruct (SmartDownload env _) as [content|e]; [|discriminate].
    destruct (cmd.writeLicense env licensePath record content w1) as [w2 [err|]];
      [discriminate|congruence]. }
  destruct req; intros H.
  - apply Htail in H as ->. split; [|intros _]; intros; apply in_or_app; cbn; auto.
  - assert (bad' = bad) as ->; [|split; [auto|discriminate]].
    destruct (moduleDict !! dict.Module record) as [moduleRecord|]; [|discriminate].
    destruct (String.eqb (gocli.Dir moduleRecord) ""); [discriminate|].
    destruct (cmd.copySrc env _ _ w) as [w1 [err|]]; [discriminate|].
    eapply Htail. exact H.
  - apply Htail in H as ->. split; [auto|discriminate].
Qed.

Lemma complyLoop_collects cfg moduleDict licensePath srcPath info bad w w' bad' :
  cmd.complyLoop env cfg moduleDict licensePath srcPath info bad w = (w', cmd.Next bad') →
  (∀ r, In r bad → In r bad') ∧
  (∀ r, In r info →
     cmd.requirementType env (dict.Type_ r) (config.Licenses cfg) = (cmd.Unknown, None) →
     In r bad').
Proof.
  revert bad w. induction info as [|record rest IH]; intros bad w H; cbn [cmd.complyLoop] in H.
  - inversion H; subst. split; [auto|]. intros ? [].
  - destruct (cmd.complyRecord env cfg moduleDict licensePath srcPath record bad w)
      as [w1 [bad1|out]] eqn:Hr; [|discriminate].
    apply complyRecord_bad in Hr as [Hkeep Hnew].
    apply IH in H as [Hkeep' Hrest]. split; [auto|].
    intros r [<-|Hin] Hreq; [auto|eapply Hrest; eassumption].
Qed.

Lemma logBadLicenses_logs bad w :
  (∀ e, In e (trace w) → In e (trace (cmd.logBadLicenses bad w))) ∧
  (∀ r, In r bad →
     In (EvLog Error "unknown license type" [dict.Module r; dict.Type_ r])
        (trace (cmd.logBadLicenses bad w))).
Proof.
  revert w. induction bad as [|module rest IH]; intros w; cbn [cmd.logBadLicenses].
  - split; [auto|]. intros ? [].
  - destruct (IH (emit (EvLog Error "unknown license type"
                          [dict.Module module; dict.Type_ module]) w)) as [Hkeep Hlog].
    split.
    + intros e He. apply Hkeep. cbn. apply in_or_app. left. exact He.
    + intros r [<-|Hin]; [|auto]. apply Hkeep. cbn. apply in_or_app. right. left. reflexivity.
Qed.

(** C3, as the code has it.  A rejected license does not end the pass:
    the module (saveMain) or the row (complyWithLicenses) is appended to
    the rejected ones and the pass goes on with the rest, whatever was
    rejected before.  When the pass over all rows completes, every
    rejected component is reported: saveMain returns one error built from
    the map that holds every rejected module; complyWithLicenses logs
    every rejected row with its module and declared license and returns
    one error with their number.  A failure while copying ends the pass
    at that row: the error of that row is returned alone, and the rows
    after it are not processed. *)
Theorem rejections_collected_copy_failure_ends_pass savePath rank
    cfg moduleDict licensePath srcPath :
  (∀ m rest mod_ bad w,
     Scan env m = Ok mod_ →
     actionOf (governingType rank (licenses.Licenses mod_)) = Reject →
     saveLoop env savePath rank (m :: rest) bad w
       = saveLoop env savePath rank rest
           (<[governingType rank (licenses.Licenses mod_) :=
                default [] (bad !! governingType rank (licenses.Licenses mod_)) ++ [mod_]]> bad)
           w) ∧
  (∀ r rest bad w,
     cmd.requirementType env (dict.Type_ r) (config.Licenses cfg) = (cmd.Unknown, None) →
     cmd.complyLoop env cfg moduleDict licensePath srcPath (r :: rest) bad w
       = cmd.complyLoop env cfg moduleDict licensePath srcPath rest (bad ++ [r]) w) ∧
  (∀ pre m post mod_ w w1 bad1 w2 e,
     saveLoop env savePath rank pre ∅ w = (w1, Ok bad1) →
     Scan env m = Ok mod_ →
     comply env savePath rank mod_ bad1 w1 = (w2, Err e) →
     saveAll env savePath rank (pre ++ m :: post) w = (w2, Some e)) ∧
  (∀ mods w w' bad m mod_,
     saveLoop env savePath rank mods ∅ w = (w', Ok bad) →
     In m mods → Scan env m = Ok mod_ →
     actionOf (governingType rank (licenses.Licenses mod_)) = Reject →
     saveAll env savePath rank mods w = (w', Some (badLicensesError bad)) ∧
     names (badLicensesError bad) (gocli.Path (Mod mod_)) = true) ∧
  (∀ pre r post w w1 bad1 w2 out,
     cmd.complyLoop env cfg moduleDict licensePath srcPath pre [] w = (w1, cmd.Next bad1) →
     cmd.complyRecord env cfg moduleDict licensePath srcPath r bad1 w1 = (w2, cmd.Stop out) →
     cmd.complyLoop env cfg moduleDict licensePath srcPath (pre ++ r :: post) [] w
       = (w2, cmd.Stop out)) ∧
  (∀ info w w1 bad r,
     cmd.complyLoop env cfg moduleDict licensePath srcPath info [] w = (w1, cmd.Next bad) →
     In r info →
     cmd.requirementType env (dict.Type_ r) (config.Licenses cfg) = (cmd.Unknown, None) →
     ∃ w2,
       cmd.finish env bad w1 =
         (w2, Return (Some (Errorf "%v modules has rejected licenses" [ArgN (length bad)]))) ∧
       In (EvLog Error "unknown license type" [dict.Module r; dict.Type_ r]) (trace w2)).
Proof.
  split; [|split; [|split; [|split; [|split]]]].
  - intros m rest mod_ bad w Hs Ha. cbn [saveLoop]. rewrite Hs. unfold comply.
    destruct (governingType rank (licenses.Licenses mod_)); try discriminate; reflexivity.
  - intros r rest bad w Hreq. cbn [cmd.complyLoop]. unfold cmd.complyRecord. rewrite Hreq.
    assert (Hpos : (0 <? length (bad ++ [r])) = true).
    { apply Nat.ltb_lt. rewrite length_app. cbn. lia. }
    rewrite Hpos. reflexivity.
  - intros pre m post mod_ w w1 bad1 w2 e Hpre Hs Hc.
    unfold saveAll. rewrite saveLoop_app, Hpre. cbn [saveLoop]. rewrite Hs, Hc. reflexivity.
  - intros mods w w' bad m mod_ Hloop Hin Hs Ha.
    destruct (saveLoop_recorded _ _ _ _ _ _ _ Hloop) as [_ Hrec].
    pose proof (Hrec m mod_ Hin Hs Ha) as Hr.
    split; [|apply names_recorded; exact Hr].
    unfold saveAll. rewrite Hloop, (recorded_size _ _ Hr). reflexivity.
  - intros pre r post w w1 bad1 w2 out Hpre Hr.
    rewrite complyLoop_app, Hpre. cbn [cmd.complyLoop]. rewrite Hr. reflexivity.
  - intros info w w1 bad r Hloop Hin Hreq.
    destruct (complyLoop_collects _ _ _ _ _ _ _ _ _ Hloop) as [_ Hcol].
    pose proof (Hcol r Hin Hreq) as Hbad.
    unfold cmd.finish.
    assert ((0 <? length bad) = true) as ->.
    { apply Nat.ltb_lt. destruct bad; [destruct Hbad|cbn; lia]. }
    eexists. split; [reflexivity|]. apply logBadLicenses_logs. exact Hbad.
Qed.

End Aggregation.

Section AggregationExamples.

Import Fixture Spec.

(** C3, counterexample: lib-a is rejected and the source directory of
    lib-b is missing.  Both save commands return at lib-b: the error does
    not name lib-a, nothing about lib-a has been logged, and lib-c, which
    comes after lib-b, is not processed. *)
Lemma copy_failure_hides_rejection :
  (∃ w' err,
     cmd.complyWithLicenses (env false false) [rowA; rowB; rowC] cfg "out" fresh
       = (w', Return (Some err)) ∧
     cmd.requirementType (env false false) (dict.Type_ rowA) (config.Licenses cfg)
       = (cmd.Unknown, None) ∧
     err = Wrapf "%s: Failed to copy source dir from %s to %s"
             [ArgS "lib-b"; ArgS "/mod/lib-b"; ArgS "out/src"] (ErrSys "lstat" "/mod/lib-b") ∧
     reported w' err "lib-a" = false ∧
     trace w' = [EvRemoveAll "out/src"; EvMkdirAll "out" 448; EvCreate "out/licenses.txt"]) ∧
  (∃ w' err,
     main.saveMain (env false false) "out" false main.strictness [] fresh = (w', Some err) ∧
     actionOf (main.governingType main.strictness [ {| ID := "Proprietary"; Path := "LICENSE";
                                                        URL := ""; Type_ := Forbidden |} ])
       = Reject ∧
     err = ErrSys "lstat" "/mod/lib-b" ∧
     reported w' err "lib-a" = false ∧
     reported w' err "lib-b" = false ∧
     trace w' = []).
Proof.
  split; do 2 eexists; repeat split; vm_compute; reflexivity.
Qed.

Lemma rejections_collected_witness :
  main.saveLoop (env false false) "out" main.strictness (libA :: [libB; libC]) ∅ fresh
    = main.saveLoop (env false false) "out" main.strictness [libB; libC]
        (<[Forbidden := default [] ((∅ : gmap LType (list licenses.Module)) !! Forbidden)
                        ++ [rejectedA]]> ∅) fresh ∧
  cmd.complyLoop (env false false) cfg (moduleDictOf [libA; libB; libC])
      "out/licenses.txt" "out/src" (rowA :: [rowC; rowB]) [] fresh
    = cmd.complyLoop (env false false) cfg (moduleDictOf [libA; libB; libC])
        "out/licenses.txt" "out/src" [rowC; rowB] ([] ++ [rowA]) fresh ∧
  main.saveAll (env false false) "out" main.strictness ([libA] ++ libB :: [libC]) fresh
    = (fresh, Some (ErrSys "lstat" "/mod/lib-b")) ∧
  (main.saveAll (env false false) "out" main.strictness [libC; libA] fresh).2
    = Some (main.badLicensesError (<[Forbidden := [rejectedA]]> ∅)) ∧
  names (main.badLicensesError (<[Forbidden := [rejectedA]]> ∅)) "lib-a" = true ∧
  cmd.complyLoop (env false false) cfg (moduleDictOf [libA; libB; libC])
      "out/licenses.txt" "out/src" ([rowA; rowC] ++ rowB :: [rowC]) [] fresh
    = (fresh, cmd.Stop (Return (Some
         (Wrapf "%s: Failed to copy source dir from %s to %s"
            [ArgS "lib-b"; ArgS "/mod/lib-b"; ArgS "out/src"] (ErrSys "lstat" "/mod/lib-b"))))) ∧
  ∃ w2,
    cmd.finish (env false false) [rowA] fresh
      = (w2, Return (Some (Errorf "%v modules has rejected licenses" [ArgN 1]))) ∧
    In (EvLog Error "unknown license type" ["lib-a"; "Proprietary"]) (trace w2).
Proof.
  pose proof (rejections_collected_copy_failure_ends_pass (env false false) "out"
                main.strictness cfg (moduleDictOf [libA; libB; libC])
                "out/licenses.txt" "out/src") as (Ha & Hb & Hc & Hd & He & Hf).
  split; [|split; [|split; [|split; [|split; [|split]]]]].
  - exact (Ha libA [libB; libC] rejectedA ∅ fresh eq_refl eq_refl).
  - exact (Hb rowA [rowC; rowB] [] fresh eq_refl).
  - apply (Hc [libA] libB [libC]
             {| Mod := libB; Licenses := [ {| ID := "GPL-3.0"; Path := "LICENSE";
                                              URL := ""; Type_ := Restricted |} ] |}
             fresh fresh (<[Forbidden := [rejectedA]]> ∅) fresh (ErrSys "lstat" "/mod/lib-b"));
      reflexivity.
  - rewrite (proj1 (Hd [libC; libA] fresh
                      (main.saveLoop (env false false) "out" main.strictness [libC; libA]
                         ∅ fresh).1
                      (<[Forbidden := [rejectedA]]> ∅) libA rejectedA
                      eq_refl (or_intror (or_introl eq_refl)) eq_refl eq_refl)).
    reflexivity.
  - exact (proj2 (Hd [libA] fresh fresh (<[Forbidden := [rejectedA]]> ∅) libA rejectedA
                    eq_refl (or_introl eq_refl) eq_refl eq_refl)).
  - apply (He [rowA; rowC] rowB [rowC] fresh fresh [rowA] fresh); reflexivity.
  - exact (Hf [rowA; rowC] fresh fresh [rowA] rowA eq_refl (or_introl eq_refl) eq_refl).
Defined.

End AggregationExamples.

(** ** The check of the save path *)

Section SavePath.

Variable env : Env.

(** C4: once the classifier and the dependencies (for the csv command: the
    configuration and the csv) have been loaded, a save path that exists
    makes both save commands fail with the error "already exists" when
    force is not set, with no effect at all, hence before any copy; when
    force is set and the removal succeeds, the save path is removed
    first, the check then finds it absent, and the command goes on as a
    run on an absent save path does. *)
Theorem save_path_must_not_exist savePath rank args csvPath w mods cfg info :
  NewClassifierErr env = None →
  ListDeps env args = Ok mods →
  LoadConfig env = Ok cfg →
  cmd.loadInfo env csvPath = Ok info →
  (saveDir w = Present →
     main.saveMain env savePath false rank args w
       = (w, Some (Errorf "%s already exists" [ArgS savePath])) ∧
     cmd.saveCmdRun env savePath false csvPath w
       = (w, Exit 255 (Errorf "%s already exists" [ArgS savePath]))) ∧
  (RemoveAllErr env savePath = None →
     let w1 := removed (emit (EvRemoveAll savePath) w) in
     saveDir w1 = Absent ∧
     trace w1 = trace w ++ [EvRemoveAll savePath] ∧
     main.saveMain env savePath true rank args w = main.saveAll env savePath rank mods w1 ∧
     main.saveMain env savePath true rank args w = main.saveMain env savePath false rank args w1 ∧
     cmd.saveCmdRun env savePath true csvPath w = cmd.saveCmdRun env savePath false csvPath w1).
Proof.
  intros Hcl Hdeps Hcfg Hinfo. split.
  - intros Hpresent. unfold main.saveMain, cmd.saveCmdRun.
    rewrite Hcl, Hdeps, Hcfg, Hinfo, Hpresent. split; reflexivity.
  - intros Hrm w1. unfold main.saveMain, cmd.saveCmdRun, RemoveAll.
    rewrite Hcl, Hdeps, Hcfg, Hinfo, Hrm. cbn. repeat split; reflexivity.
Qed.

End SavePath.

Section SavePathExamples.

Import Fixture.

Lemma save_path_must_not_exist_witness :
  main.saveMain (env false false) "out" false main.strictness [] stale
    = (stale, Some (Errorf "%s already exists" [ArgS "out"])) ∧
  saveDir (removed (emit (EvRemoveAll "out") stale)) = Absent.
Proof.
  pose proof (save_path_must_not_exist (env false false) "out" main.strictness [] "licenses.csv"
                stale [libA; libB; libC] cfg [] eq_refl eq_refl eq_refl eq_refl) as [Hno Hforce].
  split.
  - exact (proj1 (Hno eq_refl)).
  - exact (proj1 (Hforce eq_refl)).
Defined.

End SavePathExamples.

(** ** The scan of a module *)

Section Scan.

Variable env : Env.

Import Spec.

Section Walk.

Context {S : Type} (walkFn : filepath.WalkFunc S).

Hypothesis walkFn_errors :
  ∀ path info err st st' e,
    (∀ e0, err = Some e0 → walkErr e0) →
    walkFn path info err st = (st', Some e) → walkErr e.

Lemma walk_errors info :
  ∀ path st st' e, filepath.walk walkFn path info st = (st', Some e) → walkErr e.
Proof.
  induction info as [name perm|name|name perm entries IH|name perm|name]
    using node_induction; intros path st st' e H; cbn [filepath.walk] in H.
  - eapply walkFn_errors; [|exact H]. discriminate.
  - eapply walkFn_errors; [|exact H]. discriminate.
  - destruct (walkFn path (Some (Dir name perm entries)) None st) as [st1 [e1|]] eqn:H1.
    { inversion H; subst. eapply walkFn_errors; [|exact H1]. discriminate. }
    clear H1. revert st1 H.
    induction IH as [|child rest Hchild _ IHrest]; intros st1 H; cbn in H; [discriminate|].
    assert (Hrec : ∀ st0 st0' r,
              filepath.walk walkFn (Join path (Name child)) child st0 = (st0', r) →
              match r with
              | Some err =>
                  if negb (IsDir child) || negb (isSkipDir err) then (st0', Some err)
                  else filepath.walkNames walkFn (filepath.walk walkFn) path rest st0'
              | None => filepath.walkNames walkFn (filepath.walk walkFn) path rest st0'
              end = (st', Some e) → walkErr e).
    { intros st0 st0' [err|] Hw Hr; [|eauto].
      destruct (negb (IsDir child) || negb (isSkipDir err)); [|eauto].
      inversion Hr; subst. eapply Hchild. exact Hw. }
    destruct child as [cn cp|cn|cn cp ce|cn cp|cn].
    1-4: match type of H with
         | (let '(_, _) := ?c in _) = _ => destruct c as [st0' r] eqn:Hw
         end; eapply Hrec; eassumption.
    destruct (walkFn (Join path (Name (Broken cn))) None
                (Some (ErrSys "lstat" (Join path (Name (Broken cn))))) st1)
      as [st0' [err|]] eqn:Hw; [|eauto].
    destruct (isSkipDir err); [eauto|].
    inversion H; subst. eapply walkFn_errors; [|exact Hw].
    intros e0 [= <-]. right. eexists _, _. reflexivity.
  - eapply walkFn_errors; [|exact H]. intros e0 [= <-]. right. eexists _, _. reflexivity.
  - eapply walkFn_errors; [|exact H]. intros e0 [= <-]. right. eexists _, _. reflexivity.
Qed.

(** An error returned by Walk comes from the OS or from outside. *)
Lemma Walk_errors root st st' e :
  filepath.Walk env root walkFn st = (st', Some e) → sysErr e.
Proof.
  unfold filepath.Walk. intros H.
  assert (Hw : ∀ st1 e1,
             match Lstat env root with
             | Some info => filepath.walk walkFn root info st
             | None => walkFn root None (Some (ErrSys "lstat" root)) st
             end = (st1, Some e1) → walkErr e1).
  { intros st1 e1 H1. destruct (Lstat env root) as [info|].
    - eapply walk_errors. exact H1.
    - eapply walkFn_errors; [|exact H1]. intros e0 [= <-]. right. eexists _, _. reflexivity. }
  destruct (match Lstat env root with
            | Some info => filepath.walk walkFn root info st
            | None => walkFn root None (Some (ErrSys "lstat" root)) st
            end) as [st1 [e1|]] eqn:H1; [|discriminate].
  destruct (Hw st1 e1 eq_refl) as [->|Hs]; [discriminate|].
  destruct Hs as (op & p & ->). cbn in H. inversion H; subst. eexists _, _. reflexivity.
Qed.

End Walk.

Lemma walkFn1_errors path info err lics lics' e :
  (∀ e0, err = Some e0 → walkErr e0) →
  licenses1.walkFn env path info err lics = (lics', Some e) → walkErr e.
Proof.
  intros Herr H. unfold licenses1.walkFn in H.
  destruct err as [e0|]; [inversion H; subst; auto|].
  destruct info as [info|]; [|discriminate].
  destruct (IsSymlink info); [discriminate|].
  destruct (IsDir info).
  { destruct (index_bool ignoredDir (Name info)); [|discriminate].
    inversion H; subst. left. reflexivity. }
  destruct (negb (licenseRegexp env (Name info))); [discriminate|].
  destruct (Identify env path) as [[id t]|e1]; discriminate.
Qed.

Lemma walkFn2_errors m remote path info err lics lics' e :
  relErrors env →
  (∀ e0, err = Some e0 → walkErr e0) →
  licenses2.walkFn env m remote path info err lics = (lics', Some e) → walkErr e.
Proof.
  intros Hrel Herr H. unfold licenses2.walkFn in H.
  destruct err as [e0|]; [inversion H; subst; auto|].
  destruct info as [info|]; [|discriminate].
  destruct (IsSymlink info); [discriminate|].
  destruct (IsDir info).
  { destruct (index_bool ignoredDir (Name info)); [|discriminate].
    inversion H; subst. left. reflexivity. }
  destruct (negb (licenseRegexp env (Name info))); [discriminate|].
  destruct (Identify env path) as [[id t]|e1]; [|discriminate].
  destruct (Rel env (gocli.Dir m) path) as [rel|e1] eqn:Hr; [discriminate|].
  inversion H; subst. right. eapply Hrel. exact Hr.
Qed.

Lemma length_zero_nil {A} (l : list A) : Nat.eqb (length l) 0 = true ↔ l = [].
Proof. destruct l; cbn; split; congruence. Qed.

Lemma module1_result (m : gocli.Module) res err :
  gocli.Dir m ≠ "" →
  licenses1.module env m = (res, err) →
  ∃ walkRes,
    filepath.Walk env (gocli.Dir m) (licenses1.walkFn env) [] = (licenses1.Licenses res, walkRes) ∧
    licenses1.Mod res = m ∧
    (licenses1.Licenses res = [] → err = Some (scanError m licenseNotFound)) ∧
    (licenses1.Licenses res ≠ [] → err = wrapScanErr m walkRes ∧
       err ≠ Some (scanError m licenseNotFound)).
Proof.
  intros Hdir H. unfold licenses1.module in H.
  apply String.eqb_neq in Hdir. rewrite Hdir in H.
  destruct (filepath.Walk env (gocli.Dir m) (licenses1.walkFn env) []) as [lics werr] eqn:Hw.
  destruct (Nat.eqb (length lics) 0) eqn:Hlen; inversion H; subst; cbn.
  - apply length_zero_nil in Hlen. subst. exists werr. repeat split; auto. congruence.
  - exists werr. repeat split; auto.
    + intros ->. discriminate.
    + destruct werr as [e|]; [|discriminate]. cbn. intros [= ->].
      apply (Walk_errors (licenses1.walkFn env)) in Hw as (op & p & [=]).
      intros; eapply walkFn1_errors; eassumption.
Qed.

Lemma module2_result (m : gocli.Module) remote w res err w' :
  relErrors env →
  gocli.Dir m ≠ "" →
  ModuleInfo env (gocli.Path m) (remoteVersion m) = Ok remote →
  licenses2.module env m w = (res, err, w') →
  ∃ walkRes,
    filepath.Walk env (gocli.Dir m) (licenses2.walkFn env m remote) []
      = (licenses.Licenses res, walkRes) ∧
    Mod res = m ∧
    (licenses.Licenses res = [] → err = Some (scanError m licenseNotFound)) ∧
    (licenses.Licenses res ≠ [] → err = wrapScanErr m walkRes ∧
       err ≠ Some (scanError m licenseNotFound)).
Proof.
  intros Hrel Hdir Hinfo H. unfold licenses2.module in H.
  apply String.eqb_neq in Hdir. rewrite Hdir in H. unfold remoteVersion in Hinfo.
  assert (Hbody :
    ∀ w0,
      match ModuleInfo env (gocli.Path m)
              (if String.eqb (gocli.Version m) "" then "master" else gocli.Version m) with
      | Err err0 => ({| Mod := m; Licenses := [] |}, wrapScanErr m (Some err0), w0)
      | Ok remote0 =>
          let '(lics, err0) :=
            filepath.Walk env (gocli.Dir m) (licenses2.walkFn env m remote0) [] in
          if Nat.eqb (length lics) 0
          then ({| Mod := m; Licenses := lics |}, wrapScanErr m (Some licenseNotFound), w0)
          else ({| Mod := m; Licenses := lics |}, wrapScanErr m err0, w0)
      end = (res, err, w') →
      ∃ walkRes,
        filepath.Walk env (gocli.Dir m) (licenses2.walkFn env m remote) []
          = (licenses.Licenses res, walkRes) ∧
        Mod res = m ∧
        (licenses.Licenses res = [] → err = Some (scanError m licenseNotFound)) ∧
        (licenses.Licenses res ≠ [] → err = wrapScanErr m walkRes ∧
           err ≠ Some (scanError m licenseNotFound))).
  { intros w0 H0. rewrite Hinfo in H0.
    destruct (filepath.Walk env (gocli.Dir m) (licenses2.walkFn env m remote) [])
      as [lics werr] eqn:Hw.
    destruct (Nat.eqb (length lics) 0) eqn:Hlen; inversion H0; subst; cbn.
    - apply length_zero_nil in Hlen. subst. exists werr. repeat split; auto. congruence.
    - exists werr. repeat split; auto.
      + intros ->. discriminate.
      + destruct werr as [e|]; [|discriminate]. cbn. intros [= ->].
        apply (Walk_errors (licenses2.walkFn env m remote)) in Hw as (op & p & [=]).
        intros; eapply walkFn2_errors; eassumption. }
  destruct (String.eqb (gocli.Version m) ""); eapply Hbody; exact H.
Qed.

(** C5, as the code has it: in the scan of a module with a non-empty
    directory, a candidate whose classification fails is dropped and the
    walk goes on; the scan returns the error "license not found" exactly
    when no candidate was classified (for the revision that resolves the
    remote repository: once it has been resolved); when some candidate was
    classified, the scan returns the error of the walk, if the walk
    failed, and no error otherwise. *)
Theorem scan_license_not_found (m : gocli.Module) :
  gocli.Dir m ≠ "" →
  (∀ path info lics1 lics2 e remote,
     IsSymlink info = false → IsDir info = false →
     licenseRegexp env (Name info) = true → Identify env path = Err e →
     licenses1.walkFn env path (Some info) None lics1 = (lics1, None) ∧
     licenses2.walkFn env m remote path (Some info) None lics2 = (lics2, None)) ∧
  (∀ res err,
     licenses1.module env m = (res, err) →
     (err = Some (scanError m licenseNotFound) ↔ licenses1.Licenses res = []) ∧
     (licenses1.Licenses res ≠ [] →
      err = wrapScanErr m (filepath.Walk env (gocli.Dir m) (licenses1.walkFn env) []).2)) ∧
  (∀ remote w res err w',
     relErrors env →
     ModuleInfo env (gocli.Path m) (remoteVersion m) = Ok remote →
     licenses2.module env m w = (res, err, w') →
     (err = Some (scanError m licenseNotFound) ↔ licenses.Licenses res = []) ∧
     (licenses.Licenses res ≠ [] →
      err = wrapScanErr m
              (filepath.Walk env (gocli.Dir m) (licenses2.walkFn env m remote) []).2)).
Proof.
  intros Hdir. split; [|split].
  - intros path info lics1 lics2 e remote Hsym Hd Hre Hid.
    unfold licenses1.walkFn, licenses2.walkFn. rewrite Hsym, Hd, Hre, Hid. split; reflexivity.
  - intros res err H.
    destruct (module1_result m res err Hdir H) as (walkRes & Hw & _ & Hnil & Hcons).
    split; [split|].
    + intros Herr. destruct (licenses1.Licenses res) eqn:E; [reflexivity|].
      destruct Hcons as [_ Hne]; [discriminate|contradiction].
    + exact Hnil.
    + intros Hne. rewrite Hw. apply Hcons. exact Hne.
  - intros remote w res err w' Hrel Hinfo H.
    destruct (module2_result m remote w res err w' Hrel Hdir Hinfo H)
      as (walkRes & Hw & _ & Hnil & Hcons).
    split; [split|].
    + intros Herr. destruct (licenses.Licenses res) eqn:E; [reflexivity|].
      destruct Hcons as [_ Hne]; [discriminate|contradiction].
    + exact Hnil.
    + intros Hne. rewrite Hw. apply Hcons. exact Hne.
Qed.

(** C9, as the code has it: a module with an empty directory is not
    scanned: the scan returns ErrorEmptyDir; every error of the scan of a
    module is returned wrapped with the path of that module; a module
    whose directory does not exist is not scanned either: the scan returns
    an error and no license.  The directory need not be a directory: when
    it is a regular file with the name of a license file that the
    classifier identifies, the scan succeeds with that file as its only
    finding. *)
Theorem scan_errors_name_the_module (m : gocli.Module) (w : World) :
  (gocli.Dir m = "" →
     licenses1.module env m
       = ({| licenses1.Mod := m; licenses1.Licenses := [] |}, Some (scanError m ErrorEmptyDir)) ∧
     licenses2.module env m w
       = ({| Mod := m; Licenses := [] |}, Some (scanError m ErrorEmptyDir), w)) ∧
  (∀ res err,
     licenses1.module env m = (res, Some err) →
     (∃ cause, err = scanError m cause) ∧ names err (gocli.Path m) = true) ∧
  (∀ res err w',
     licenses2.module env m w = (res, Some err, w') →
     (∃ cause, err = scanError m cause) ∧ names err (gocli.Path m) = true) ∧
  (gocli.Dir m ≠ "" → Lstat env (gocli.Dir m) = None →
     (∃ err, licenses1.module env m
               = ({| licenses1.Mod := m; licenses1.Licenses := [] |}, Some (scanError m err))) ∧
     (∃ err w', licenses2.module env m w
                  = ({| Mod := m; Licenses := [] |}, Some (scanError m err), w'))) ∧
  (∀ name perm licenseID licenseType,
     gocli.Dir m ≠ "" → Lstat env (gocli.Dir m) = Some (File name perm) →
     licenseRegexp env name = true →
     Identify env (gocli.Dir m) = Ok (licenseID, licenseType) →
     licenses1.module env m
       = ({| licenses1.Mod := m;
             licenses1.Licenses :=
               [ {| licenses1.ID := licenseID; licenses1.Path := gocli.Dir m;
                    licenses1.URL := "" |} ] |}, None) ∧
     ∀ remote relativePath,
       ModuleInfo env (gocli.Path m) (remoteVersion m) = Ok remote →
       Rel env (gocli.Dir m) (gocli.Dir m) = Ok relativePath →
       ∃ w', licenses2.module env m w
               = ({| Mod := m;
                     Licenses :=
                       [ {| ID := licenseID; Path := relativePath;
                            URL := source.fileURL remote relativePath;
                            Type_ := licenseType |} ] |}, None, w')).
Proof.
  assert (Hwrap : ∀ o err, wrapScanErr m o = Some err →
            (∃ cause, err = scanError m cause) ∧ names err (gocli.Path m) = true).
  { intros [e|] err [= <-]. split; [eexists; reflexivity|].
    cbn. rewrite String.eqb_refl. reflexivity. }
  split; [|split; [|split; [|split]]].
  - intros Hdir. unfold licenses1.module, licenses2.module. rewrite Hdir. split; reflexivity.
  - intros res err H. unfold licenses1.module in H.
    destruct (String.eqb (gocli.Dir m) "");
      [apply (f_equal snd) in H; exact (Hwrap _ _ H)|].
    destruct (filepath.Walk env (gocli.Dir m) (licenses1.walkFn env) []) as [lics werr].
    destruct (Nat.eqb (length lics) 0); apply (f_equal snd) in H; exact (Hwrap _ _ H).
  - intros res err w' H. unfold licenses2.module in H.
    destruct (String.eqb (gocli.Dir m) "");
      [apply (f_equal (fun x => snd (fst x))) in H; exact (Hwrap _ _ H)|].
    destruct (String.eqb (gocli.Version m) "");
      (destruct (ModuleInfo env _ _) as [remote|e];
       [|apply (f_equal (fun x => snd (fst x))) in H; exact (Hwrap _ _ H)];
       destruct (filepath.Walk env (gocli.Dir m) (licenses2.walkFn env m remote) [])
         as [lics werr];
       destruct (Nat.eqb (length lics) 0); apply (f_equal (fun x => snd (fst x))) in H; exact (Hwrap _ _ H)).
  - intros Hdir Hls. apply String.eqb_neq in Hdir.
    unfold licenses1.module, licenses2.module, filepath.Walk. rewrite Hdir, Hls. cbn.
    split; [eexists; reflexivity|].
    destruct (String.eqb (gocli.Version m) "");
      (destruct (ModuleInfo env _ _) as [remote|e]; [|do 2 eexists; reflexivity]);
      cbn; do 2 eexists; reflexivity.
  - intros name perm licenseID licenseType Hdir Hls Hre Hid. apply String.eqb_neq in Hdir.
    split.
    + unfold licenses1.module, filepath.Walk. rewrite Hdir, Hls.
      cbn [filepath.walk licenses1.walkFn IsSymlink IsDir Name]. rewrite Hre, Hid. reflexivity.
    + intros remote relativePath Hinfo Hrel. unfold remoteVersion in Hinfo.
      unfold licenses2.module, filepath.Walk. rewrite Hdir, Hls.
      destruct (String.eqb (gocli.Version m) ""); rewrite Hinfo;
        cbn [filepath.walk licenses2.walkFn IsSymlink IsDir Name]; rewrite Hre, Hid, Hrel;
        eexists; reflexivity.
Qed.

End Scan.

(** ** The rows of the csv *)

Section Csv.

Import Spec.

Variable env : Env.

Lemma outputOf_app evs1 evs2 : outputOf (evs1 ++ evs2) = outputOf evs1 ++ outputOf evs2.
Proof.
  induction evs1 as [|e evs1 IH]; [reflexivity|]. cbn [app outputOf].
  destruct e; try exact IH. destruct (String.eqb file csv.stdout); [cbn; f_equal|]; exact IH.
Qed.

Lemma WriteString_output text w w' :
  csv.WriteString env text w = (w', None) →
  outputOf (trace w') = outputOf (trace w) ++ [text].
Proof.
  unfold csv.WriteString. destruct (WriteErr env csv.stdout); [discriminate|].
  intros [= <-]. cbn. rewrite outputOf_app. reflexivity.
Qed.

(** The fields of a library do not depend on the world, and computing
    them writes nothing to stdout. *)
Lemma libraryFields_fields lib w :
  ∃ w', csv.libraryFields env lib w = (w', fieldsOf env lib) ∧
        outputOf (trace w') = outputOf (trace w).
Proof.
  unfold fieldsOf, csv.libraryFields.
  destruct (String.eqb (gocli.Version (licensesLib.Module lib)) "");
    destruct (ModuleInfo env _ _) as [remote|e];
    destruct (String.eqb (licensesLib.LicensePath lib) "");
    try (eexists; split; [reflexivity|]; cbn; rewrite ?outputOf_app, ?app_nil_r; reflexivity);
    destruct (Identify env _) as [[licenseName t]|e'];
    destruct (Rel env _ _) as [rel|e''];
    eexists; (split; [reflexivity|]); cbn; rewrite ?outputOf_app; cbn;
    rewrite ?app_nil_r; reflexivity.
Qed.

Lemma fieldsOf_url lib :
  ∃ licenseURL licenseName,
    fieldsOf env lib = (licensesLib.Name lib, licenseURL, licenseName) ∧
    licenseURL ≠ "" ∧
    (licensesLib.LicensePath lib = "" → licenseURL = "Unknown") ∧
    (∀ e, ModuleInfo env (gocli.Path (licensesLib.Module lib))
            (remoteVersion (licensesLib.Module lib)) = Err e → licenseURL = "Unknown") ∧
    (licenseURL = "Unknown" ∨
     ∃ remote rel,
       ModuleInfo env (gocli.Path (licensesLib.Module lib))
         (remoteVersion (licensesLib.Module lib)) = Ok remote ∧
       licenseURL = source.fileURL remote rel).
Proof.
  unfold fieldsOf, csv.libraryFields, remoteVersion.
  assert (Hurl : ∀ u, (if String.eqb u "" then "Unknown" else u) ≠ "").
  { intros u. destruct (String.eqb_spec u ""); [discriminate|assumption]. }
  destruct (String.eqb (gocli.Version (licensesLib.Module lib)) "");
    destruct (ModuleInfo env _ _) as [remote|e];
    destruct (String.eqb_spec (licensesLib.LicensePath lib) "") as [Hp|Hp];
    try (do 2 eexists; split; [reflexivity|]; cbn;
         repeat split; auto; discriminate);
    destruct (Identify env _) as [[licenseName t]|e'];
    destruct (Rel env _ _) as [rel|e''];
    do 2 eexists; (split; [reflexivity|]); cbn;
    (split; [first [apply Hurl | discriminate]|]);
    (split; [intros; contradiction|]);
    (split; [first [discriminate | reflexivity | intros; reflexivity]|]);
    first [ left; reflexivity
          | match goal with
            | |- context [String.eqb ?u ""] =>
                destruct (String.eqb u ""); [left; reflexivity|right; eauto]
            end ].
Qed.

Lemma printLibraries_output libs w w' :
  csv.printLibraries env libs w = (w', None) →
  outputOf (trace w') =
    outputOf (trace w) ++
    map (fun lib => let '(name, url, license) := fieldsOf env lib in csv.row name url license) libs.
Proof.
  revert w. induction libs as [|lib rest IH]; intros w H; cbn [csv.printLibraries map] in H |- *.
  - inversion H; subst. rewrite app_nil_r. reflexivity.
  - destruct (libraryFields_fields lib w) as (w1 & E & Hout). rewrite E in H.
    destruct (fieldsOf env lib) as [[name url] license].
    destruct (csv.WriteString env (csv.row name url license) w1) as [w2 [e|]] eqn:Hw;
      [discriminate|].
    apply WriteString_output in Hw. apply IH in H. rewrite H, Hw, Hout, <- app_assoc.
    reflexivity.
Qed.

Lemma printLicenses_output modPath lics w w' :
  csv.printLicenses env modPath lics w = (w', None) →
  outputOf (trace w') =
    outputOf (trace w) ++ map (fun l => csv.row modPath (URL l) (ID l)) lics.
Proof.
  revert w. induction lics as [|l rest IH]; intros w H; cbn [csv.printLicenses map] in H |- *.
  - inversion H; subst. rewrite app_nil_r. reflexivity.
  - destruct (csv.WriteString env (csv.row modPath (URL l) (ID l)) w) as [w1 [e|]] eqn:Hw;
      [discriminate|].
    apply WriteString_output in Hw. apply IH in H. rewrite H, Hw, <- app_assoc. reflexivity.
Qed.

(** C6, as the code has it: a row is the three fields name, URL and
    license joined by ", ", in this order.  The csv command that lists
    libraries (csv.go) prints for every library one row whose URL is
    never empty: it is the literal Unknown when the library has no
    license path, when the remote repository was not found and when the
    URL of the file is empty.  The csv command that lists the licenses of
    modules prints for every license one row with the URL of that license
    as it is, empty or not. *)
Theorem csv_rows :
  (∀ name url license, csv.row name url license = joinFields name url license) ∧
  (∀ libs w w',
     csv.printLibraries env libs w = (w', None) →
     outputOf (trace w') =
       outputOf (trace w) ++
       map (fun lib => let '(name, url, license) := fieldsOf env lib in
                       csv.row name url license) libs) ∧
  (∀ lib, ∃ licenseURL licenseName,
     fieldsOf env lib = (licensesLib.Name lib, licenseURL, licenseName) ∧
     licenseURL ≠ "" ∧
     (licensesLib.LicensePath lib = "" → licenseURL = "Unknown") ∧
     (∀ e, ModuleInfo env (gocli.Path (licensesLib.Module lib))
             (remoteVersion (licensesLib.Module lib)) = Err e → licenseURL = "Unknown") ∧
     (licenseURL = "Unknown" ∨
      ∃ remote rel,
        ModuleInfo env (gocli.Path (licensesLib.Module lib))
          (remoteVersion (licensesLib.Module lib)) = Ok remote ∧
        licenseURL = source.fileURL remote rel)) ∧
  (∀ modPath lics w w',
     csv.printLicenses env modPath lics w = (w', None) →
     outputOf (trace w') =
       outputOf (trace w) ++ map (fun l => csv.row modPath (URL l) (ID l)) lics).
Proof.
  split; [|split; [|split]].
  - intros. unfold csv.row, joinFields. cbn [String.concat].
    rewrite !string_app_assoc. reflexivity.
  - apply printLibraries_output.
  - apply fieldsOf_url.
  - apply printLicenses_output.
Qed.

End Csv.

(** ** The definitions evaluated on a small run *)

Section Examples.

Import Fixture Spec.

Lemma strictness_order : main.FamilyOrder main.strictness.
Proof. unfold main.FamilyOrder, main.strictness. cbn. repeat split; lia. Qed.

Lemma governingType_is_maximum_witness :
  permissiveAndRestricted ≠ [] ∧
  In (main.governingType main.strictness permissiveAndRestricted)
     (map Type_ permissiveAndRestricted) ∧
  Forall (fun l => main.strictness (Type_ l)
                     ≤ main.strictness (main.governingType main.strictness permissiveAndRestricted))
         permissiveAndRestricted.
Proof.
  assert (Hne : permissiveAndRestricted ≠ []) by discriminate.
  split; [exact Hne|].
  destruct (governingType_is_maximum main.strictness strictness_order
              permissiveAndRestricted Hne) as (Hin & Hall & _).
  split; [exact Hin|exact Hall].
Defined.

(** The two examples of the specification: the strictest of Permissive
    and Restricted is Restricted, and Unencumbered alone governs
    itself. *)
Example resolve_permissive_restricted :
  main.governingType main.strictness permissiveAndRestricted = Restricted.
Proof. reflexivity. Qed.

Example resolve_unencumbered :
  main.governingType main.strictness
    [ {| ID := "CC0-1.0"; Path := "LICENSE"; URL := ""; Type_ := Unencumbered |} ]
  = Unencumbered.
Proof. reflexivity. Qed.



Lemma copy_skips_git_suffix_witness :
  cmd.copySrc (env false false) "/mod/lib-a" "out/src/lib-a" fresh
    = (emit (EvCopy "/mod/lib-a" "out/src/lib-a"
               (Dir "lib-a" 493
                  [ File "LICENSE" 420; File "NOTICE" 420; File "a.go" 420;
                    Dir "sub" 493 [File "LICENSE.txt" 420; File "b.go" 420] ])) fresh,
       None) ∧
  ∃ info created,
    Lstat (env false false) "/mod/lib-a" = Some info ∧
    Props.sourceCopy "/mod/lib-a" "out/src/lib-a" info created ∧
    emit (EvCopy "/mod/lib-a" "out/src/lib-a"
            (Dir "lib-a" 493
               [ File "LICENSE" 420; File "NOTICE" 420; File "a.go" 420;
                 Dir "sub" 493 [File "LICENSE.txt" 420; File "b.go" 420] ])) fresh
      = emit (EvCopy "/mod/lib-a" "out/src/lib-a" created) fresh.
Proof.
  assert (H : main.copySrc (env false false) "/mod/lib-a" "out/src/lib-a" fresh
              = (emit (EvCopy "/mod/lib-a" "out/src/lib-a"
                         (Dir "lib-a" 493
                            [ File "LICENSE" 420; File "NOTICE" 420; File "a.go" 420;
                              Dir "sub" 493 [File "LICENSE.txt" 420; File "b.go" 420] ]))
                      fresh, None))
    by (vm_compute; reflexivity).
  destruct (copy_skips_git_suffix _ _ _ _ _ _ H) as (Hcmd & Hrec & _).
  split; [exact Hcmd|exact Hrec].
Defined.

(** A copy that fails records nothing: lib-c has a directory that cannot
    be read. *)
Example copy_unreadable :
  main.copySrc (env false false) "/mod/lib-c" "out/lib-c" fresh
    = (fresh, Some (ErrSys "readdir" "/mod/lib-c/private")).
Proof. vm_compute. reflexivity. Qed.

(** A notice license: the license file and the NOTICE file next to it are
    copied, the sources are not. *)
Example comply_notice :
  main.comply (env false false) "out" main.strictness
    {| Mod := libA; Licenses := [mitLicense "LICENSE" ""] |} ∅ fresh
  = ({| saveDir := Absent;
        trace := [ EvCopy "/mod/lib-a/LICENSE" "out/lib-a/LICENSE" (File "LICENSE" 420);
                   EvCopy "/mod/lib-a/NOTICE" "out/lib-a/NOTICE" (File "NOTICE" 420) ] |},
     Ok ∅).
Proof. vm_compute. reflexivity. Qed.

(** A restricted license: the source tree is copied without the entries
    whose path ends with ".git", here the directory .git and the file
    repo.git, and with the user's read and write bits added. *)
Example comply_restricted :
  main.comply (env false false) "out" main.strictness
    {| Mod := libA;
       Licenses := [ {| ID := "GPL-3.0"; Path := "LICENSE"; URL := ""; Type_ := Restricted |} ] |}
    ∅ fresh
  = ({| saveDir := Absent;
        trace := [ EvCopy "/mod/lib-a" "out/lib-a"
                     (Dir "lib-a" 493
                        [ File "LICENSE" 420; File "NOTICE" 420; File "a.go" 420;
                          Dir "sub" 493 [File "LICENSE.txt" 420; File "b.go" 420] ]) ] |},
     Ok ∅).
Proof. vm_compute. reflexivity. Qed.

Example skip_examples :
  copy.Skip main.copyOpt "/mod/lib-a/.git" = Ok true ∧
  copy.Skip main.copyOpt "/mod/lib-a/repo.git" = Ok true ∧
  copy.Skip main.copyOpt "/mod/lib-a/.gitignore" = Ok false ∧
  copy.Skip main.copyOpt "/mod/lib-a/.git/config" = Ok false.
Proof. repeat split. Qed.

Lemma requirementType_strictest_witness :
  Forall (fun part => TrimSpace part ≠ "") (Split "MIT / GPL-3.0" "/") ∧
  cmd.requirementType (env false false) "MIT / GPL-3.0" (config.Licenses cfg)
    = (cmd.RedistributeSource, None).
Proof.
  assert (Hparts : Forall (fun part => TrimSpace part ≠ "") (Split "MIT / GPL-3.0" "/"))
    by (repeat constructor; discriminate).
  split; [exact Hparts|].
  exact (proj1 (requirementType_strictest (env false false) (config.Licenses cfg)
                  "MIT / GPL-3.0" Hparts)).
Defined.

Example requirementType_examples :
  cmd.requirementType (env false false) "Apache-2.0 / MIT" (config.Licenses cfg)
    = (cmd.RedistributeNotice, None) ∧
  cmd.requirementType (env false false) "GPL-3.0/Proprietary" (config.Licenses cfg)
    = (cmd.Unknown, None) ∧
  cmd.requirementType (env false false) "MIT / " (config.Licenses cfg)
    = (cmd.Unknown, Some (Errorf "Empty SPDX ID in %q" [ArgS "MIT / "])).
Proof. repeat split. Qed.

(** White space outside ASCII is trimmed as well: a no-break space
    (U+00A0, the bytes 194 160) after MIT, an ideographic space (U+3000)
    before GPL-3.0, and a part that holds a no-break space only, which is
    empty after trimming. *)
Example requirementType_unicode_space :
  TrimSpace ("MIT" +:+ String "194" (String "160" "")) = "MIT" ∧
  cmd.requirementType (env false false) ("MIT" +:+ String "194" (String "160" ""))
    (config.Licenses cfg) = (cmd.RedistributeNotice, None) ∧
  cmd.requirementType (env false false)
    ("MIT/" +:+ String "227" (String "128" (String "128" "GPL-3.0"))) (config.Licenses cfg)
    = (cmd.RedistributeSource, None) ∧
  cmd.requirementType (env false false) ("MIT/" +:+ String "194" (String "160" ""))
    (config.Licenses cfg)
    = (cmd.Unknown,
       Some (Errorf "Empty SPDX ID in %q" [ArgS ("MIT/" +:+ String "194" (String "160" ""))])).
Proof. repeat split; vm_compute; reflexivity. Qed.

(** Bytes that are not the encoding of a white space rune are kept: a
    lone continuation byte, and the first byte of a no-break space without
    its second byte. *)
Example TrimSpace_keeps_invalid :
  TrimSpace (String "160" "") = String "160" "" ∧
  TrimSpace (" MIT" +:+ String "194" " ") = "MIT" +:+ String "194" "".
Proof. split; vm_compute; reflexivity. Qed.

Lemma scan_license_not_found_witness :
  gocli.Dir libA ≠ "" ∧
  ∀ res err,
    licenses1.module (env false false) libA = (res, err) →
    (err = Some (scanError libA licenseNotFound) ↔ licenses1.Licenses res = []).
Proof.
  assert (Hdir : gocli.Dir libA ≠ "") by discriminate.
  split; [exact Hdir|]. intros res err H.
  exact (proj1 (proj1 (proj2 (scan_license_not_found (env false false) libA Hdir)) res err H)).
Defined.

(** C5, counterexample: lib-c has a LICENSE file, which is classified,
    and a directory that cannot be read.  The scan returns the error of
    the walk together with a list of findings that is not empty. *)
Lemma scan_error_with_findings :
  gocli.Dir libC ≠ "" ∧
  licenses1.module (env false false) libC
    = ({| licenses1.Mod := libC;
          licenses1.Licenses :=
            [ {| licenses1.ID := "MIT"; licenses1.Path := "/mod/lib-c/LICENSE";
                 licenses1.URL := "" |} ] |},
       Some (scanError libC (ErrSys "readdirnames" "/mod/lib-c/private"))) ∧
  (licenses2.module (env false false) libC fresh).1
    = ({| Mod := libC;
          Licenses := [ mitLicense "LICENSE" "https://example.org/lib-c/LICENSE" ] |},
       Some (scanError libC (ErrSys "readdirnames" "/mod/lib-c/private"))) ∧
  ¬ (∀ res err, licenses1.module (env false false) libC = (res, err) →
       (err ≠ None ↔ licenses1.Licenses res = [])).
Proof.
  split; [discriminate|]. split; [vm_compute; reflexivity|]. split; [vm_compute; reflexivity|].
  intros H. specialize (H _ _ eq_refl). cbn in H. destruct H as [H _].
  discriminate H. discriminate.
Qed.

(** A scan without failure, with a candidate that is not classified:
    sub/LICENSE.txt does not match the pattern of this run, and the
    directory .git is not entered. *)
Example scan_lib_a :
  licenses1.module (env false false) libA
    = ({| licenses1.Mod := libA;
          licenses1.Licenses :=
            [ {| licenses1.ID := "MIT"; licenses1.Path := "/mod/lib-a/LICENSE";
                 licenses1.URL := "" |} ] |}, None).
Proof. vm_compute. reflexivity. Qed.

(** The scan of a module with an empty directory and of a module whose
    directory does not exist. *)
Example scan_empty_and_missing_dir :
  licenses1.module (env false false)
    {| gocli.Path := "lib-d"; gocli.Dir := ""; gocli.Version := "v1" |}
    = ({| licenses1.Mod := {| gocli.Path := "lib-d"; gocli.Dir := ""; gocli.Version := "v1" |};
          licenses1.Licenses := [] |},
       Some (scanError {| gocli.Path := "lib-d"; gocli.Dir := ""; gocli.Version := "v1" |}
               ErrorEmptyDir)) ∧
  licenses1.module (env false false) libB
    = ({| licenses1.Mod := libB; licenses1.Licenses := [] |},
       Some (scanError libB licenseNotFound)).
Proof. split; vm_compute; reflexivity. Qed.

(** C9, counterexample: the directory listed for the module is a regular
    file, its LICENSE file.  Both revisions of the scan walk it as the only
    candidate and return the license found in it, without error: the scan
    does not require its root to be a directory. *)
Lemma scan_of_regular_file_root :
  gocli.Dir Fixture2.licenseAsDir ≠ "" ∧
  Lstat (env false false) (gocli.Dir Fixture2.licenseAsDir) = Some (File "LICENSE" 292) ∧
  IsDir (File "LICENSE" 292) = false ∧
  licenses1.module (env false false) Fixture2.licenseAsDir
    = ({| licenses1.Mod := Fixture2.licenseAsDir;
          licenses1.Licenses :=
            [ {| licenses1.ID := "MIT"; licenses1.Path := "/mod/lib-a/LICENSE";
                 licenses1.URL := "" |} ] |}, None) ∧
  licenses2.module (env false false) Fixture2.licenseAsDir fresh
    = ({| Mod := Fixture2.licenseAsDir;
          Licenses := [ mitLicense "." "https://example.org/lib-a/." ] |}, None, fresh).
Proof.
  split; [discriminate|]. split; [reflexivity|]. split; [reflexivity|].
  split; vm_compute; reflexivity.
Qed.

Lemma scan_errors_name_the_module_witness :
  licenses1.module (env false false) Fixture2.licenseAsDir
    = ({| licenses1.Mod := Fixture2.licenseAsDir;
          licenses1.Licenses :=
            [ {| licenses1.ID := "MIT"; licenses1.Path := "/mod/lib-a/LICENSE";
                 licenses1.URL := "" |} ] |}, None) ∧
  (∃ err, licenses1.module (env false false) libB
            = ({| licenses1.Mod := libB; licenses1.Licenses := [] |},
               Some (scanError libB err))).
Proof.
  split.
  - assert (Hdir : gocli.Dir Fixture2.licenseAsDir ≠ "") by discriminate.
    exact (proj1 (proj2 (proj2 (proj2 (proj2
             (scan_errors_name_the_module (env false false) Fixture2.licenseAsDir fresh))))
             "LICENSE" 292%Z "MIT" Notice Hdir eq_refl eq_refl eq_refl)).
  - assert (Hdir : gocli.Dir libB ≠ "") by discriminate.
    exact (proj1 (proj1 (proj2 (proj2 (proj2
             (scan_errors_name_the_module (env false false) libB fresh)))) Hdir eq_refl)).
Defined.

(** C6, counterexample: the remote repository of lib-a has no URL for its
    LICENSE file.  The csv command that lists the licenses of modules
    prints a row whose second field is empty, where the specification has
    Unknown. *)
Lemma csv_row_with_empty_url :
  ∃ w',
    csv.csvMainModules (env false true) ["lib-a"] fresh = (w', None) ∧
    outputOf (trace w') = [csv.row "lib-a" "" "MIT"] ∧
    csv.row "lib-a" "" "MIT" = "lib-a, , MIT" +:+ nl ∧
    csv.row "lib-a" "" "MIT" ≠ csv.row "lib-a" "Unknown" "MIT".
Proof.
  eexists. split; [vm_compute; reflexivity|]. repeat split. discriminate.
Qed.

(** The csv command that lists libraries prints Unknown in the same
    situation, and also when the remote repository is not found. *)
Example csv_row_unknown_url :
  outputOf (trace (csv.csvMain (env false true) [] fresh).1) = [csv.row "lib-a" "Unknown" "MIT"] ∧
  outputOf (trace (csv.csvMain (env true false) [] fresh).1) = [csv.row "lib-a" "Unknown" "MIT"] ∧
  outputOf (trace (csv.csvMain (env false false) [] fresh).1)
    = [csv.row "lib-a" "https://example.org/lib-a/LICENSE" "MIT"].
Proof. repeat split; vm_compute; reflexivity. Qed.

(** C7: the remote repository of lib-a cannot be resolved.  The
    scan of module.go (second revision) fails for lib-a, although its
    LICENSE file is there and can be classified, and with it the scan of
    all dependencies; the csv command of csv.go logs a warning and prints
    the row of lib-a with the URL Unknown. *)
Theorem remote_failure_ends_scan :
  licenses2.module (env true false) libA fresh
    = ({| Mod := libA; Licenses := [] |},
       Some (scanError libA (ErrSys "ModuleInfo" "lib-a")), fresh) ∧
  licenses2.Modules (env true false) ["lib-a"] fresh
    = ([], Some (scanError libA (ErrSys "ModuleInfo" "lib-a")), fresh) ∧
  licenses2.module (env false false) libA fresh
    = ({| Mod := libA;
          Licenses := [ mitLicense "LICENSE" "https://example.org/lib-a/LICENSE" ] |},
       None, fresh) ∧
  csv.csvMain (env true false) [] fresh
    = ({| saveDir := Absent;
          trace := [ EvLog Warning "finding module info for %s: %s" ["lib-a"];
                     EvWrite csv.stdout (csv.row "lib-a" "Unknown" "MIT") ] |}, None).
Proof. repeat split; vm_compute; reflexivity. Qed.

End Examples.

(** ** More on requirementType *)

Section RequirementTypeMore.

Import cmd Spec Props.

Variable env : Env.
Variable cfg : config.LicensesConfig.

Lemma requirementLoop_error license parts requirement r e :
  requirementLoop env cfg license parts requirement = (r, Some e) ↔
  r = Unknown ∧ e = Errorf "Empty SPDX ID in %q" [ArgS license] ∧
  ∃ pre part post,
    parts = pre ++ part :: post ∧ TrimSpace part = "" ∧
    Forall (fun q => TrimSpace q ≠ "" ∧ recognised env cfg q = true) pre.
Proof.
  revert requirement. induction parts as [|p rest IH]; intros requirement; cbn [requirementLoop].
  - split; [discriminate|]. intros (_ & _ & pre & part & post & H & _).
    destruct pre; discriminate.
  - destruct (String.eqb_spec (TrimSpace p) "") as [Hp|Hp].
    + split.
      * intros [= <- <-]. repeat split. exists [], p, rest. repeat split; auto.
      * intros (-> & -> & _). reflexivity.
    + assert (Hstep :
                (∃ pre part post,
                   rest = pre ++ part :: post ∧ TrimSpace part = "" ∧
                   Forall (fun q => TrimSpace q ≠ "" ∧ recognised env cfg q = true) pre) →
                recognised env cfg p = true →
                ∃ pre part post,
                  p :: rest = pre ++ part :: post ∧ TrimSpace part = "" ∧
                  Forall (fun q => TrimSpace q ≠ "" ∧ recognised env cfg q = true) pre).
      { intros (pre & part & post & -> & Hpart & Hpre) Hrec.
        exists (p :: pre), part, post. repeat split; auto. }
      assert (Hback :
                (∃ pre part post,
                   p :: rest = pre ++ part :: post ∧ TrimSpace part = "" ∧
                   Forall (fun q => TrimSpace q ≠ "" ∧ recognised env cfg q = true) pre) →
                recognised env cfg p = true ∧
                ∃ pre part post,
                  rest = pre ++ part :: post ∧ TrimSpace part = "" ∧
                  Forall (fun q => TrimSpace q ≠ "" ∧ recognised env cfg q = true) pre).
      { intros (pre & part & post & Heq & Hpart & Hpre).
        destruct pre as [|q pre]; cbn in Heq; injection Heq as H1 H2; subst.
        - contradiction.
        - inversion Hpre as [|? ? [_ Hq] Hpre']; subst. split; [exact Hq|].
          exists pre, part, post. auto. }
      unfold recognised in Hstep, Hback.
      destruct (needsSource (licenseTypeOf env cfg (TrimSpace p))) eqn:Hs.
      * rewrite IH. split.
        -- intros (-> & -> & Hex). repeat split. apply (Hstep Hex). reflexivity.
        -- intros (-> & -> & Hex). repeat split. apply Hback in Hex as [_ Hex]. exact Hex.
      * destruct (needsNotice (licenseTypeOf env cfg (TrimSpace p))) eqn:Hn.
        -- rewrite IH. split.
           ++ intros (-> & -> & Hex). repeat split. apply (Hstep Hex). reflexivity.
           ++ intros (-> & -> & Hex). repeat split. apply Hback in Hex as [_ Hex]. exact Hex.
        -- split; [discriminate|]. intros (_ & _ & Hex).
           apply Hback in Hex as [Hrec _]. discriminate.
Qed.

(** X1: requirementType returns an error exactly when some part of the
    license expression is empty after trimming and every part before it is
    non-empty and has an accepted license type; the requirement is then
    Unknown and the error is "Empty SPDX ID" with the whole expression.  A
    part with an unrecognized type before the empty one makes the function
    return Unknown without error. *)
Theorem requirementType_error license r e :
  requirementType env license cfg = (r, Some e) ↔
  r = Unknown ∧ e = Errorf "Empty SPDX ID in %q" [ArgS license] ∧
  ∃ pre part post,
    Split license "/" = pre ++ part :: post ∧ TrimSpace part = "" ∧
    Forall (fun q => TrimSpace q ≠ "" ∧ recognised env cfg q = true) pre.
Proof. apply requirementLoop_error. Qed.

Lemma applyOverrides_app pre post spdxId licenseType :
  applyOverrides (pre ++ post) spdxId licenseType =
    applyOverrides post spdxId (applyOverrides pre spdxId licenseType).
Proof.
  revert licenseType. induction pre as [|o pre IH]; intros licenseType; [reflexivity|].
  cbn [applyOverrides app]. apply IH.
Qed.

Lemma applyOverrides_other overrides spdxId licenseType :
  Forall (fun o => config.SpdxId o ≠ spdxId) overrides →
  applyOverrides overrides spdxId licenseType = licenseType.
Proof.
  intros H. revert licenseType. induction H as [|o rest Ho _ IH]; intros licenseType;
    [reflexivity|].
  cbn [applyOverrides]. apply String.eqb_neq in Ho. rewrite Ho. apply IH.
Qed.

(** X2: the license type of an SPDX ID is the type of the last override
    with this SPDX ID, and the type given by licenseclassifier.LicenseType
    when no override has it. *)
Theorem override_last_wins spdxId pre o post :
  config.Overrides cfg = pre ++ o :: post →
  config.SpdxId o = spdxId →
  Forall (fun o' => config.SpdxId o' ≠ spdxId) post →
  licenseTypeOf env cfg spdxId = config.Type_ o ∧
  (∀ cfg', Forall (fun o' => config.SpdxId o' ≠ spdxId) (config.Overrides cfg') →
           licenseTypeOf env cfg' spdxId = LicenseType env spdxId).
Proof.
  intros Hcfg Ho Hpost. split.
  - unfold licenseTypeOf. rewrite Hcfg, applyOverrides_app. cbn [applyOverrides].
    apply String.eqb_eq in Ho. rewrite Ho. apply applyOverrides_other. exact Hpost.
  - intros cfg' H. unfold licenseTypeOf. apply applyOverrides_other. exact H.
Qed.

End RequirementTypeMore.

(** ** More on complyWithLicenses *)

Section ComplyMore.

Import cmd Spec Props.

Variable env : Env.
Variable cfg : config.GoModLicensesConfig.
Variable moduleDict : gmap string gocli.Module.
Variables licensePath srcPath : string.

Lemma writesTo_app file evs1 evs2 :
  writesTo file (evs1 ++ evs2) = writesTo file evs1 ++ writesTo file evs2.
Proof.
  induction evs1 as [|e evs1 IH]; [reflexivity|]. cbn [app writesTo].
  destruct e; try exact IH. destruct (String.eqb file0 file); [cbn; f_equal|]; exact IH.
Qed.

Lemma writesTo_copies file evs :
  Forall (fun e => isCopy e = true) evs → writesTo file evs = [].
Proof.
  induction 1 as [|e evs He _ IH]; [reflexivity|]. destruct e; try discriminate. exact IH.
Qed.

(** What a row that lets the loop go on has done. *)
Lemma complyRecord_next record bad w w' bad' :
  complyRecord env cfg moduleDict licensePath srcPath record bad w = (w', Next bad') →
  ∃ req copied,
    requirementType env (dict.Type_ record) (config.Licenses cfg) = (req, None) ∧
    bad' = (if isUnknown req then bad ++ [record] else bad) ∧
    Forall (fun e => isCopy e = true) copied ∧
    ((bad' ≠ [] ∧ trace w' = trace w ++ copied) ∨
     (bad' = [] ∧ ∃ licenseContent,
        SmartDownload env (dict.DownaloadUrl record) = Ok licenseContent ∧
        trace w' = trace w ++ copied
                   ++ map (EvWrite licensePath) (section record licenseContent)
                   ++ [EvLog Info "%s: Downloaded %s"
                         [dict.Module record; dict.DownaloadUrl record]])).
Proof.
  intros H. unfold complyRecord in H.
  destruct (requirementType env (dict.Type_ record) (config.Licenses cfg))
    as [req [err|]] eqn:Hreq; [discriminate|].
  assert (Htail : ∀ w1 bad1 copied,
    trace w1 = trace w ++ copied →
    Forall (fun e => isCopy e = true) copied →
    (if 0 <? length bad1 then (w1, Next bad1)
     else
       match SmartDownload env (dict.DownaloadUrl record) with
       | Err err => (w1, Stop (Return (Some (Wrapf "%s" [ArgS (dict.Module record)] err))))
       | Ok licenseContent =>
           match writeLicense env licensePath record licenseContent w1 with
           | (w2, Some err) => (w2, Stop (Exit 1 err))
           | (w2, None) =>
               (emit (EvLog Info "%s: Downloaded %s"
                        [dict.Module record; dict.DownaloadUrl record]) w2, Next bad1)
           end
       end) = (w', Next bad') →
    bad' = bad1 ∧
    ((bad' ≠ [] ∧ trace w' = trace w ++ copied) ∨
     (bad' = [] ∧ ∃ licenseContent,
        SmartDownload env (dict.DownaloadUrl record) = Ok licenseContent ∧
        trace w' = trace w ++ copied
                   ++ map (EvWrite licensePath) (section record licenseContent)
                   ++ [EvLog Info "%s: Downloaded %s"
                         [dict.Module record; dict.DownaloadUrl record]]))).
  { intros w1 bad1 copied Htr Hcop H1. destruct bad1 as [|b bad1]; cbn [length Nat.ltb Nat.leb] in H1.
    - destruct (SmartDownload env (dict.DownaloadUrl record)) as [content|e]; [|discriminate].
      unfold writeLicense in H1. destruct (WriteErr env licensePath); [discriminate|].
      injection H1 as <- <-. split; [reflexivity|]. right. split; [reflexivity|].
      exists content. split; [reflexivity|]. cbn. rewrite Htr, <- !app_assoc. reflexivity.
    - injection H1 as <- <-. split; [reflexivity|]. left. split; [discriminate|exact Htr]. }
  destruct req; cbn [isUnknown].
  - (* Unknown *)
    apply (Htail w (bad ++ [record]) []) in H as [-> Hw];
      [|rewrite app_nil_r; reflexivity|constructor].
    exists Unknown, []. repeat split; auto.
  - (* RedistributeSource *)
    destruct (moduleDict !! dict.Module record) as [moduleRecord|]; [|discriminate].
    destruct (String.eqb (gocli.Dir moduleRecord) ""); [discriminate|].
    unfold copySrc in H.
    destruct (Copy_cases env (gocli.Dir moduleRecord) (Join srcPath (dict.Module record))
                {| copy.AddPermission := permFileCurrentUser;
                   copy.Skip := fun src => Ok (HasSuffix src ".git") |} w)
      as [(c & E)|(e & E)]; rewrite E in H; [|discriminate].
    apply (Htail _ bad [EvCopy (gocli.Dir moduleRecord) (Join srcPath (dict.Module record)) c])
      in H as [-> Hw]; [|reflexivity|repeat constructor].
    exists RedistributeSource, [EvCopy (gocli.Dir moduleRecord) (Join srcPath (dict.Module record)) c].
    repeat split; auto.
  - (* RedistributeNotice *)
    apply (Htail w bad []) in H as [-> Hw]; [|rewrite app_nil_r; reflexivity|constructor].
    exists RedistributeNotice, []. repeat split; auto.
Qed.

(** What a row that ends the loop has done. *)
Lemma complyRecord_stop record bad w w' out :
  complyRecord env cfg moduleDict licensePath srcPath record bad w = (w', Stop out) →
  (∃ copied, trace w' = trace w ++ copied ∧ Forall (fun e => isCopy e = true) copied) ∧
  (∀ e, out = Return (Some e) → names e (dict.Module record) = true) ∧
  (out ≠ Return None) ∧
  (bad ≠ [] → ∃ e, out = Return (Some e)).
Proof.
  intros H. unfold complyRecord in H.
  assert (Hnames : ∀ args cause,
            names (Wrapf "%s" (ArgS (dict.Module record) :: args) cause) (dict.Module record) = true).
  { intros. cbn. rewrite String.eqb_refl. reflexivity. }
  destruct (requirementType env (dict.Type_ record) (config.Licenses cfg))
    as [req [err|]] eqn:Hreq.
  { injection H as <- <-. split; [exists []; rewrite app_nil_r; split; [reflexivity|constructor]|].
    split; [|split; [discriminate|eauto]].
    intros e [= <-]. cbn. rewrite String.eqb_refl. reflexivity. }
  assert (Htail : ∀ w1 bad1 copied,
    trace w1 = trace w ++ copied →
    Forall (fun e => isCopy e = true) copied →
    (bad ≠ [] → bad1 ≠ []) →
    (if 0 <? length bad1 then (w1, Next bad1)
     else
       match SmartDownload env (dict.DownaloadUrl record) with
       | Err err => (w1, Stop (Return (Some (Wrapf "%s" [ArgS (dict.Module record)] err))))
       | Ok licenseContent =>
           match writeLicense env licensePath record licenseContent w1 with
           | (w2, Some err) => (w2, Stop (Exit 1 err))
           | (w2, None) =>
               (emit (EvLog Info "%s: Downloaded %s"
                        [dict.Module record; dict.DownaloadUrl record]) w2, Next bad1)
           end
       end) = (w', Stop out) →
    (∃ copied, trace w' = trace w ++ copied ∧ Forall (fun e => isCopy e = true) copied) ∧
    (∀ e, out = Return (Some e) → names e (dict.Module record) = true) ∧
    (out ≠ Return None) ∧
    (bad ≠ [] → ∃ e, out = Return (Some e))).
  { intros w1 bad1 copied Htr Hcop Hne H1.
    destruct bad1 as [|b bad1]; cbn [length Nat.ltb Nat.leb] in H1; [|discriminate].
    destruct (SmartDownload env (dict.DownaloadUrl record)) as [content|e].
    - unfold writeLicense in H1. destruct (WriteErr env licensePath); [|discriminate].
      injection H1 as <- <-. split; [eauto|]. split; [discriminate|]. split; [discriminate|].
      intros Hb. destruct (Hne Hb). reflexivity.
    - injection H1 as <- <-. split; [eauto|]. split; [|split; [discriminate|eauto]].
      intros e0 [= <-]. apply Hnames. }
  assert (Hfail : ∀ e,
    names e (dict.Module record) = true →
    (w, Stop (Return (Some e))) = (w', Stop out) →
    (∃ copied, trace w' = trace w ++ copied ∧ Forall (fun e => isCopy e = true) copied) ∧
    (∀ e, out = Return (Some e) → names e (dict.Module record) = true) ∧
    (out ≠ Return None) ∧
    (bad ≠ [] → ∃ e, out = Return (Some e))).
  { intros e He [= <- <-]. split; [exists []; rewrite app_nil_r; split; [reflexivity|constructor]|].
    split; [intros e0 [= <-]; exact He|split; [discriminate|eauto]]. }
  destruct req.
  - apply (Htail w (bad ++ [record]) []) in H; auto; [rewrite app_nil_r; reflexivity|].
    intros _. destruct bad; discriminate.
  - destruct (moduleDict !! dict.Module record) as [moduleRecord|].
    2:{ eapply Hfail; [|exact H]. cbn. rewrite String.eqb_refl. reflexivity. }
    destruct (String.eqb (gocli.Dir moduleRecord) "").
    { eapply Hfail; [|exact H]. cbn. rewrite String.eqb_refl. reflexivity. }
    unfold copySrc in H.
    destruct (Copy_cases env (gocli.Dir moduleRecord) (Join srcPath (dict.Module record))
                {| copy.AddPermission := permFileCurrentUser;
                   copy.Skip := fun src => Ok (HasSuffix src ".git") |} w)
      as [(c & E)|(e & E)]; rewrite E in H.
    + apply (Htail _ bad [EvCopy (gocli.Dir moduleRecord) (Join srcPath (dict.Module record)) c])
        in H; auto.
    + eapply Hfail; [|exact H]. cbn. rewrite String.eqb_refl. reflexivity.
  - apply (Htail w bad []) in H; auto. rewrite app_nil_r. reflexivity.
Qed.


Lemma rejectedRow_req record req :
  requirementType env (dict.Type_ record) (config.Licenses cfg) = (req, None) →
  rejectedRow env cfg record = isUnknown req.
Proof. intros H. unfold rejectedRow. rewrite H. destruct req; reflexivity. Qed.

Lemma complyLoop_next info bad w w' bad' :
  complyLoop env cfg moduleDict licensePath srcPath info bad w = (w', Next bad') →
  bad' = bad ++ List.filter (rejectedRow env cfg) info.
Proof.
  revert bad w. induction info as [|record rest IH]; intros bad w H; cbn [complyLoop] in H.
  - injection H as <- <-. cbn. rewrite app_nil_r. reflexivity.
  - destruct (complyRecord env cfg moduleDict licensePath srcPath record bad w)
      as [w1 [bad1|out]] eqn:Hr; [|discriminate].
    apply complyRecord_next in Hr as (req & copied & Hreq & -> & _).
    apply IH in H. rewrite H. cbn [List.filter]. rewrite (rejectedRow_req _ _ Hreq).
    destruct (isUnknown req); [rewrite <- app_assoc|]; reflexivity.
Qed.


(** X4: once a row has been rejected, the rows after it add nothing to
    licenses.txt nor to any other file: their license text is not
    downloaded, although their sources are still copied. *)
Theorem no_text_after_rejection info bad w w' s file :
  bad ≠ [] →
  complyLoop env cfg moduleDict licensePath srcPath info bad w = (w', s) →
  writesTo file (trace w') = writesTo file (trace w).
Proof.
  revert bad w. induction info as [|record rest IH]; intros bad w Hbad H; cbn [complyLoop] in H.
  - injection H as <- <-. reflexivity.
  - destruct (complyRecord env cfg moduleDict licensePath srcPath record bad w)
      as [w1 [bad1|out]] eqn:Hr.
    + apply complyRecord_next in Hr as (req & copied & Hreq & Hb1 & Hcop & Hw).
      assert (Hne : bad1 ≠ []).
      { subst bad1. destruct (isUnknown req); [destruct bad; discriminate|exact Hbad]. }
      destruct Hw as [[_ Htr]|[Hnil _]]; [|contradiction].
      rewrite (IH bad1 w1 Hne H), Htr, writesTo_app, (writesTo_copies _ _ Hcop), app_nil_r.
      reflexivity.
    + injection H as <- <-.
      apply complyRecord_stop in Hr as ((copied & Htr & Hcop) & _).
      rewrite Htr, writesTo_app, (writesTo_copies _ _ Hcop), app_nil_r. reflexivity.
Qed.

(** X3: an error returned from the loop of complyWithLicenses over the rows
    names the module of one of the rows; the loop never returns a nil
    error before the last row. *)
Theorem row_error_names_module info bad w w' out :
  complyLoop env cfg moduleDict licensePath srcPath info bad w = (w', Stop out) →
  out ≠ Return None ∧
  ∀ e, out = Return (Some e) → ∃ record, In record info ∧ names e (dict.Module record) = true.
Proof.
  revert bad w. induction info as [|record rest IH]; intros bad w H; cbn [complyLoop] in H.
  - discriminate.
  - destruct (complyRecord env cfg moduleDict licensePath srcPath record bad w)
      as [w1 [bad1|out1]] eqn:Hr.
    + apply IH in H as [Hne Hnames]. split; [exact Hne|].
      intros e He. destruct (Hnames e He) as (r & Hin & Hn). exists r. split; [right|]; assumption.
    + injection H as <- <-. apply complyRecord_stop in Hr as (_ & Hnames & Hne & _).
      split; [exact Hne|]. intros e He. exists record. split; [left; reflexivity|auto].
Qed.

Lemma logBadLicenses_trace bad w :
  trace (logBadLicenses bad w) =
    trace w ++ map (fun r => EvLog Error "unknown license type" [dict.Module r; dict.Type_ r]) bad.
Proof.
  revert w. induction bad as [|r rest IH]; intros w; cbn [logBadLicenses map].
  - rewrite app_nil_r. reflexivity.
  - rewrite IH. cbn. rewrite <- app_assoc. reflexivity.
Qed.

(** X6: when the loop over the rows reaches the end, the rows kept as bad
    are exactly the rows whose requirement is Unknown, in the order of the
    rows; if there is one, complyWithLicenses logs one error per such row,
    in that order, and returns an error that carries their number. *)
Theorem rejected_rows_counted info w w1 bad :
  complyLoop env cfg moduleDict licensePath srcPath info [] w = (w1, Next bad) →
  bad = List.filter (rejectedRow env cfg) info ∧
  (bad ≠ [] →
   ∃ w2,
     finish env bad w1 =
       (w2, Return (Some (Errorf "%v modules has rejected licenses"
                            [ArgN (length (List.filter (rejectedRow env cfg) info))]))) ∧
     trace w2 =
       trace w1 ++
       map (fun r => EvLog Error "unknown license type" [dict.Module r; dict.Type_ r])
           (List.filter (rejectedRow env cfg) info)).
Proof.
  intros H. apply complyLoop_next in H. cbn in H. split; [exact H|].
  intros Hne. unfold finish. rewrite <- H.
  destruct bad as [|b bad]; [congruence|]. cbn [length Nat.ltb Nat.leb].
  eexists. split; [reflexivity|]. apply logBadLicenses_trace.
Qed.

End ComplyMore.

(** ** More on the scan *)

Section ScanMore.

Import Spec Props.

Variable env : Env.

Lemma ignoredDir_names name :
  index_bool ignoredDir name = true ↔
  name = "testdata" ∨ name = "node_modules" ∨ name = ".git".
Proof.
  unfold index_bool, ignoredDir. rewrite !lookup_insert, lookup_empty.
  repeat case_decide; subst; cbn; split; auto; try discriminate.
  intros [?|[?|?]]; congruence.
Qed.

Section Pruning.

Context {S : Type} (walkFn : filepath.WalkFunc S).

Hypothesis walkFn_symlink :
  ∀ path name st, walkFn path (Some (Symlink name)) None st = (st, None).
Hypothesis walkFn_ignored :
  ∀ path name perm entries st,
    index_bool ignoredDir name = true →
    walkFn path (Some (Dir name perm entries)) None st = (st, Some SkipDir).

Lemma walkNames_pruned path names st :
  filepath.walkNames walkFn (filepath.walk walkFn) path names st =
  filepath.walkNames walkFn (filepath.walk walkFn) path
    (List.filter (fun n => negb (pruned n)) names) st.
Proof.
  revert st. induction names as [|child rest IH]; intros st; [reflexivity|].
  destruct child as [cn cp|cn|cn cp ce|cn cp|cn]; cbn [List.filter pruned negb].
  - cbn [filepath.walkNames]. destruct (filepath.walk walkFn _ _ st) as [st' [err|]];
      [destruct (_ || _); [reflexivity|]|]; apply IH.
  - cbn [filepath.walkNames filepath.walk]. rewrite walkFn_symlink. apply IH.
  - destruct (index_bool ignoredDir cn) eqn:Hi; cbn [negb].
    + cbn [filepath.walkNames filepath.walk]. rewrite walkFn_ignored by exact Hi.
      cbn. apply IH.
    + cbn [filepath.walkNames].
      destruct (filepath.walk walkFn _ _ st) as [st' [err|]];
        [destruct (_ || _); [reflexivity|]|]; apply IH.
  - cbn [filepath.walkNames]. destruct (filepath.walk walkFn _ _ st) as [st' [err|]];
      [destruct (_ || _); [reflexivity|]|]; apply IH.
  - cbn [filepath.walkNames].
    destruct (walkFn _ None _ st) as [st' [err|]]; [destruct (isSkipDir err); [|reflexivity]|];
      apply IH.
Qed.

End Pruning.

Section Invariant.

Context {S : Type} (walkFn : filepath.WalkFunc S) (P : S → Prop).

Hypothesis walkFn_keeps :
  ∀ path info err st st' r, P st → walkFn path info err st = (st', r) → P st'.

Lemma walk_keeps info :
  ∀ path st st' r, P st → filepath.walk walkFn path info st = (st', r) → P st'.
Proof.
  induction info as [name perm|name|name perm entries IH|name perm|name]
    using node_induction; intros path st st' r HP H; cbn [filepath.walk] in H;
    try (eapply walkFn_keeps; eassumption).
  destruct (walkFn path (Some (Dir name perm entries)) None st) as [st1 [e1|]] eqn:H1.
  { injection H as <- <-. eapply walkFn_keeps; eassumption. }
  assert (HP1 : P st1) by (eapply walkFn_keeps; eassumption).
  clear H1 HP. revert st1 HP1 H.
  induction IH as [|child rest Hchild _ IHrest]; intros st1 HP1 H; cbn in H.
  { injection H as <- <-. exact HP1. }
  assert (Hrec : ∀ st0 st0' r0,
            P st0 →
            filepath.walk walkFn (Join path (Name child)) child st0 = (st0', r0) →
            match r0 with
            | Some err =>
                if negb (IsDir child) || negb (isSkipDir err) then (st0', Some err)
                else filepath.walkNames walkFn (filepath.walk walkFn) path rest st0'
            | None => filepath.walkNames walkFn (filepath.walk walkFn) path rest st0'
            end = (st', r) → P st').
  { intros st0 st0' r0 HP0 Hw Hr. pose proof (Hchild _ _ _ _ HP0 Hw) as HP0'.
    destruct r0 as [err|]; [|eauto].
    destruct (negb (IsDir child) || negb (isSkipDir err)); [|eauto].
    injection Hr as <- <-. exact HP0'. }
  destruct child as [cn cp|cn|cn cp ce|cn cp|cn].
  1-4: match type of H with
       | (let '(_, _) := ?c in _) = _ => destruct c as [st0' r0] eqn:Hw
       end; eapply Hrec; eassumption.
  destruct (walkFn (Join path (Name (Broken cn))) None
              (Some (ErrSys "lstat" (Join path (Name (Broken cn))))) st1)
    as [st0' [err|]] eqn:Hw.
  - pose proof (walkFn_keeps _ _ _ _ _ _ HP1 Hw) as HP0'.
    destruct (isSkipDir err); [eauto|]. injection H as <- <-. exact HP0'.
  - pose proof (walkFn_keeps _ _ _ _ _ _ HP1 Hw) as HP0'. eauto.
Qed.

Lemma Walk_keeps root st st' r :
  P st → filepath.Walk env root walkFn st = (st', r) → P st'.
Proof.
  unfold filepath.Walk. intros HP H.
  destruct (match Lstat env root with
            | Some info => filepath.walk walkFn root info st
            | None => walkFn root None (Some (ErrSys "lstat" root)) st
            end) as [st1 r1] eqn:H1.
  assert (HP1 : P st1).
  { destruct (Lstat env root); [eapply walk_keeps|eapply walkFn_keeps]; eassumption. }
  destruct r1 as [e|]; [destruct (isSkipDir e)|]; injection H as <- <-; exact HP1.
Qed.

End Invariant.

Lemma walkFn1_classified path info err lics lics' r :
  Forall (classified1 env) lics →
  licenses1.walkFn env path info err lics = (lics', r) → Forall (classified1 env) lics'.
Proof.
  intros HP H. unfold licenses1.walkFn in H.
  destruct err; [injection H as <- <-; exact HP|].
  destruct info as [info|]; [|injection H as <- <-; exact HP].
  destruct (IsSymlink info); [injection H as <- <-; exact HP|].
  destruct (IsDir info).
  { destruct (index_bool ignoredDir (Name info)); injection H as <- <-; exact HP. }
  destruct (negb (licenseRegexp env (Name info))); [injection H as <- <-; exact HP|].
  destruct (Identify env path) as [[id t]|e] eqn:Hid; injection H as <- <-; [|exact HP].
  apply Forall_app. split; [exact HP|]. constructor; [|constructor].
  split; [exists t; exact Hid|reflexivity].
Qed.

Lemma walkFn2_classified m remote path info err lics lics' r :
  Forall (classified2 env m remote) lics →
  licenses2.walkFn env m remote path info err lics = (lics', r) →
  Forall (classified2 env m remote) lics'.
Proof.
  intros HP H. unfold licenses2.walkFn in H.
  destruct err; [injection H as <- <-; exact HP|].
  destruct info as [info|]; [|injection H as <- <-; exact HP].
  destruct (IsSymlink info); [injection H as <- <-; exact HP|].
  destruct (IsDir info).
  { destruct (index_bool ignoredDir (Name info)); injection H as <- <-; exact HP. }
  destruct (negb (licenseRegexp env (Name info))); [injection H as <- <-; exact HP|].
  destruct (Identify env path) as [[id t]|e] eqn:Hid; [|injection H as <- <-; exact HP].
  destruct (Rel env (gocli.Dir m) path) as [rel|e] eqn:Hrel; injection H as <- <-; [|exact HP].
  apply Forall_app. split; [exact HP|]. constructor; [|constructor].
  exists path. repeat split; assumption.
Qed.

(** X7: in both revisions of the scan, the walk of the entries of a
    directory passes over symbolic links and over readable directories
    named testdata, node_modules or .git without looking inside: the
    findings and the error are those of the walk without these entries.  A
    directory whose entries cannot be read ends the walk with the error of
    the read, whatever its name. *)
Theorem walk_prunes_ignored :
  (∀ name, pruned (Symlink name) = true) ∧
  (∀ name perm entries,
     pruned (Dir name perm entries) = true ↔
     name = "testdata" ∨ name = "node_modules" ∨ name = ".git") ∧
  (∀ path names lics,
     filepath.walkNames (licenses1.walkFn env) (filepath.walk (licenses1.walkFn env))
       path names lics =
     filepath.walkNames (licenses1.walkFn env) (filepath.walk (licenses1.walkFn env))
       path (List.filter (fun n => negb (pruned n)) names) lics) ∧
  (∀ m remote path names lics,
     filepath.walkNames (licenses2.walkFn env m remote)
       (filepath.walk (licenses2.walkFn env m remote)) path names lics =
     filepath.walkNames (licenses2.walkFn env m remote)
       (filepath.walk (licenses2.walkFn env m remote))
       path (List.filter (fun n => negb (pruned n)) names) lics) ∧
  (∀ m remote path name perm rest lics1 lics2,
     filepath.walkNames (licenses1.walkFn env) (filepath.walk (licenses1.walkFn env))
       path (DirUnreadable name perm :: rest) lics1
       = (lics1, Some (ErrSys "readdirnames" (Join path name))) ∧
     filepath.walkNames (licenses2.walkFn env m remote)
       (filepath.walk (licenses2.walkFn env m remote))
       path (DirUnreadable name perm :: rest) lics2
       = (lics2, Some (ErrSys "readdirnames" (Join path name)))).
Proof.
  split; [reflexivity|]. split; [intros; apply ignoredDir_names|].
  split; [|split].
  - intros. apply walkNames_pruned.
    + reflexivity.
    + intros p name perm entries st Hi. unfold licenses1.walkFn. cbn. rewrite Hi. reflexivity.
  - intros. apply walkNames_pruned.
    + reflexivity.
    + intros p name perm entries st Hi. unfold licenses2.walkFn. cbn. rewrite Hi. reflexivity.
  - intros. split; reflexivity.
Qed.

(** X8: every finding of a scan, also of a scan that ends with an error,
    comes from a file that the classifier identified.  In the first
    revision it carries the identifier of that file, its path and no URL;
    in the second it carries identifier and type of the file, its path
    relative to the directory of the module and the URL that the remote
    repository gives for that relative path. *)
Theorem findings_are_classified (m : gocli.Module) :
  (∀ res err, licenses1.module env m = (res, err) →
              Forall (classified1 env) (licenses1.Licenses res)) ∧
  (∀ remote w res err w',
     ModuleInfo env (gocli.Path m) (remoteVersion m) = Ok remote →
     licenses2.module env m w = (res, err, w') →
     Forall (classified2 env m remote) (Licenses res)).
Proof.
  split.
  - intros res err H. unfold licenses1.module in H.
    destruct (String.eqb (gocli.Dir m) ""); [injection H as <- <-; constructor|].
    destruct (filepath.Walk env (gocli.Dir m) (licenses1.walkFn env) []) as [lics werr] eqn:Hw.
    assert (Forall (classified1 env) lics).
    { eapply (Walk_keeps (licenses1.walkFn env)); [|constructor|exact Hw].
      intros; eapply walkFn1_classified; eassumption. }
    destruct (Nat.eqb (length lics) 0); injection H as <- <-; assumption.
  - intros remote w res err w' Hinfo H. unfold licenses2.module in H.
    destruct (String.eqb (gocli.Dir m) ""); [injection H as <- <- <-; constructor|].
    unfold remoteVersion in Hinfo.
    destruct (String.eqb (gocli.Version m) ""); rewrite Hinfo in H;
      (destruct (filepath.Walk env (gocli.Dir m) (licenses2.walkFn env m remote) [])
         as [lics werr] eqn:Hw;
       assert (Forall (classified2 env m remote) lics)
         by (eapply (Walk_keeps (licenses2.walkFn env m remote)); [|constructor|exact Hw];
             intros; eapply walkFn2_classified; eassumption);
       destruct (Nat.eqb (length lics) 0); injection H as <- <- <-; assumption).
Qed.

End ScanMore.

(** ** The scan of all dependencies, and the commands that only read it *)

Section ModulesMore.

Import Spec Props.

Variable env : Env.

Lemma module2_ok m w r w' :
  licenses2.module env m w = (r, None, w') →
  Mod r = m ∧ Licenses r ≠ [] ∧ gocli.Dir m ≠ "".
Proof.
  intros H. unfold licenses2.module in H.
  destruct (String.eqb_spec (gocli.Dir m) "") as [Hd|Hd]; [discriminate|].
  destruct (String.eqb (gocli.Version m) "");
    (destruct (ModuleInfo env _ _) as [remote|e]; [|discriminate];
     destruct (filepath.Walk env (gocli.Dir m) (licenses2.walkFn env m remote) [])
       as [lics werr];
     destruct (Nat.eqb (length lics) 0) eqn:Hlen; [discriminate|];
     injection H as <- _ _; cbn; repeat split; auto;
     intros ->; discriminate).
Qed.

Lemma module2_trace m w r e w' :
  licenses2.module env m w = (r, e, w') →
  saveDir w' = saveDir w ∧
  trace w' = trace w ++
    (if negb (String.eqb (gocli.Dir m) "") && String.eqb (gocli.Version m) ""
     then [EvLog Warning licenses2.emptyVersionWarning [gocli.Path m]] else []).
Proof.
  intros H. unfold licenses2.module in H.
  destruct (String.eqb (gocli.Dir m) "");
    [injection H as _ _ <-; cbn; rewrite app_nil_r; auto|].
  destruct (String.eqb (gocli.Version m) "");
    (destruct (ModuleInfo env _ _) as [remote|e0];
     [destruct (filepath.Walk env (gocli.Dir m) (licenses2.walkFn env m remote) [])
        as [lics werr];
      destruct (Nat.eqb (length lics) 0)|];
     injection H as _ _ <-; cbn; rewrite ?app_nil_r; auto).
Qed.

Lemma scanAll2_spec mods res0 w res err w' :
  licenses2.scanAll env mods res0 w = (res, err, w') →
  (err = None →
   map Mod res = map Mod res0 ++ mods ∧
   (Forall (fun r => Licenses r ≠ []) res0 → Forall (fun r => Licenses r ≠ []) res)) ∧
  (∀ e, err = Some e →
     ∃ pre m post w0,
       mods = pre ++ m :: post ∧ map Mod res = map Mod res0 ++ pre ∧
       (licenses2.module env m w0).1.2 = Some e) ∧
  saveDir w' = saveDir w ∧
  ∃ evs, trace w' = trace w ++ evs ∧ Forall versionWarning evs.
Proof.
  revert res0 w. induction mods as [|m rest IH]; intros res0 w H; cbn [licenses2.scanAll] in H.
  - injection H as <- <- <-. split; [intros _; rewrite app_nil_r; auto|].
    split; [discriminate|]. split; [reflexivity|]. exists []. rewrite app_nil_r. auto.
  - destruct (licenses2.module env m w) as [[r [e|]] w1] eqn:Hm.
    + injection H as <- <- <-. apply module2_trace in Hm as Ht. destruct Ht as [Hs Ht].
      split; [discriminate|]. split.
      * intros e0 [= <-]. exists [], m, rest, w. rewrite Hm, app_nil_r. auto.
      * split; [exact Hs|]. eexists. split; [exact Ht|].
        destruct (_ && _); repeat constructor. eexists. reflexivity.
    + apply module2_trace in Hm as Ht. destruct Ht as [Hs Ht].
      apply module2_ok in Hm as (Hmod & Hne & _).
      apply IH in H as (Hok & Herr & Hs' & evs & Ht' & Hev). split; [|split; [|split]].
      * intros He. destruct (Hok He) as [Hmap Hall]. split.
        -- rewrite Hmap, map_app, <- app_assoc. cbn. rewrite Hmod. reflexivity.
        -- intros H0. apply Hall. apply Forall_app. split; [exact H0|]. repeat constructor.
           exact Hne.
      * intros e He. destruct (Herr e He) as (pre & m' & post & w0 & -> & Hmap & Hm').
        exists (m :: pre), m', post, w0. split; [reflexivity|]. split; [|exact Hm'].
        rewrite Hmap, map_app, <- app_assoc. cbn. rewrite Hmod. reflexivity.
      * congruence.
      * eexists. split; [rewrite Ht', Ht, <- app_assoc; reflexivity|].
        apply Forall_app. split; [|exact Hev].
        destruct (_ && _); repeat constructor. eexists. reflexivity.
Qed.


Lemma Modules_trace importPaths w res err w' :
  licenses2.Modules env importPaths w = (res, err, w') →
  saveDir w' = saveDir w ∧ ∃ evs, trace w' = trace w ++ evs ∧ Forall versionWarning evs.
Proof.
  intros H. unfold licenses2.Modules in H.
  destruct (ListDeps env importPaths) as [mods|e0].
  - apply scanAll2_spec in H as (_ & _ & Hs & Hev). auto.
  - injection H as _ _ <-. split; [reflexivity|]. exists []. rewrite app_nil_r. auto.
Qed.

(** X10: the scan of all dependencies leaves the save path as it is and its
    only effects are warnings about modules without version, one for each
    scanned module with a directory and no version: it writes, copies and
    removes nothing. *)
Theorem Modules_only_warns importPaths w res err w' :
  licenses2.Modules env importPaths w = (res, err, w') →
  saveDir w' = saveDir w ∧
  (∃ evs, trace w' = trace w ++ evs ∧ Forall versionWarning evs) ∧
  (∀ m w0 r e w1,
     licenses2.module env m w0 = (r, e, w1) →
     trace w1 = trace w0 ++
       (if negb (String.eqb (gocli.Dir m) "") && String.eqb (gocli.Version m) ""
        then [EvLog Warning licenses2.emptyVersionWarning [gocli.Path m]] else [])).
Proof.
  intros H. apply Modules_trace in H as [Hs Hev]. split; [exact Hs|]. split; [exact Hev|].
  intros m w0 r e w1 Hm. apply module2_trace in Hm as [_ Ht]. exact Ht.
Qed.

Lemma checkLicenses_spec modPath lics :
  match check.checkLicenses modPath lics with
  | Some (p, l) => p = modPath ∧ In l lics ∧ Type_ l = Forbidden
  | None => Forall (fun l => Type_ l ≠ Forbidden) lics
  end.
Proof.
  induction lics as [|l rest IH]; cbn [check.checkLicenses]; [constructor|].
  destruct (decide (Type_ l = Forbidden)) as [Hf|Hf].
  - repeat split; [left; reflexivity|exact Hf].
  - destruct (check.checkLicenses modPath rest) as [[p l']|].
    + destruct IH as (-> & Hin & Hf'). repeat split; [right; exact Hin|exact Hf'].
    + constructor; assumption.
Qed.

Lemma checkModules_spec mods :
  match check.checkModules mods with
  | Some (p, l) =>
      ∃ m, In m mods ∧ p = gocli.Path (Mod m) ∧ In l (Licenses m) ∧ Type_ l = Forbidden
  | None => Forall (fun m => ¬ hasForbidden m) mods
  end.
Proof.
  induction mods as [|m rest IH]; cbn [check.checkModules]; [constructor|].
  pose proof (checkLicenses_spec (gocli.Path (Mod m)) (Licenses m)) as Hl.
  destruct (check.checkLicenses (gocli.Path (Mod m)) (Licenses m)) as [[p l]|].
  - destruct Hl as (-> & Hin & Hf). exists m. repeat split; auto. left. reflexivity.
  - destruct (check.checkModules rest) as [[p l]|].
    + destruct IH as (m' & Hin & Hp & Hl' & Hf). exists m'. repeat split; auto. right. exact Hin.
    + constructor; [|exact IH]. unfold hasForbidden. intros Hex.
      apply List.Exists_exists in Hex as (l & Hin & Hf).
      rewrite List.Forall_forall in Hl. exact (Hl l Hin Hf).
Qed.

(** X11: once the dependencies have been scanned, the check command ends
    the process with status 1 exactly when some license of some module has
    the type Forbidden, after printing that license with its module to
    stderr; otherwise it returns without error and prints nothing.  No
    other license type, Unknown and Restricted included, fails the
    check. *)
Theorem check_rejects_forbidden_only args w mods w' :
  NewClassifierErr env = None →
  licenses2.Modules env args w = (mods, None, w') →
  (Exists hasForbidden mods →
   ∃ m l, In m mods ∧ In l (Licenses m) ∧ Type_ l = Forbidden ∧
          check.checkMain env args w =
            (emit (EvWrite check.stderr (check.forbiddenText (gocli.Path (Mod m)) l)) w',
             Exit 1 (check.forbidden (gocli.Path (Mod m)) l))) ∧
  (¬ Exists hasForbidden mods → check.checkMain env args w = (w', Return None)).
Proof.
  intros Hcl Hmods. unfold check.checkMain. rewrite Hcl, Hmods.
  pose proof (checkModules_spec mods) as Hc.
  destruct (check.checkModules mods) as [[p l]|]; split.
  - intros _. destruct Hc as (m & Hin & -> & Hl & Hf). exists m, l. auto.
  - intros Hno. destruct Hc as (m & Hin & _ & Hl & Hf). destruct Hno.
    apply List.Exists_exists. exists m. split; [exact Hin|].
    apply List.Exists_exists. exists l. auto.
  - intros Hex. apply List.Exists_exists in Hex as (m & Hin & Hf).
    rewrite List.Forall_forall in Hc. destruct (Hc m Hin Hf).
  - reflexivity.
Qed.

Lemma printLibraries_error libs w w' e :
  csv.printLibraries env libs w = (w', Some e) → WriteErr env csv.stdout = Some e.
Proof.
  revert w. induction libs as [|lib rest IH]; intros w H; cbn [csv.printLibraries] in H;
    [discriminate|].
  destruct (csv.libraryFields env lib w) as [w1 [[name url] license]].
  unfold csv.WriteString in H at 1.
  destruct (WriteErr env csv.stdout) as [e0|] eqn:Hw; [congruence|].
  apply IH in H. congruence.
Qed.

(** X12: the csv command that lists libraries fails only when the
    classifier cannot be created, when the libraries cannot be listed or
    when a write to stdout fails: no failure to resolve a module, to
    identify a license or to make a path relative ends it. *)
Theorem csvMain_errors args w w' e :
  csv.csvMain env args w = (w', Some e) →
  NewClassifierErr env = Some e ∨ Libraries env args = Err e ∨ WriteErr env csv.stdout = Some e.
Proof.
  unfold csv.csvMain. intros H.
  destruct (NewClassifierErr env) as [e0|]; [left; congruence|].
  destruct (Libraries env args) as [libs|e0]; [|right; left; congruence].
  right. right. eapply printLibraries_error. exact H.
Qed.

Lemma outputOf_warnings evs : Forall versionWarning evs → outputOf evs = [].
Proof.
  induction 1 as [|e evs (p & ->) _ IH]; [reflexivity|]. exact IH.
Qed.

Lemma printLicenses_error modPath lics w w' e :
  csv.printLicenses env modPath lics w = (w', Some e) → WriteErr env csv.stdout = Some e.
Proof.
  revert w. induction lics as [|l rest IH]; intros w H; cbn [csv.printLicenses] in H;
    [discriminate|].
  unfold csv.WriteString in H at 1.
  destruct (WriteErr env csv.stdout) as [e0|] eqn:Hw; [congruence|].
  apply IH in H. congruence.
Qed.

Lemma printModules_spec mods w w' r :
  csv.printModules env mods w = (w', r) →
  (r = None →
   outputOf (trace w') =
     outputOf (trace w) ++
     flat_map (fun m => map (fun l => csv.row (gocli.Path (Mod m)) (URL l) (ID l)) (Licenses m))
              mods) ∧
  (∀ e, r = Some e → WriteErr env csv.stdout = Some e).
Proof.
  revert w. induction mods as [|m rest IH]; intros w H; cbn [csv.printModules] in H.
  - injection H as <- <-. split; [intros _; cbn; rewrite app_nil_r; reflexivity|discriminate].
  - destruct (csv.printLicenses env (gocli.Path (Mod m)) (Licenses m) w) as [w1 [e|]] eqn:Hl.
    + injection H as <- <-. split; [discriminate|]. intros e0 [= <-].
      eapply printLicenses_error. exact Hl.
    + apply printLicenses_output in Hl. apply IH in H as [Hok Herr]. split; [|exact Herr].
      intros Hr. rewrite (Hok Hr), Hl. cbn [flat_map]. rewrite <- app_assoc. reflexivity.
Qed.

(** X13: the csv command that lists the licenses of modules prints nothing
    unless the scan of all dependencies succeeds; when it succeeds and
    stdout can be written, it prints one row for every license of every
    module, in the order of the modules and of their licenses.  It fails
    only when the classifier cannot be created, when the scan fails or when
    a write to stdout fails. *)
Theorem csvMainModules_output args w w' r :
  csv.csvMainModules env args w = (w', r) →
  (r = None →
   ∃ mods w1,
     licenses2.Modules env args w = (mods, None, w1) ∧
     outputOf (trace w') =
       outputOf (trace w) ++
       flat_map (fun m => map (fun l => csv.row (gocli.Path (Mod m)) (URL l) (ID l))
                              (Licenses m)) mods) ∧
  (∀ e, r = Some e →
     NewClassifierErr env = Some e ∨
     ((licenses2.Modules env args w).1.2 = Some e ∧ outputOf (trace w') = outputOf (trace w)) ∨
     WriteErr env csv.stdout = Some e).
Proof.
  unfold csv.csvMainModules. intros H.
  destruct (NewClassifierErr env) as [e0|].
  { injection H as <- <-. split; [discriminate|]. intros e [= <-]. left. reflexivity. }
  destruct (licenses2.Modules env args w) as [[mods [e0|]] w1] eqn:Hm.
  - injection H as <- <-. split; [discriminate|]. intros e [= <-]. right. left.
    split; [reflexivity|].
    apply Modules_trace in Hm as (_ & evs & Ht & Hev).
    rewrite Ht, outputOf_app, (outputOf_warnings _ Hev), app_nil_r. reflexivity.
  - apply Modules_trace in Hm as Hw. destruct Hw as (_ & evs & Ht & Hev).
    apply printModules_spec in H as [Hok Herr]. split.
    + intros Hr. exists mods, w1. split; [reflexivity|].
      rewrite (Hok Hr), Ht, outputOf_app, (outputOf_warnings _ Hev), app_nil_r. reflexivity.
    + intros e He. right. right. exact (Herr e He).
Qed.

End ModulesMore.

(** ** The modules of a Go binary *)

Section Deps.

Import Props.

Variable denv : deps.Env.

Lemma appendRefs_spec moduleRefs refs :
  deps.appendRefs moduleRefs refs =
    refs ++ map (fun ref => {| deps.ImportPath := ref.1; deps.Version := ref.2 |}) moduleRefs.
Proof.
  revert refs. induction moduleRefs as [|ref rest IH]; intros refs; cbn [deps.appendRefs map].
  - rewrite app_nil_r. reflexivity.
  - rewrite IH, <- app_assoc. reflexivity.
Qed.

(** X14: ListModulesInGoBinary succeeds exactly when the binary yields one
    build info, and then returns its module references in their order,
    path and version kept; every error it returns is wrapped with the path
    of the binary. *)
Theorem ListModulesInGoBinary_spec Path :
  (∀ refs,
     deps.ListModulesInGoBinary denv Path = Ok refs ↔
     ∃ buildInfo,
       deps.Extract denv Path = Ok [buildInfo] ∧
       refs = map (fun ref => {| deps.ImportPath := ref.1; deps.Version := ref.2 |})
                  (deps.ModuleRefs buildInfo)) ∧
  (∀ e, deps.ListModulesInGoBinary denv Path = Err e →
        ∃ cause, e = Wrapf "ListModulesInGoBinary(Path='%s')" [ArgS Path] cause).
Proof.
  unfold deps.ListModulesInGoBinary. split.
  - intros refs. destruct (deps.Extract denv Path) as [infos|e].
    + destruct infos as [|bi [|bi' infos]]; cbn.
      * split; [discriminate|]. intros (b & [=] & _).
      * rewrite appendRefs_spec. cbn. split.
        -- intros [= <-]. exists bi. auto.
        -- intros (b & [= <-] & ->). reflexivity.
      * split; [discriminate|]. intros (b & [=] & _).
    + split; [discriminate|]. intros (b & [=] & _).
  - intros e H. destruct (deps.Extract denv Path) as [infos|e0].
    + destruct (negb _); [|discriminate]. injection H as <-. eauto.
    + injection H as <-. eauto.
Qed.

Lemma joinRefs_spec dict refs modules result :
  deps.joinRefs dict refs modules = Ok result ↔
  ∃ joined, result = modules ++ joined ∧ Forall2 (matches dict) refs joined.
Proof.
  revert modules. induction refs as [|ref rest IH]; intros modules; cbn [deps.joinRefs].
  - split.
    + intros [= <-]. exists []. rewrite app_nil_r. split; [reflexivity|constructor].
    + intros (joined & -> & H). inversion H; subst. rewrite app_nil_r. reflexivity.
  - destruct (dict !! deps.ImportPath ref) as [localModule|] eqn:Hd.
    2:{ split; [discriminate|]. intros (joined & _ & H).
        inversion H as [|? ? ? ? (lm & Hl & _) _]; subst. congruence. }
    destruct (String.eqb_spec (deps.Dir localModule) "") as [Hdir|Hdir].
    { split; [discriminate|]. intros (joined & _ & H).
      inversion H as [|? ? ? ? (lm & Hl & Hne & _) _]; subst. congruence. }
    destruct (String.eqb_spec (deps.LocalVersion localModule) (deps.Version ref)) as [Hv|Hv];
      cbn [negb].
    2:{ split; [discriminate|]. intros (joined & _ & H).
        inversion H as [|? ? ? ? (lm & Hl & _ & Hv' & _) _]; subst. congruence. }
    rewrite IH. split.
    + intros (joined & -> & H). eexists (_ :: joined). split.
      * rewrite <- app_assoc. reflexivity.
      * constructor; [|exact H]. exists localModule. auto.
    + intros (joined & -> & H).
      inversion H as [|? m ? joined' (lm & Hl & _ & _ & ->) Hrest]; subst.
      exists joined'. split; [|exact Hrest].
      rewrite <- app_assoc. cbn. congruence.
Qed.

(** X15: once the local modules have been listed,
    JoinModuleRefWithLocalModules succeeds exactly when every reference is
    found in the dictionary of local modules, with a directory that is not
    empty and with the version of the reference; it then returns one module
    per reference, in the order of the references, with the import path and
    version of the reference and the directory of the local module.  In
    every other case it returns an error. *)
Theorem JoinModuleRefWithLocalModules_spec refs localModules :
  deps.ListModules denv = Ok localModules →
  (∀ modules,
     deps.JoinModuleRefWithLocalModules denv refs = Ok modules ↔
     Forall2 (matches (deps.BuildModuleDict denv localModules)) refs modules) ∧
  ((¬ ∃ modules, Forall2 (matches (deps.BuildModuleDict denv localModules)) refs modules) →
   ∃ e, deps.JoinModuleRefWithLocalModules denv refs = Err e).
Proof.
  intros Hl. unfold deps.JoinModuleRefWithLocalModules. rewrite Hl.
  assert (Hiff : ∀ modules,
            deps.joinRefs (deps.BuildModuleDict denv localModules) refs [] = Ok modules ↔
            Forall2 (matches (deps.BuildModuleDict denv localModules)) refs modules).
  { intros modules. rewrite joinRefs_spec. split.
    - intros (joined & -> & H). exact H.
    - intros H. exists modules. auto. }
  split; [exact Hiff|].
  intros Hno. destruct (deps.joinRefs _ refs []) as [modules|e] eqn:Hj; [|eauto].
  destruct Hno. exists modules. apply Hiff. reflexivity.
Qed.

End Deps.

(** ** More on copies *)

Section CopyMore.

Import Spec Props.

Variable env : Env.

(** X16: when copyNotices has copied the notice files of a directory
    without failure, it has made one copy for every entry of the directory
    that is not a directory and is named NOTICE, NOTICE.txt or NOTICE.md,
    in the order of the entries, to the file of the same name under the
    destination, and no other copy. *)
Theorem notice_files_copied dir destDir files w w' :
  main.copyNoticeFiles env dir destDir files w = (w', None) →
  (∀ f, isNoticeFile f = true ↔
        IsDir f = false ∧ (Name f = "NOTICE" ∨ Name f = "NOTICE.txt" ∨ Name f = "NOTICE.md")) ∧
  ∃ evs,
    trace w' = trace w ++ evs ∧
    Forall2 (fun f e => ∃ created,
               e = EvCopy (Join dir (Name f)) (Join destDir (Name f)) created)
            (List.filter isNoticeFile files) evs.
Proof.
  intros H. split.
  - intros f. unfold isNoticeFile, main.noticeRegexp.
    rewrite andb_true_iff, negb_true_iff, !orb_true_iff, !String.eqb_eq. tauto.
  - revert w H. induction files as [|f rest IH]; intros w H; cbn [main.copyNoticeFiles] in H.
    + injection H as <-. exists []. rewrite app_nil_r. split; [reflexivity|constructor].
    + cbn [List.filter]. fold (isNoticeFile f) in H. destruct (isNoticeFile f).
      * destruct (Copy_cases env (Join dir (Name f)) (Join destDir (Name f)) main.copyOpt w)
          as [(c & E)|(e & E)]; rewrite E in H; [|discriminate].
        apply IH in H as (evs & Ht & Hall). eexists (_ :: evs). split.
        -- rewrite Ht. cbn. rewrite <- app_assoc. reflexivity.
        -- constructor; [eauto|exact Hall].
      * apply IH. exact H.
Qed.

(** X17: when a source copy of the save commands succeeds, the tree it
    records at the destination is named by the last element of the
    destination path (not after its source), and every entry in it, at any
    depth, is a symbolic link or a file or directory that its user can
    read and write. *)
Theorem copied_tree_user_read_write src dest w w' :
  main.copySrc env src dest w = (w', None) →
  cmd.copySrc env src dest w = (w', None) ∧
  ∃ created,
    w' = emit (EvCopy src dest created) w ∧
    Name created = Base dest ∧
    Forall userReadWrite (allNodes created).
Proof.
  intros H. split; [exact H|]. unfold main.copySrc in H.
  apply Copy_records in H as (info & created & _ & Hs & ->).
  exists created. split; [reflexivity|].
  apply switchboard_nodes in Hs as [Hall Hname]. split; assumption.
Qed.

Lemma saveLoop_scanned savePath rank mods bad w w' bad' :
  main.saveLoop env savePath rank mods bad w = (w', Ok bad') →
  Forall (fun m => ∃ mod_, Scan env m = Ok mod_) mods.
Proof.
  revert bad w. induction mods as [|m rest IH]; intros bad w H; cbn [main.saveLoop] in H;
    [constructor|].
  destruct (Scan env m) as [mod_|e] eqn:Hs; [|discriminate].
  destruct (main.comply env savePath rank mod_ bad w) as [w1 [bad1|e]]; [|discriminate].
  constructor; [eauto|]. eapply IH. exact H.
Qed.

(** X18: when saveMain returns without error, the classifier was created,
    the dependencies were listed, every dependency was scanned without
    error and none of them has a governing license type that is rejected:
    a run with a rejected module never succeeds. *)
Theorem saveMain_success savePath overwriteSavePath rank args w w' :
  main.saveMain env savePath overwriteSavePath rank args w = (w', None) →
  NewClassifierErr env = None ∧
  ∃ mods,
    ListDeps env args = Ok mods ∧
    Forall (fun m => ∃ mod_, Scan env m = Ok mod_ ∧
                      actionOf (main.governingType rank (Licenses mod_)) ≠ Reject) mods.
Proof.
  unfold main.saveMain. intros H.
  destruct (NewClassifierErr env); [discriminate|]. split; [reflexivity|].
  destruct (ListDeps env args) as [mods|e]; [|discriminate]. exists mods. split; [reflexivity|].
  assert (Hall : ∀ w1, main.saveAll env savePath rank mods w1 = (w', None) →
            Forall (fun m => ∃ mod_, Scan env m = Ok mod_ ∧
                      actionOf (main.governingType rank (Licenses mod_)) ≠ Reject) mods).
  { intros w1 H1. unfold main.saveAll in H1.
    destruct (main.saveLoop env savePath rank mods ∅ w1) as [w2 [bad|e]] eqn:Hloop;
      [|discriminate].
    destruct (0 <? size bad) eqn:Hsz; [discriminate|].
    pose proof (saveLoop_scanned _ _ _ _ _ _ _ Hloop) as Hsc.
    destruct (saveLoop_recorded env _ _ _ _ _ _ _ Hloop) as [_ Hrec].
    rewrite List.Forall_forall in Hsc |- *. intros m Hin.
    destruct (Hsc m Hin) as (mod_ & Hs). exists mod_. split; [exact Hs|].
    intros Ha. pose proof (recorded_size _ _ (Hrec m mod_ Hin Hs Ha)). congruence. }
  destruct overwriteSavePath.
  - destruct (RemoveAll env savePath w) as [w1 [e|]]; [discriminate|].
    destruct (saveDir (removed w1)); try discriminate. eapply Hall. exact H.
  - destruct (saveDir w); try discriminate. eapply Hall. exact H.
Qed.

End CopyMore.

(** ** Order of the findings, roots that are passed over, exit statuses *)

Section Further.

Import Spec Props.

Variable env : Env.

(** The result of the loop is the first of the accumulator and the types
    met that has the greatest rank. *)
Lemma strictest_first rank (lics : list License) acc :
  ∃ pre post,
    acc :: map Type_ lics = pre ++ main.strictest rank lics acc :: post ∧
    Forall (fun t => rank t < rank (main.strictest rank lics acc)) pre.
Proof.
  revert acc. induction lics as [|l rest IH]; intros acc; cbn [main.strictest map].
  - exists [], []. split; [reflexivity|constructor].
  - unfold main.Stricter. destruct (Nat.ltb_spec (rank acc) (rank (Type_ l))) as [Hlt|Hge].
    + destruct (IH (Type_ l)) as (pre & post & Heq & Hpre).
      destruct (strictest_inv rank rest (Type_ l)) as (Hacc & _ & _).
      exists (acc :: pre), post. split; [cbn; rewrite Heq; reflexivity|].
      constructor; [lia|exact Hpre].
    + destruct (IH acc) as (pre & post & Heq & Hpre).
      destruct pre as [|a pre1]; cbn in Heq.
      * injection Heq as Hacc Hpost. exists [], (Type_ l :: post). split; [|constructor].
        cbn. rewrite <- Hacc, Hpost. reflexivity.
      * injection Heq as <- Hrest. inversion Hpre as [|? ? Ha Hpre1]; subst.
        exists (acc :: Type_ l :: pre1), post. split; [cbn; rewrite Hrest; reflexivity|].
        constructor; [exact Ha|]. constructor; [lia|exact Hpre1].
Qed.

(** X19: whatever numbering of the license families Stricter compares,
    the governing license type of a module is the first, among Unencumbered
    and the types of the findings in their order, that has the greatest
    rank: of two findings of equal rank the earlier one governs, since the
    accumulator is replaced by a strictly stricter type only.  The rank of
    the governing type does not depend on the order of the findings. *)
Theorem governingType_first_of_greatest_rank rank (lics lics' : list License) :
  (∃ pre post,
     Unencumbered :: map Type_ lics = pre ++ main.governingType rank lics :: post ∧
     Forall (fun t => rank t < rank (main.governingType rank lics)) pre ∧
     Forall (fun t => rank t ≤ rank (main.governingType rank lics)) post) ∧
  (Permutation lics lics' →
   rank (main.governingType rank lics) = rank (main.governingType rank lics')).
Proof.
  unfold main.governingType. split.
  - destruct (strictest_first rank lics Unencumbered) as (pre & post & Heq & Hpre).
    exists pre, post. split; [exact Heq|]. split; [exact Hpre|].
    destruct (strictest_inv rank lics Unencumbered) as (Hge & Hle & _).
    assert (Hall : Forall (fun t => rank t ≤ rank (main.strictest rank lics Unencumbered))
                     (Unencumbered :: map Type_ lics)).
    { constructor; [exact Hge|]. rewrite List.Forall_forall in Hle |- *.
      intros t Ht. apply in_map_iff in Ht as (l & <- & Hl). apply Hle. exact Hl. }
    rewrite Heq in Hall. apply Forall_app in Hall as [_ Hall].
    inversion Hall; subst. assumption.
  - intros Hperm.
    destruct (strictest_inv rank lics Unencumbered) as (Hge & Hle & Hmem).
    destruct (strictest_inv rank lics' Unencumbered) as (Hge' & Hle' & Hmem').
    rewrite List.Forall_forall in Hle, Hle'. apply Nat.le_antisymm.
    + destruct Hmem as [->|Hm]; [exact Hge'|].
      apply in_map_iff in Hm as (l & <- & Hl). apply Hle'.
      eapply Permutation_in; eassumption.
    + destruct Hmem' as [->|Hm]; [exact Hge|].
      apply in_map_iff in Hm as (l & <- & Hl). apply Hle.
      eapply Permutation_in; [symmetry; exact Hperm|exact Hl].
Qed.

(** X20: a module whose directory is a symbolic link, or a directory named
    testdata, node_modules or .git, is not scanned at all: both revisions
    of the scan return an error and no license, the first revision the
    error "license not found". *)
Theorem pruned_root_is_not_scanned (m : gocli.Module) (info : node) (w : World) :
  gocli.Dir m ≠ "" →
  Lstat env (gocli.Dir m) = Some info →
  pruned info = true →
  licenses1.module env m
    = ({| licenses1.Mod := m; licenses1.Licenses := [] |}, Some (scanError m licenseNotFound)) ∧
  ∃ err w',
    licenses2.module env m w = ({| Mod := m; Licenses := [] |}, Some (scanError m err), w').
Proof.
  intros Hdir Hls Hp. apply String.eqb_neq in Hdir.
  assert (H1 : ∃ r, filepath.walk (licenses1.walkFn env) (gocli.Dir m) info [] = ([], r) ∧
                    (r = None ∨ r = Some SkipDir)).
  { destruct info as [name perm|name|name perm entries|name perm|name]; try discriminate.
    - eexists. split; [reflexivity|auto].
    - cbn in Hp. exists (Some SkipDir). split; [|auto].
      cbn -[index_bool ignoredDir]. rewrite Hp. reflexivity. }
  assert (H2 : ∀ remote,
             ∃ r, filepath.walk (licenses2.walkFn env m remote) (gocli.Dir m) info [] = ([], r) ∧
                  (r = None ∨ r = Some SkipDir)).
  { intros remote.
    destruct info as [name perm|name|name perm entries|name perm|name]; try discriminate.
    - eexists. split; [reflexivity|auto].
    - cbn in Hp. exists (Some SkipDir). split; [|auto].
      cbn -[index_bool ignoredDir]. rewrite Hp. reflexivity. }
  unfold licenses1.module, licenses2.module, filepath.Walk. rewrite Hdir, Hls. split.
  - destruct H1 as (r & -> & [->| ->]); reflexivity.
  - destruct (String.eqb (gocli.Version m) "");
      (destruct (ModuleInfo env _ _) as [remote|e]; [|do 2 eexists; reflexivity]);
      destruct (H2 remote) as (r & -> & [->| ->]); do 2 eexists; reflexivity.
Qed.

Lemma complyRecord_exit cfg moduleDict licensePath srcPath record bad w w' status e :
  cmd.complyRecord env cfg moduleDict licensePath srcPath record bad w
    = (w', cmd.Stop (Exit status e)) →
  status = 1%Z.
Proof.
  intros H. unfold cmd.complyRecord in H.
  destruct (cmd.requirementType env _ _) as [req [err|]]; [discriminate|].
  assert (Htail : ∀ w1 bad1,
    (if 0 <? length bad1 then (w1, cmd.Next bad1)
     else
       match SmartDownload env (dict.DownaloadUrl record) with
       | Err err => (w1, cmd.Stop (Return (Some (Wrapf "%s" [ArgS (dict.Module record)] err))))
       | Ok licenseContent =>
           match cmd.writeLicense env licensePath record licenseContent w1 with
           | (w2, Some err) => (w2, cmd.Stop (Exit 1 err))
           | (w2, None) =>
               (emit (EvLog Info "%s: Downloaded %s"
                        [dict.Module record; dict.DownaloadUrl record]) w2, cmd.Next bad1)
           end
       end) = (w', cmd.Stop (Exit status e)) → status = 1%Z).
  { intros w1 bad1 H1. destruct (0 <? length bad1); [discriminate|].
    destruct (SmartDownload env _); [|discriminate].
    destruct (cmd.writeLicense env licensePath record a w1) as [w2 [err|]]; [|discriminate].
    injection H1 as _ <- _. reflexivity. }
  destruct req.
  - eapply Htail. exact H.
  - destruct (moduleDict !! dict.Module record) as [moduleRecord|]; [|discriminate].
    destruct (String.eqb (gocli.Dir moduleRecord) ""); [discriminate|].
    destruct (cmd.copySrc env _ _ w) as [w1 [err|]]; [discriminate|].
    eapply Htail. exact H.
  - eapply Htail. exact H.
Qed.

Lemma complyWithLicenses_exit info cfg savePath w w' status e :
  cmd.complyWithLicenses env info cfg savePath w = (w', Exit status e) → status = 1%Z.
Proof.
  unfold cmd.complyWithLicenses. intros H.
  destruct (ListModules env); [|discriminate].
  destruct (RemoveAll env _ w) as [w1 [err|]]; [discriminate|].
  destruct (MkdirAllErr env _); [discriminate|].
  destruct (CreateErr env _); [discriminate|].
  match type of H with
  | context [cmd.complyLoop ?e ?c ?d ?l ?s ?i ?b ?w0] =>
      remember (cmd.complyLoop e c d l s i b w0) as res eqn:Hloop;
      generalize dependent w0; generalize b
  end.
  induction info as [|record rest IH]; intros bad w0 Hloop; cbn [cmd.complyLoop] in Hloop.
  - subst res. unfold cmd.finish in H. destruct (0 <? length bad); [discriminate|].
    destruct (FlushErr env); discriminate.
  - destruct (cmd.complyRecord env cfg _ _ _ record bad w0) as [w2 [bad2|out]] eqn:Hr.
    + eapply IH. exact Hloop.
    + subst res. injection H as _ ->. eapply complyRecord_exit. exact Hr.
Qed.

(** X21: the Run function of the save command of package cmd never returns
    an error: it returns normally or ends the process.  The status is 255
    exactly for the failures about the save path (it cannot be removed, it
    exists, it cannot be opened), which end the process before anything is
    created, and 1 for every other failure. *)
Theorem saveCmdRun_exit_status savePath overwriteSavePath csvPath w w' out :
  cmd.saveCmdRun env savePath overwriteSavePath csvPath w = (w', out) →
  out = Return None ∨
  (∃ e, out = Exit 1 e) ∨
  (∃ e, out = Exit 255 e ∧
        trace w' = trace w ++ (if overwriteSavePath
                               then match RemoveAllErr env savePath with
                                    | None => [EvRemoveAll savePath]
                                    | Some _ => []
                                    end
                               else [])).
Proof.
  unfold cmd.saveCmdRun. intros H.
  destruct (LoadConfig env) as [cfg|e]; [|injection H as _ <-; eauto].
  destruct (cmd.loadInfo env csvPath) as [info|e]; [|injection H as _ <-; eauto].
  assert (Hrun : ∀ w1,
    match cmd.complyWithLicenses env info cfg savePath w1 with
    | (w2, Return (Some err)) =>
        (emit (EvLog Error "Failed: comply with licenses" []) w2, Exit 1 err)
    | (w2, out0) => (w2, out0)
    end = (w', out) →
    out = Return None ∨ (∃ e, out = Exit 1 e)).
  { intros w1 H1.
    destruct (cmd.complyWithLicenses env info cfg savePath w1) as [w2 [[err|]|status e]] eqn:Hc.
    - injection H1 as _ <-. eauto.
    - injection H1 as _ <-. eauto.
    - injection H1 as _ <-. apply complyWithLicenses_exit in Hc as ->. eauto. }
  destruct overwriteSavePath.
  - unfold RemoveAll in H. destruct (RemoveAllErr env savePath) as [e|].
    + injection H as <- <-. right. right. eexists. split; [reflexivity|].
      rewrite app_nil_r. reflexivity.
    + cbn in H. destruct (Hrun _ H) as [Ho|Ho]; auto.
  - destruct (saveDir w) eqn:Hs.
    + destruct (Hrun _ H) as [Ho|Ho]; auto.
    + injection H as <- <-. right. right. eexists. split; [reflexivity|].
      rewrite app_nil_r. reflexivity.
    + injection H as <- <-. right. right. eexists. split; [reflexivity|].
      rewrite app_nil_r. reflexivity.
Qed.

End Further.

(** ** The further statements on the small runs *)

Section MoreExamples.

Import Fixture Fixture2 Spec Props.

Lemma override_last_wins_witness :
  cmd.licenseTypeOf (env false false) overrides "Proprietary" = "notice".
Proof.
  refine (proj1 (override_last_wins (env false false) overrides "Proprietary"
                   [ {| config.SpdxId := "Proprietary"; config.Type_ := "restricted" |};
                     {| config.SpdxId := "MIT"; config.Type_ := "permissive" |} ]
                   {| config.SpdxId := "Proprietary"; config.Type_ := "notice" |} []
                   eq_refl eq_refl _)).
  constructor.
Defined.

Example requirementType_error_examples :
  cmd.requirementType (env false false) "" (config.Licenses cfg)
    = (cmd.Unknown, Some (Errorf "Empty SPDX ID in %q" [ArgS ""])) ∧
  cmd.requirementType (env false false) "MIT//GPL-3.0" (config.Licenses cfg)
    = (cmd.Unknown, Some (Errorf "Empty SPDX ID in %q" [ArgS "MIT//GPL-3.0"])) ∧
  cmd.requirementType (env false false) "Proprietary/ /MIT" (config.Licenses cfg)
    = (cmd.Unknown, None).
Proof. repeat split. Qed.

(** An expression whose second part is a no-break space: the part is
    empty after trimming, and the part before it is accepted. *)
Lemma requirementType_error_witness :
  ∃ pre part post,
    Split ("MIT/" +:+ String "194" (String "160" "")) "/" = pre ++ part :: post ∧
    TrimSpace part = "" ∧
    Forall (fun q => TrimSpace q ≠ "" ∧ recognised (env false false) (config.Licenses cfg) q = true)
           pre.
Proof.
  exact (proj2 (proj2 (proj1
           (requirementType_error (env false false) (config.Licenses cfg)
              ("MIT/" +:+ String "194" (String "160" "")) cmd.Unknown
              (Errorf "Empty SPDX ID in %q" [ArgS ("MIT/" +:+ String "194" (String "160" ""))]))
           eq_refl))).
Defined.

Lemma row_error_names_module_witness :
  ∃ record,
    In record [rowA; rowB; rowC] ∧
    names (Wrapf "%s: Failed to copy source dir from %s to %s"
             [ArgS "lib-b"; ArgS "/mod/lib-b"; ArgS "out/src"] (ErrSys "lstat" "/mod/lib-b"))
          (dict.Module record) = true.
Proof.
  assert (H : cmd.complyLoop (env false false) cfg (moduleDictOf [libA; libB; libC])
                "out/licenses.txt" "out/src" [rowA; rowB; rowC] [] fresh
              = (fresh, cmd.Stop (Return (Some
                   (Wrapf "%s: Failed to copy source dir from %s to %s"
                      [ArgS "lib-b"; ArgS "/mod/lib-b"; ArgS "out/src"]
                      (ErrSys "lstat" "/mod/lib-b"))))))
    by (vm_compute; reflexivity).
  exact (proj2 (row_error_names_module _ _ _ _ _ _ _ _ _ _ H) _ eq_refl).
Defined.

Lemma no_text_after_rejection_witness :
  writesTo "out/licenses.txt"
    (trace (cmd.complyLoop (env false false) cfg (moduleDictOf [libA; libB; libC])
              "out/licenses.txt" "out/src" [rowC] [rowA] fresh).1)
  = writesTo "out/licenses.txt" (trace fresh).
Proof.
  assert (Hne : [rowA] ≠ []) by discriminate.
  exact (no_text_after_rejection (env false false) cfg (moduleDictOf [libA; libB; libC])
           "out/licenses.txt" "out/src" [rowC] [rowA] fresh _ _ "out/licenses.txt" Hne
           (surjective_pairing _)).
Defined.


Lemma rejected_rows_counted_witness :
  [rowA] = List.filter (rejectedRow (env false false) cfg) [rowC; rowA].
Proof.
  assert (H : cmd.complyLoop (env false false) cfg (moduleDictOf [libA; libB; libC])
                "out/licenses.txt" "out/src" [rowC; rowA] [] fresh
              = ((cmd.complyLoop (env false false) cfg (moduleDictOf [libA; libB; libC])
                    "out/licenses.txt" "out/src" [rowC; rowA] [] fresh).1, cmd.Next [rowA]))
    by (vm_compute; reflexivity).
  exact (proj1 (rejected_rows_counted _ _ _ _ _ _ _ _ _ H)).
Defined.


Lemma Modules_only_warns_witness :
  saveDir (licenses2.Modules (envWith [libC] false) [] fresh).2 = saveDir fresh.
Proof.
  assert (H : licenses2.Modules (envWith [libC] false) [] fresh
              = ((licenses2.Modules (envWith [libC] false) [] fresh).1.1,
                 (licenses2.Modules (envWith [libC] false) [] fresh).1.2,
                 (licenses2.Modules (envWith [libC] false) [] fresh).2))
    by (vm_compute; reflexivity).
  exact (proj1 (Modules_only_warns _ _ _ _ _ _ H)).
Defined.

Lemma check_rejects_forbidden_only_witness :
  check.checkMain (env false false) ["lib-a"] fresh = (fresh, Return None).
Proof.
  assert (H : licenses2.Modules (env false false) ["lib-a"] fresh
              = ([ {| Mod := libA;
                      Licenses := [mitLicense "LICENSE" "https://example.org/lib-a/LICENSE"] |} ],
                 None, fresh))
    by (vm_compute; reflexivity).
  refine (proj2 (check_rejects_forbidden_only (env false false) ["lib-a"] fresh _ fresh
                   eq_refl H) _).
  intros Hex. inversion Hex as [? ? Hf|? ? Hf]; subst.
  - inversion Hf as [? ? Hl|? ? Hl]; subst; [discriminate Hl|inversion Hl].
  - inversion Hf.
Defined.

(** The check command on a module with a forbidden license, and on one
    with a license of unknown type. *)
Example check_examples :
  check.checkModules
    [ {| Mod := libA; Licenses := [mitLicense "LICENSE" ""] |};
      {| Mod := libB;
         Licenses := [ {| ID := "GPL-3.0"; Path := "COPYING"; URL := ""; Type_ := Restricted |};
                       {| ID := "Proprietary"; Path := "EULA"; URL := ""; Type_ := Forbidden |} ] |} ]
    = Some ("lib-b", {| ID := "Proprietary"; Path := "EULA"; URL := ""; Type_ := Forbidden |}) ∧
  check.checkModules
    [ {| Mod := libC;
         Licenses := [ {| ID := ""; Path := "LICENSE"; URL := ""; Type_ := licenses.Unknown |} ] |} ]
    = None.
Proof. split; reflexivity. Qed.

Lemma csvMain_errors_witness :
  NewClassifierErr (envWith [libA] true) = Some (ErrSys "write" csv.stdout) ∨
  Libraries (envWith [libA] true) [] = Err (ErrSys "write" csv.stdout) ∨
  WriteErr (envWith [libA] true) csv.stdout = Some (ErrSys "write" csv.stdout).
Proof.
  assert (H : csv.csvMain (envWith [libA] true) [] fresh
              = (fresh, Some (ErrSys "write" csv.stdout)))
    by (vm_compute; reflexivity).
  exact (csvMain_errors _ _ _ _ _ H).
Defined.

Lemma csvMainModules_output_witness :
  ∃ mods w1,
    licenses2.Modules (envWith [libA] false) [] fresh = (mods, None, w1) ∧
    outputOf (trace (csv.csvMainModules (envWith [libA] false) [] fresh).1) =
      outputOf (trace fresh) ++
      flat_map (fun m => map (fun l => csv.row (gocli.Path (Mod m)) (URL l) (ID l))
                             (Licenses m)) mods.
Proof.
  assert (H : csv.csvMainModules (envWith [libA] false) [] fresh
              = ((csv.csvMainModules (envWith [libA] false) [] fresh).1, None))
    by (vm_compute; reflexivity).
  exact (proj1 (csvMainModules_output _ _ _ _ _ H) eq_refl).
Defined.

Lemma JoinModuleRefWithLocalModules_spec_witness :
  deps.JoinModuleRefWithLocalModules depsEnv [refA]
    = Ok [ {| deps.GoImportPath := "lib-a"; deps.GoVersion := "v1.0.0";
              deps.SrcDir := "/mod/lib-a" |} ]
  ↔ Forall2 (matches (deps.BuildModuleDict depsEnv localModules)) [refA]
      [ {| deps.GoImportPath := "lib-a"; deps.GoVersion := "v1.0.0";
           deps.SrcDir := "/mod/lib-a" |} ].
Proof.
  exact (proj1 (JoinModuleRefWithLocalModules_spec depsEnv [refA] localModules eq_refl) _).
Defined.

(** The modules of a binary, and a reference whose version differs from
    the downloaded one. *)
Example deps_examples :
  deps.ListModulesInGoBinary depsEnv "bin/tool" = Ok [refA] ∧
  deps.ListModulesInGoBinary depsEnv "bin/other"
    = Err (Wrapf "ListModulesInGoBinary(Path='%s')" [ArgS "bin/other"]
             (ErrSys "Extract" "bin/other")) ∧
  deps.JoinModuleRefWithLocalModules depsEnv [refA]
    = Ok [ {| deps.GoImportPath := "lib-a"; deps.GoVersion := "v1.0.0";
              deps.SrcDir := "/mod/lib-a" |} ] ∧
  deps.JoinModuleRefWithLocalModules depsEnv
    [ {| deps.ImportPath := "lib-a"; deps.Version := "v1.1.0" |} ]
    = Err (Errorf deps.versionMismatch [ArgS "lib-a"; ArgS "v1.1.0"; ArgS "v1.0.0"]) ∧
  deps.JoinModuleRefWithLocalModules depsEnv
    [ refA; {| deps.ImportPath := "lib-z"; deps.Version := "v1.0.0" |} ]
    = Err (Errorf deps.cannotFind [ArgS "lib-z"]).
Proof. repeat split; vm_compute; reflexivity. Qed.

Lemma notice_files_copied_witness :
  ∃ evs,
    trace (main.copyNoticeFiles (env false false) "/mod/lib-a" "out/lib-a" filesA fresh).1
      = trace fresh ++ evs ∧
    Forall2 (fun f e => ∃ created,
               e = EvCopy (Join "/mod/lib-a" (Name f)) (Join "out/lib-a" (Name f)) created)
            (List.filter isNoticeFile filesA) evs.
Proof.
  assert (H : main.copyNoticeFiles (env false false) "/mod/lib-a" "out/lib-a" filesA fresh
              = ((main.copyNoticeFiles (env false false) "/mod/lib-a" "out/lib-a" filesA fresh).1,
                 None))
    by (vm_compute; reflexivity).
  exact (proj2 (notice_files_copied _ _ _ _ _ _ H)).
Defined.

Lemma copied_tree_user_read_write_witness :
  ∃ created,
    main.copySrc (envAt versioned) "/gopath/pkg/mod/example.com/lib-a@v1.0.0"
      "out/src/example.com/lib-a" fresh
      = (emit (EvCopy "/gopath/pkg/mod/example.com/lib-a@v1.0.0"
                 "out/src/example.com/lib-a" created) fresh, None) ∧
    Name created = "lib-a" ∧
    Forall userReadWrite (allNodes created).
Proof.
  assert (H : main.copySrc (envAt versioned) "/gopath/pkg/mod/example.com/lib-a@v1.0.0"
                "out/src/example.com/lib-a" fresh
              = (emit (EvCopy "/gopath/pkg/mod/example.com/lib-a@v1.0.0"
                         "out/src/example.com/lib-a"
                         (Dir "lib-a" 493 [File "LICENSE" 420; File "main.go" 420])) fresh,
                 None))
    by (vm_compute; reflexivity).
  destruct (copied_tree_user_read_write _ _ _ _ _ H) as (_ & created & Hw & Hname & Hall).
  exists created. split; [rewrite H, Hw; reflexivity|]. split; [exact Hname|exact Hall].
Defined.

(** The tree that the copy above records: the directory .git is left out,
    and the root is named lib-a, after the destination. *)
Example copy_versioned_module :
  main.copySrc (envAt versioned) "/gopath/pkg/mod/example.com/lib-a@v1.0.0"
    "out/src/example.com/lib-a" fresh
  = (emit (EvCopy "/gopath/pkg/mod/example.com/lib-a@v1.0.0" "out/src/example.com/lib-a"
             (Dir "lib-a" 493 [File "LICENSE" 420; File "main.go" 420])) fresh, None).
Proof. vm_compute. reflexivity. Qed.

Lemma saveMain_success_witness :
  NewClassifierErr (envWith [libC] false) = None.
Proof.
  assert (H : main.saveMain (envWith [libC] false) "out" true main.strictness [] stale
              = ((main.saveMain (envWith [libC] false) "out" true main.strictness [] stale).1,
                 None))
    by (vm_compute; reflexivity).
  exact (proj1 (saveMain_success _ _ _ _ _ _ _ H)).
Defined.

(** A scan in which a symbolic link, the directory .git and a directory
    testdata with a license file are passed over. *)
Example walk_prunes_examples :
  filepath.walkNames (licenses1.walkFn (env false false))
    (filepath.walk (licenses1.walkFn (env false false))) "/mod/lib-a"
    [ Symlink "LICENSE"; Dir ".git" 493 [File "LICENSE" 420];
      Dir "testdata" 493 [File "LICENSE" 420]; File "LICENSE" 420 ] []
  = ([ {| licenses1.ID := "MIT"; licenses1.Path := "/mod/lib-a/LICENSE";
          licenses1.URL := "" |} ], None).
Proof. vm_compute. reflexivity. Qed.

Lemma governingType_first_of_greatest_rank_witness :
  tiedRank (main.governingType tiedRank unknownThenForbidden)
    = tiedRank (main.governingType tiedRank (rev unknownThenForbidden)).
Proof.
  apply (proj2 (governingType_first_of_greatest_rank tiedRank unknownThenForbidden
                  (rev unknownThenForbidden))).
  apply perm_swap.
Defined.

(** With a numbering that gives Unknown and Forbidden the same rank, the
    governing type of these two findings is the one that comes first. *)
Example governingType_tie :
  main.governingType tiedRank unknownThenForbidden = Unknown ∧
  main.governingType tiedRank (rev unknownThenForbidden) = Forbidden.
Proof. split; reflexivity. Qed.

Lemma pruned_root_is_not_scanned_witness :
  licenses1.module (envAt (Symlink "lib-a")) libA
    = ({| licenses1.Mod := libA; licenses1.Licenses := [] |},
       Some (scanError libA licenseNotFound)).
Proof.
  assert (Hdir : gocli.Dir libA ≠ "") by discriminate.
  exact (proj1 (pruned_root_is_not_scanned (envAt (Symlink "lib-a")) libA (Symlink "lib-a")
                  fresh Hdir eq_refl eq_refl)).
Defined.

Lemma saveCmdRun_exit_status_witness :
  Exit 255 (Errorf "%s already exists" [ArgS "out"]) = Return None ∨
  (∃ e, Exit 255 (Errorf "%s already exists" [ArgS "out"]) = Exit 1 e) ∨
  (∃ e, Exit 255 (Errorf "%s already exists" [ArgS "out"]) = Exit 255 e ∧
        trace stale = trace stale ++ []).
Proof.
  assert (H : cmd.saveCmdRun (env false false) "out" false "licenses.csv" stale
              = (stale, Exit 255 (Errorf "%s already exists" [ArgS "out"])))
    by (vm_compute; reflexivity).
  exact (saveCmdRun_exit_status _ _ _ _ _ _ _ H).
Defined.

End MoreExamples.
